(** * Bagel client: chunked dataset transfer and the retrying query call

    A shallow embedding of [bagel/api/fastapi.py]: the CSV chunk encoder of
    [upload_dataset], the chunking loop, [_upload_chunk], [load_dataset],
    [_query] with [raise_bagel_error], and the header helper
    [_popuate_headers_with_api_key].

    Python values are modelled as follows.
    - [str] is a list of Unicode code points ([N]); [str.splitlines] depends on
      code points above 255, so bytes would not do.
    - [int] is [Z].
    - a [dict] with string keys is a [gmap]; dict objects that are shared and
      mutated live in a heap addressed by locations.
    - calls that touch the outside world (the HTTP transport, [time.sleep],
      the progress bar, [print]) run in a state-and-exception monad over a
      record of everything observable. *)

From Stdlib Require Import ZArith NArith Ascii String List.
From stdpp Require Import base tactics option list numbers gmap fin_maps.
From stdpp Require Import strings.

Local Open Scope Z_scope.

(** ** Python strings *)

Module Py.

(** A Python [str]: its code points. *)
Abbreviation pystr := (list N).

(** A literal: the code points of an ASCII text. *)
Definition str (s : string) : pystr :=
  N_of_ascii <$> list_ascii_of_string s.

Definition LF : N := 10%N.
Definition CR : N := 13%N.
Definition QUOTE : N := 34%N.
Definition COMMA : N := 44%N.
Definition SPACE : N := 32%N.
Definition TAB : N := 9%N.

(** [sep.join(parts)]. *)
Fixpoint join (sep : pystr) (parts : list pystr) : pystr :=
  match parts with
  | [] => []
  | [p] => p
  | p :: rest => p ++ sep ++ join sep rest
  end.

(** A code point that UTF-8 encodes: a code point of Unicode that is not a
    surrogate. *)
Definition encodable (c : N) : bool :=
  (((c <? 55296) || (57343 <? c)) && (c <=? 1114111))%N.

(** [s.replace(q, q + q)] for the quote character [q]. *)
Fixpoint replace_quote (s : pystr) : pystr :=
  match s with
  | [] => []
  | c :: s' =>
      if N.eqb c QUOTE then QUOTE :: QUOTE :: replace_quote s'
      else c :: replace_quote s'
  end.

(** The line boundaries of [str.splitlines]: LF, VT, FF, CR, FS, GS, RS,
    NEL, LINE SEPARATOR and PARAGRAPH SEPARATOR (CR LF counts once). *)
Definition is_linebreak (c : N) : bool :=
  (N.eqb c 10 || N.eqb c 11 || N.eqb c 12 || N.eqb c 13 ||
   N.eqb c 28 || N.eqb c 29 || N.eqb c 30 || N.eqb c 133 ||
   N.eqb c 8232 || N.eqb c 8233)%N.

(** [s.splitlines()]; [cur] is the line being read, reversed.  A final line
    break does not open an empty last line. *)
Fixpoint splitlines_from (cur : pystr) (s : pystr) : list pystr :=
  match s with
  | [] => match cur with [] => [] | _ => [rev cur] end
  | c :: s' =>
      if N.eqb c CR then
        match s' with
        | c' :: s'' =>
            if N.eqb c' LF then rev cur :: splitlines_from [] s''
            else rev cur :: splitlines_from [] s'
        | [] => [rev cur]
        end
      else if is_linebreak c then rev cur :: splitlines_from [] s'
      else splitlines_from (c :: cur) s'
  end.

Definition splitlines (s : pystr) : list pystr := splitlines_from [] s.

(** Iterating a text file opened with [newline=''] yields its lines with
    their terminators kept; a line ends at LF, at CR LF, or at a lone CR. *)
Fixpoint file_lines_from (cur : pystr) (s : pystr) : list pystr :=
  match s with
  | [] => match cur with [] => [] | _ => [rev cur] end
  | c :: s' =>
      if N.eqb c LF then rev (c :: cur) :: file_lines_from [] s'
      else if N.eqb c CR then
        match s' with
        | c' :: s'' =>
            if N.eqb c' LF then rev (c' :: c :: cur) :: file_lines_from [] s''
            else rev (c :: cur) :: file_lines_from [] s'
        | [] => [rev (c :: cur)]
        end
      else file_lines_from (c :: cur) s'
  end.

Definition file_lines (content : pystr) : list pystr :=
  file_lines_from [] content.

End Py.
Import Py.

(** ** The standard library's [csv.reader]

    [upload_dataset] reads its input through [csv.reader(file)] with the
    default dialect: delimiter comma, quote character the double quote,
    [doublequote] on, no escape character, [skipinitialspace] off, [strict]
    off.  The reader is the character automaton of CPython's [_csv.c]
    ([parse_process_char]), fed one line of the file at a time
    ([Reader_iternext]); the states an escape character leads to cannot be
    reached and are left out. *)

Module Csv.

Inductive ParserState :=
  | START_RECORD | START_FIELD | IN_FIELD
  | IN_QUOTED_FIELD | QUOTE_IN_QUOTED_FIELD | EAT_CRNL.

#[global] Instance ParserState_eq_dec : EqDecision ParserState.
Proof. solve_decision. Defined.

(** What the reader object holds between characters: the automaton state,
    the fields of the record so far and the field being read (both
    reversed). *)
Record ReaderObj := mkReader {
  state : ParserState;
  fields : list pystr;
  field : pystr;
}.

Inductive Error :=
  | FieldLimit      (* field larger than field limit (131072) *)
  | NewlineInField. (* new-line character seen in unquoted field *)

(** The input of the automaton: a character of the line, or the end-of-line
    mark the reader feeds after each line. *)
Inductive Input := Chr (c : N) | EOL.

Definition field_limit : N := 131072%N.

Definition parse_reset : ReaderObj :=
  {| state := START_RECORD; fields := []; field := [] |}.

Definition parse_save_field (self : ReaderObj) : ReaderObj :=
  {| state := state self; fields := rev (field self) :: fields self;
     field := [] |}.

Definition parse_add_char (self : ReaderObj) (c : N) : Error + ReaderObj :=
  if (field_limit <=? N.of_nat (length (field self)))%N then inl FieldLimit
  else inr {| state := state self; fields := fields self;
              field := c :: field self |}.

Definition set_state (st : ParserState) (self : ReaderObj) : ReaderObj :=
  {| state := st; fields := fields self; field := field self |}.

Definition then_state (st : ParserState) (r : Error + ReaderObj)
  : Error + ReaderObj :=
  match r with inl e => inl e | inr self => inr (set_state st self) end.

Definition is_newline (i : Input) : bool :=
  match i with Chr c => N.eqb c LF || N.eqb c CR | EOL => true end.

Definition after_newline (i : Input) : ParserState :=
  match i with EOL => START_RECORD | Chr _ => EAT_CRNL end.

(** [START_FIELD]; [START_RECORD] falls through to it on a normal
    character. *)
Definition start_field (self : ReaderObj) (i : Input) : Error + ReaderObj :=
  if is_newline i then
    inr (set_state (after_newline i) (parse_save_field self))
  else match i with
  | EOL => inr self
  | Chr c =>
      if N.eqb c QUOTE then inr (set_state IN_QUOTED_FIELD self)
      else if N.eqb c COMMA then
        inr (set_state START_FIELD (parse_save_field self))
      else then_state IN_FIELD (parse_add_char self c)
  end.

Definition parse_process_char (self : ReaderObj) (i : Input)
  : Error + ReaderObj :=
  match state self with
  | START_RECORD =>
      match i with
      | EOL => inr self
      | Chr c =>
          if N.eqb c LF || N.eqb c CR then inr (set_state EAT_CRNL self)
          else start_field self i
      end
  | START_FIELD => start_field self i
  | IN_FIELD =>
      if is_newline i then
        inr (set_state (after_newline i) (parse_save_field self))
      else match i with
      | EOL => inr self
      | Chr c =>
          if N.eqb c COMMA then
            inr (set_state START_FIELD (parse_save_field self))
          else parse_add_char self c
      end
  | IN_QUOTED_FIELD =>
      match i with
      | EOL => inr self
      | Chr c =>
          if N.eqb c QUOTE then inr (set_state QUOTE_IN_QUOTED_FIELD self)
          else parse_add_char self c
      end
  | QUOTE_IN_QUOTED_FIELD =>
      match i with
      | Chr c =>
          if N.eqb c QUOTE then
            then_state IN_QUOTED_FIELD (parse_add_char self c)
          else if N.eqb c COMMA then
            inr (set_state START_FIELD (parse_save_field self))
          else if is_newline i then
            inr (set_state EAT_CRNL (parse_save_field self))
          else then_state IN_FIELD (parse_add_char self c)
      | EOL => inr (set_state START_RECORD (parse_save_field self))
      end
  | EAT_CRNL =>
      match i with
      | EOL => inr (set_state START_RECORD self)
      | Chr c =>
          if N.eqb c LF || N.eqb c CR then inr self
          else inl NewlineInField
      end
  end.

(** The characters of one line, then the end-of-line mark. *)
Fixpoint parse_chars (self : ReaderObj) (line : pystr) : Error + ReaderObj :=
  match line with
  | [] => parse_process_char self EOL
  | c :: line' =>
      match parse_process_char self (Chr c) with
      | inl e => inl e
      | inr self' => parse_chars self' line'
      end
  end.

(** The record a finished automaton holds. *)
Definition record (self : ReaderObj) : list pystr := rev (fields self).

(** The whole iteration of [csv.reader(lines)]: the records it yields, in
    order, and the error that ends the iteration early, if one does.  [self]
    is the reader at the start of a line: freshly reset, or inside a quoted
    field that the previous line left open.  When the lines run out inside a
    record the reader yields what it has. *)
Fixpoint reader_from (self : ReaderObj) (lines : list pystr)
  : list (list pystr) * option Error :=
  match lines with
  | [] =>
      if bool_decide (field self ≠ [] ∨ state self = IN_QUOTED_FIELD)
      then ([record (parse_save_field self)], None)
      else ([], None)
  | line :: rest =>
      match parse_chars self line with
      | inl e => ([], Some e)
      | inr self' =>
          if bool_decide (state self' = START_RECORD) then
            let '(records, err) := reader_from parse_reset rest in
            (record self' :: records, err)
          else reader_from self' rest
      end
  end.

Definition reader (lines : list pystr) : list (list pystr) * option Error :=
  reader_from parse_reset lines.

End Csv.

(** ** Values at the transport boundary *)

#[local] Set Warnings "-register-all".

(** A parsed JSON document, as [resp.json()] returns it.  Python's [None] is
    [JNull]; an object keeps its members as an association list read from
    the front. *)
Inductive json :=
  | JNull
  | JBool (b : bool)
  | JInt (n : Z)
  | JFloat (literal : pystr)
  | JStr (s : pystr)
  | JArr (items : list json)
  | JObj (members : list (pystr * json)).

(** [key in members] and [members[key]] of a dict. *)
Fixpoint dict_get (key : pystr) (members : list (pystr * json)) : option json :=
  match members with
  | [] => None
  | (k, v) :: rest => if bool_decide (k = key) then Some v else dict_get key rest
  end.

(** A [requests.Response]: the status code, the body text, and the body
    parsed as JSON when it parses. *)
Record Response := mkResponse {
  status_code : Z;
  text : pystr;
  json_body : option json;
}.

(** [resp.ok]: [raise_for_status] raises exactly for 400 <= status < 600. *)
Definition ok (resp : Response) : bool :=
  negb ((400 <=? status_code resp) && (status_code resp <? 600)).

(** A header dict: header names to values, a value possibly [None]. *)
Abbreviation headers_dict := (gmap pystr (option pystr)).

(** A request handed to [requests.get] or [requests.post]. *)
Inductive Method := GET | POST.

Inductive Body :=
  | NoBody
  | JsonText (document : json)                (* data=json.dumps(...) *)
  | Form (fields : list (pystr * json)).      (* data={...} *)

Record Request := mkRequest {
  method : Method;
  url : pystr;
  headers : option headers_dict;
  params : list (pystr * json);
  data : Body;
  files : list (pystr * (pystr * pystr));  (* part name, (file name, content) *)
}.

(** ** Exceptions *)

(** A class of [bagel.errors.error_types], known by its name. *)
Inductive error_class := ErrorClass (name : pystr).

(** What the transport raises when no response arrives. *)
Inductive net_error := ConnectionFailed | TimedOut.

Inductive exn :=
  | RequestException (e : net_error)
  | HTTPError (status : Z)
  | BagelError (cls : error_class) (message : json)
  | Exception (message : pystr)
  | JSONDecodeError
  | KeyError (key : pystr)
  | TypeError
  | AttributeError
  | UnboundLocalError
  | FileNotFoundError
  | StopIteration
  | CsvError (e : Csv.Error)
  | EmptyDataError
  | ParserError
  | UnicodeEncodeError.

(** ** The world and the monad of effects *)

(** The progress bar [tqdm(total=...)]: its total and its counter. *)
Record tqdm := mkTqdm { total : Z; n : Z; closed : bool }.

(** Lines written by [print]. *)
Inductive Message :=
  | ChunkFailed (chunk_number status : Z)
  | UploadCompleted.

(** Everything a call can change or leave behind: the requests issued
    (oldest first), the delays slept, the progress bar, the printed lines,
    and the heap of header dicts (a location is an index). *)
Record World := mkWorld {
  sent : list Request;
  slept : list Z;
  pbar : tqdm;
  printed : list Message;
  heap : list headers_dict;
}.

Definition M (A : Type) : Type := World → (exn + A) * World.

Definition ret {A} (a : A) : M A := λ w, (inr a, w).
Definition raise {A} (e : exn) : M A := λ w, (inl e, w).
Definition bind {A B} (m : M A) (k : A → M B) : M B :=
  λ w, match m w with
       | (inl e, w') => (inl e, w')
       | (inr a, w') => k a w'
       end.

Notation "x <- m ;; k" := (bind m (λ x, k))
  (at level 100, m at next level, right associativity, only parsing).
Notation "m ;;; k" := (bind m (λ _, k))
  (at level 100, right associativity, only parsing).

Definition sleep (seconds : Z) : M unit :=
  λ w, (inr tt, mkWorld (sent w) (slept w ++ [seconds]) (pbar w) (printed w) (heap w)).

Definition print (m : Message) : M unit :=
  λ w, (inr tt, mkWorld (sent w) (slept w) (pbar w) (printed w ++ [m]) (heap w)).

Definition tqdm_new (total_rows : Z) : M unit :=
  λ w, (inr tt, mkWorld (sent w) (slept w) (mkTqdm total_rows 0 false) (printed w) (heap w)).

(** [pbar.update(k)]. *)
Definition pbar_update (k : Z) : M unit :=
  λ w, (inr tt, mkWorld (sent w) (slept w)
                  (mkTqdm (total (pbar w)) (n (pbar w) + k) (closed (pbar w)))
                  (printed w) (heap w)).

Definition pbar_close : M unit :=
  λ w, (inr tt, mkWorld (sent w) (slept w)
                  (mkTqdm (total (pbar w)) (n (pbar w)) true)
                  (printed w) (heap w)).

(** [d.copy()]: a new dict object with the same entries. *)
Definition dict_copy (loc : nat) : M nat :=
  λ w, match heap w !! loc with
       | None => (inl AttributeError, w)
       | Some d => (inr (length (heap w)),
                    mkWorld (sent w) (slept w) (pbar w) (printed w) (heap w ++ [d]))
       end.

(** [d[key] = value] on the dict object at [loc]. *)
Definition dict_setitem (loc : nat) (key : pystr) (value : option pystr) : M unit :=
  λ w, match heap w !! loc with
       | None => (inl AttributeError, w)
       | Some d => (inr tt,
                    mkWorld (sent w) (slept w) (pbar w) (printed w)
                      (<[loc := <[key := value]> d]> (heap w)))
       end.

(** The entries of the dict object at [loc], as the transport reads them. *)
Definition dict_read (loc : nat) : M headers_dict :=
  λ w, match heap w !! loc with
       | None => (inl AttributeError, w)
       | Some d => (inr d, w)
       end.

(** ** The pandas reader used by [load_dataset]

    [pd.read_csv(StringIO(text), on_bad_lines='skip')] with every other
    option at its default runs the C tokenizer of pandas
    ([tokenize_bytes], [end_line] and [parser_handle_eof] of [tokenizer.c])
    with delimiter comma, quote character the double quote, [doublequote]
    on, no escape or comment character, [skipinitialspace] off and blank
    lines skipped.  The model keeps the states these options can reach.

    The columns are then converted as [TextReader] of [parsers.pyx] does
    with these options (pandas 2): the names of the columns are made
    distinct, and every column becomes numbers, booleans or text, with
    missing values for the tokens pandas takes for such.  Of a [float64]
    only what it was read from is kept, not its value. *)

Module Pandas.

Inductive ParserState :=
  | START_RECORD | START_FIELD | IN_FIELD
  | IN_QUOTED_FIELD | QUOTE_IN_QUOTED_FIELD
  | EAT_CRNL | EAT_CRNL_NOP | WHITESPACE_LINE.

#[global] Instance ParserState_eq_dec : EqDecision ParserState.
Proof. solve_decision. Defined.

(** The tokenizer between characters: its state, the token being read
    ([stream], reversed), the tokens of the current line (reversed), the
    lines accepted so far (latest first), and the blanks read at the start of
    a line that may turn out to be blank. *)
Record parser_t := mkParser {
  state : ParserState;
  stream : pystr;
  line : list pystr;
  lines : list (list pystr);
  blanks : pystr;
}.

Definition parser_new : parser_t :=
  {| state := START_RECORD; stream := []; line := []; lines := [];
     blanks := [] |}.

Definition set_state (st : ParserState) (self : parser_t) : parser_t :=
  {| state := st; stream := stream self; line := line self;
     lines := lines self; blanks := blanks self |}.

Definition push_char (c : N) (self : parser_t) : parser_t :=
  {| state := state self; stream := c :: stream self; line := line self;
     lines := lines self; blanks := blanks self |}.

Definition end_field (self : parser_t) : parser_t :=
  {| state := state self; stream := [];
     line := rev (stream self) :: line self;
     lines := lines self; blanks := blanks self |}.

(** The decision of [end_line] with [on_bad_lines='skip']: [accepted] are
    the lines kept so far (latest first) and [tokens] the line that ends.
    The header and the first data line are always kept.  A later line with
    more tokens than the line kept before it is dropped; a line from the
    first data line on with fewer tokens is filled up with empty tokens. *)
Definition accept_line (accepted : list (list pystr)) (tokens : list pystr)
  : list (list pystr) :=
  match accepted with
  | [] => [tokens]
  | previous :: _ =>
      let ex_fields := length previous in
      if bool_decide (1 < length accepted ∧ ex_fields < length tokens)%nat
      then accepted
      else (tokens ++ replicate (ex_fields - length tokens) []) :: accepted
  end.

Definition end_line (self : parser_t) : parser_t :=
  {| state := START_RECORD; stream := stream self; line := [];
     lines := accept_line (lines self) (rev (line self));
     blanks := blanks self |}.

Definition is_whitespace (c : N) : bool := N.eqb c SPACE || N.eqb c TAB.

Definition start_field (self : parser_t) (c : N) : parser_t :=
  if N.eqb c LF then end_line (end_field self)
  else if N.eqb c CR then set_state EAT_CRNL (end_field self)
  else if N.eqb c QUOTE then set_state IN_QUOTED_FIELD self
  else if N.eqb c COMMA then set_state START_FIELD (end_field self)
  else set_state IN_FIELD (push_char c self).

Definition in_field (self : parser_t) (c : N) : parser_t :=
  if N.eqb c LF then end_line (end_field self)
  else if N.eqb c CR then set_state EAT_CRNL (end_field self)
  else if N.eqb c COMMA then set_state START_FIELD (end_field self)
  else push_char c self.

(** [START_RECORD]: an empty line is skipped, a line that starts with a
    blank may be a blank line, anything else starts a field. *)
Definition start_record (self : parser_t) (c : N) : parser_t :=
  if N.eqb c LF then set_state START_RECORD self
  else if N.eqb c CR then set_state EAT_CRNL_NOP self
  else if is_whitespace c then
    {| state := WHITESPACE_LINE; stream := stream self; line := line self;
       lines := lines self; blanks := [c] |}
  else start_field self c.

(** One character.  In [EAT_CRNL] and [EAT_CRNL_NOP] a character that does
    not belong to the line ending is read again as the start of a record.
    In [WHITESPACE_LINE] the first character that is no blank sends the
    tokenizer back over the blanks of the line, which then start an
    unquoted field (the C code rewinds to the character after the last LF,
    which is the start of the line unless the line before ended in a lone
    CR). *)
Definition step (self : parser_t) (c : N) : parser_t :=
  match state self with
  | START_RECORD => start_record self c
  | START_FIELD => start_field self c
  | IN_FIELD => in_field self c
  | IN_QUOTED_FIELD =>
      if N.eqb c QUOTE then set_state QUOTE_IN_QUOTED_FIELD self
      else push_char c self
  | QUOTE_IN_QUOTED_FIELD =>
      if N.eqb c QUOTE then set_state IN_QUOTED_FIELD (push_char c self)
      else if N.eqb c COMMA then set_state START_FIELD (end_field self)
      else if N.eqb c LF then end_line (end_field self)
      else if N.eqb c CR then set_state EAT_CRNL (end_field self)
      else set_state IN_FIELD (push_char c self)
  | EAT_CRNL =>
      if N.eqb c LF then end_line self
      else start_record (end_line self) c
  | EAT_CRNL_NOP =>
      if N.eqb c LF || N.eqb c COMMA then set_state START_RECORD self
      else start_record (set_state START_RECORD self) c
  | WHITESPACE_LINE =>
      if N.eqb c LF then set_state START_RECORD self
      else if N.eqb c CR then set_state EAT_CRNL_NOP self
      else if is_whitespace c then
        {| state := WHITESPACE_LINE; stream := stream self;
           line := line self; lines := lines self;
           blanks := c :: blanks self |}
      else
        in_field {| state := IN_FIELD; stream := blanks self;
                    line := line self; lines := lines self; blanks := [] |} c
  end.

Definition tokenize_bytes (self : parser_t) (text : pystr) : parser_t :=
  fold_left step text self.

(** The end of the text: an open quoted field is an error, an open line is
    ended. *)
Definition parser_handle_eof (self : parser_t) : exn + parser_t :=
  match state self with
  | START_RECORD | WHITESPACE_LINE | EAT_CRNL_NOP => inr self
  | IN_QUOTED_FIELD => inl ParserError
  | IN_FIELD | START_FIELD | QUOTE_IN_QUOTED_FIELD =>
      inr (end_line (end_field self))
  | EAT_CRNL => inr (end_line self)
  end.

(** All lines of a text, the header line first. *)
Definition tokenize_all_rows (text : pystr) : exn + list (list pystr) :=
  match parser_handle_eof (tokenize_bytes parser_new text) with
  | inl e => inl e
  | inr self => inr (rev (lines self))
  end.

(** *** Columns

    After the tokens are read, every column is converted on its own
    ([TextReader._convert_tokens] of [parsers.pyx], with the functions of
    [tokenizer.c] it calls): to [int64] if every token is an integer, else to
    [float64], else to [bool], else it stays text ([object]); tokens of
    [STR_NA_VALUES] are missing values.  The words are C strings: a token
    ends at its first NUL. *)

Inductive Dtype := int64 | uint64 | float64 | bool_ | object_.

#[global] Instance Dtype_eq_dec : EqDecision Dtype.
Proof. solve_decision. Defined.

(** A [float64] is kept as what it was converted from, an integer or the
    text of a numeral: the value is the double nearest to it. *)
Inductive Float := OfInt (z : Z) | OfNumeral (word : pystr).

(** A cell of a frame: the missing value [NaN], a number, a boolean or a
    Python [str]. *)
Inductive Cell :=
  | NaN
  | Int (z : Z)
  | Float64 (x : Float)
  | Bool (b : bool)
  | Str (s : pystr).

#[global] Instance Float_eq_dec : EqDecision Float.
Proof. solve_decision. Defined.

#[global] Instance Cell_eq_dec : EqDecision Cell.
Proof. solve_decision. Defined.

Record Series := mkSeries { dtype : Dtype; cells : list Cell }.

#[global] Instance Series_eq_dec : EqDecision Series.
Proof. solve_decision. Defined.

Fixpoint c_str (token : pystr) : pystr :=
  match token with
  | [] => []
  | c :: rest => if N.eqb c 0 then [] else c :: c_str rest
  end.

Definition STR_NA_VALUES : list pystr :=
  (str <$> ["-1.#IND"; "1.#QNAN"; "1.#IND"; "-1.#QNAN"; "#N/A N/A"; "#N/A";
            "N/A"; "n/a"; "NA"; "<NA>"; "#NA"; "NULL"; "null"; "NaN"; "-NaN";
            "nan"; "-nan"; "None"]%string) ++ [[]].

Definition is_na (word : pystr) : bool := bool_decide (word ∈ STR_NA_VALUES).

Definition isspace_ascii (c : N) : bool :=
  (N.eqb c 32 || (N.leb 9 c && N.leb c 13))%N.

Definition isdigit_ascii (c : N) : bool := (N.leb 48 c && N.leb c 57)%N.

Definition tolower_ascii (c : N) : N :=
  if (N.leb 65 c && N.leb c 90)%N then (c + 32)%N else c.

(** [strcasecmp(word, other) == 0]. *)
Definition strcasecmp (word other : pystr) : bool :=
  bool_decide (tolower_ascii <$> word = tolower_ascii <$> other).

Fixpoint skip (test : N → bool) (p : pystr) : pystr :=
  match p with
  | c :: rest => if test c then skip test rest else p
  | [] => []
  end.

Fixpoint leading (test : N → bool) (p : pystr) : pystr :=
  match p with
  | c :: rest => if test c then c :: leading test rest else []
  | [] => []
  end.

(** The number a run of digits spells. *)
Definition digits_value (digits : pystr) : Z :=
  fold_left (λ acc c, acc * 10 + (Z.of_N c - 48)) digits 0.

Definition MINUS : N := 45%N.
Definition PLUS : N := 43%N.
Definition POINT : N := 46%N.

Definition INT64_MIN : Z := - 2 ^ 63.
Definition INT64_MAX : Z := 2 ^ 63 - 1.
Definition UINT64_MAX : Z := 2 ^ 64 - 1.

Inductive int_error := ERROR_NO_DIGITS | ERROR_OVERFLOW | ERROR_INVALID_CHARS.

(** The word after an optional sign. *)
Definition after_sign (p : pystr) : pystr :=
  match p with
  | c :: rest => if N.eqb c MINUS || N.eqb c PLUS then rest else p
  | [] => []
  end.

(** [str_to_int64]: blanks, a sign or none, digits, blanks.  The overflow
    is found while the digits are read, before what follows them is looked
    at. *)
Definition str_to_int64 (word : pystr) : int_error + Z :=
  let p := skip isspace_ascii word in
  let isneg := match p with c :: _ => N.eqb c MINUS | [] => false end in
  let p := after_sign p in
  match leading isdigit_ascii p with
  | [] => inl ERROR_NO_DIGITS
  | digits =>
      let number := if isneg then - digits_value digits
                    else digits_value digits in
      if bool_decide (INT64_MIN ≤ number ≤ INT64_MAX) then
        match skip isspace_ascii (skip isdigit_ascii p) with
        | [] => inr number
        | _ => inl ERROR_INVALID_CHARS
        end
      else inl ERROR_OVERFLOW
  end.

(** What [str_to_uint64] reports: a number, or a minus sign seen (the rest
    of the word is then not read), or an error. *)
Inductive uint_result := UNumber (z : Z) | USigned | UError (e : int_error).

Definition str_to_uint64 (word : pystr) : uint_result :=
  let p := skip isspace_ascii word in
  match p with
  | c :: rest =>
      if N.eqb c MINUS then USigned
      else
        let p := if N.eqb c PLUS then rest else p in
        match leading isdigit_ascii p with
        | [] => UError ERROR_NO_DIGITS
        | digits =>
            if bool_decide (digits_value digits ≤ UINT64_MAX) then
              match skip isspace_ascii (skip isdigit_ascii p) with
              | [] => UNumber (digits_value digits)
              | _ => UError ERROR_INVALID_CHARS
              end
            else UError ERROR_OVERFLOW
        end
  | [] => UError ERROR_NO_DIGITS
  end.

(** The outcome of an attempt to convert a column. *)
Inductive attempt (A : Type) :=
  | Converted (values : list A)
  | NotThisType
  | OverflowError_
  | ValueError_.
Arguments Converted {A}.
Arguments NotThisType {A}.
Arguments OverflowError_ {A}.
Arguments ValueError_ {A}.

(** [_try_int64]: [None] stands for a missing value.  The first word that
    does not convert ends the attempt. *)
Fixpoint _try_int64 (words : list pystr) : attempt (option Z) :=
  match words with
  | [] => Converted []
  | word :: rest =>
      if is_na word then
        match _try_int64 rest with
        | Converted values => Converted (None :: values)
        | failure => failure
        end
      else
        match str_to_int64 word with
        | inl ERROR_OVERFLOW => OverflowError_
        | inl _ => NotThisType
        | inr z =>
            match _try_int64 rest with
            | Converted values => Converted (Some z :: values)
            | failure => failure
            end
        end
  end.

(** [_try_uint64], tried when [_try_int64] met an overflow.  A missing value
    counts as [0] here.  A column that holds a number above [INT64_MAX]
    together with a minus sign or a missing value cannot be numeric
    ([uint64_conflict]); a minus sign alone is an overflow. *)
Fixpoint _try_uint64_from (words : list pystr)
    (seen_sint seen_uint seen_null : bool) (values : list Z)
  : attempt Z :=
  match words with
  | [] =>
      if seen_uint && (seen_sint || seen_null) then ValueError_
      else if seen_sint then OverflowError_
      else Converted (rev values)
  | word :: rest =>
      if is_na word then
        _try_uint64_from rest seen_sint seen_uint true (0 :: values)
      else
        match str_to_uint64 word with
        | UError ERROR_OVERFLOW => OverflowError_
        | UError _ => NotThisType
        | USigned => _try_uint64_from rest true seen_uint seen_null (0 :: values)
        | UNumber z =>
            _try_uint64_from rest seen_sint
              (seen_uint || bool_decide (INT64_MAX < z)) seen_null (z :: values)
        end
  end.

Definition _try_uint64 (words : list pystr) : attempt Z :=
  _try_uint64_from words false false false [].

Definition LOWER_E : N := 101%N.
Definition UPPER_E : N := 69%N.

(** The largest finite double is [2^1024 - 2^971]; a number from
    [2^1024 - 2^970] on rounds to infinity. *)
Definition rounds_to_infinity (mantissa : Z) (exponent : Z) : bool :=
  if exponent <? 0 then false
  else bool_decide (2 ^ 1024 - 2 ^ 970 ≤ mantissa * 10 ^ exponent).

(** The digits after a point, if the word goes on with one, and what
    follows them. *)
Definition fraction (p : pystr) : pystr * pystr :=
  match p with
  | c :: rest =>
      if N.eqb c POINT then (leading isdigit_ascii rest, skip isdigit_ascii rest)
      else ([], p)
  | [] => ([], [])
  end.

(** The exponent, if the word goes on with [e] or [E], a sign or none and
    digits, of which at most 17 are read; and what follows.  Without a digit
    the letter is not read either. *)
Definition exponent_part (p : pystr) : Z * pystr :=
  match p with
  | c :: rest =>
      if N.eqb c LOWER_E || N.eqb c UPPER_E then
        match take 17 (leading isdigit_ascii (after_sign rest)) with
        | [] => (0, p)
        | digits =>
            (if match rest with c' :: _ => N.eqb c' MINUS | [] => false end
             then - digits_value digits else digits_value digits,
             drop (length digits) (after_sign rest))
        end
      else (0, p)
  | [] => (0, [])
  end.

(** Whether [precise_xstrtod] (the converter of [float_precision=None])
    reads the whole word as a number: blanks, a sign or none, digits with at
    most one point among them (at least one digit), an exponent or none,
    blanks.  Of the digits the first 17 count, the others only scale.  A
    number too large for a double is an error.  The range test is made here
    on the exact value (the C code makes it on the rounded product, and
    reads the exponent into an [int]). *)
Definition precise_xstrtod (word : pystr) : bool :=
  let p := after_sign (skip isspace_ascii word) in
  let int_digits := leading isdigit_ascii p in
  let kept_int := take 17 int_digits in
  let decimals := fraction (skip isdigit_ascii p) in
  let kept_frac := take (17 - length kept_int) decimals.1 in
  let scale := exponent_part decimals.2 in
  let exponent :=
    Z.of_nat (length int_digits - 17) - Z.of_nat (length kept_frac) + scale.1 in
  negb (bool_decide (kept_int ++ kept_frac = []))
  && negb (308 <? exponent)
  && negb (rounds_to_infinity (digits_value (kept_int ++ kept_frac)) exponent)
  && bool_decide (skip isspace_ascii scale.2 = []).

(** The words [_try_double] takes for infinity when the converter fails. *)
Definition is_infinity (word : pystr) : bool :=
  strcasecmp word (str "inf") || strcasecmp word (str "+inf")
  || strcasecmp word (str "infinity") || strcasecmp word (str "+infinity")
  || strcasecmp word (str "-inf") || strcasecmp word (str "-infinity").

Fixpoint _try_double (words : list pystr) : option (list Cell) :=
  match words with
  | [] => Some []
  | word :: rest =>
      if is_na word then cons NaN <$> _try_double rest
      else if precise_xstrtod word || is_infinity word then
        cons (Float64 (OfNumeral word)) <$> _try_double rest
      else None
  end.

(** [to_boolean]. *)
Definition to_boolean (word : pystr) : option bool :=
  if strcasecmp word (str "TRUE") then Some true
  else if strcasecmp word (str "FALSE") then Some false
  else None.

Fixpoint _try_bool_flex (words : list pystr) : option (list Cell) :=
  match words with
  | [] => Some []
  | word :: rest =>
      if is_na word then cons NaN <$> _try_bool_flex rest
      else match to_boolean word with
           | Some b => cons (Bool b) <$> _try_bool_flex rest
           | None => None
           end
  end.

(** [_string_convert]: the words as [str], the missing values as [NaN] when
    they are looked for. *)
Definition _string_convert (na_filter : bool) (words : list pystr) : Series :=
  mkSeries object_
    ((λ word, if na_filter && is_na word then NaN else Str word) <$> words).

(** A converted [int64] column with missing values becomes [float64]
    ([_maybe_upcast]); the missing values were kept as [INT64_MIN], so a
    number equal to it becomes missing too. *)
Definition _maybe_upcast (values : list (option Z)) : Series :=
  if forallb (λ v, bool_decide (is_Some v)) values then
    mkSeries int64 ((λ v, Int (default 0 v)) <$> values)
  else
    mkSeries float64
      ((λ v, match v with
             | Some z => if bool_decide (z = INT64_MIN) then NaN
                         else Float64 (OfInt z)
             | None => NaN
             end) <$> values).

(** The types after [int64], in the order of [dtype_cast_order]. *)
Definition convert_further (words : list pystr) : Series :=
  match _try_double words with
  | Some cells => mkSeries float64 cells
  | None =>
      match _try_bool_flex words with
      | Some cells =>
          mkSeries (if bool_decide (NaN ∈ cells) then object_ else bool_) cells
      | None => _string_convert true words
      end
  end.

(** [_convert_tokens] for the words of one column. *)
Definition _convert_tokens (words : list pystr) : Series :=
  match _try_int64 words with
  | Converted values => _maybe_upcast values
  | NotThisType | ValueError_ => convert_further words
  | OverflowError_ =>
      match _try_uint64 words with
      | Converted values => mkSeries uint64 (Int <$> values)
      | NotThisType => convert_further words
      | OverflowError_ => _string_convert true words
      | ValueError_ => _string_convert false words
      end
  end.

(** *** Chunks of lines

    With [low_memory] on (the default) the lines are converted in chunks of
    [buffer_lines] lines and the columns of the chunks are put together
    ([_concatenate_chunks], through [concat_compat]). *)

Definition buffer_lines (table_width : nat) : N :=
  let heuristic := (2 ^ 20 / N.of_nat table_width)%N in
  N.iter 20 (λ b, if (b * 2 <? heuristic)%N then (b * 2)%N else b) 1%N.

(** The first [size] lines, and the others. *)
Fixpoint split_at (size : N) (rows : list (list pystr))
  : list (list pystr) * list (list pystr) :=
  match rows with
  | [] => ([], [])
  | row :: rest =>
      if (size =? 0)%N then ([], rows)
      else (row :: (split_at (size - 1) rest).1, (split_at (size - 1) rest).2)
  end.

Fixpoint chunks_from (fuel : nat) (size : N) (rows : list (list pystr))
  : list (list (list pystr)) :=
  match fuel, rows with
  | S fuel', _ :: _ =>
      (split_at size rows).1 :: chunks_from fuel' size (split_at size rows).2
  | _, _ => []
  end.

(** The type that holds values of all the given types
    ([find_common_type]): booleans do not mix with numbers, and [int64] and
    [uint64] meet in [float64]. *)
Definition common_dtype (dtypes : list Dtype) : Dtype :=
  match dtypes with
  | [] => object_
  | d :: rest =>
      if forallb (λ d', bool_decide (d' = d)) rest then d
      else if bool_decide (object_ ∈ dtypes) || bool_decide (bool_ ∈ dtypes)
      then object_
      else float64
  end.

(** When every piece is empty numpy decides; it takes a boolean for a
    number. *)
Definition empty_dtype (dtypes : list Dtype) : Dtype :=
  match dtypes with
  | [] => object_
  | d :: rest =>
      if forallb (λ d', bool_decide (d' = d)) rest then d
      else if bool_decide (object_ ∈ dtypes) then object_
      else if bool_decide (bool_ ∈ dtypes) then
        if bool_decide (float64 ∈ dtypes) then object_
        else common_dtype (filter (λ d', d' ≠ bool_) dtypes)
      else float64
  end.

Definition astype (d : Dtype) (cell : Cell) : Cell :=
  match d, cell with
  | float64, Int z => Float64 (OfInt z)
  | _, _ => cell
  end.

(** [concat_compat]: the pieces one after the other in their common type;
    empty pieces have no say in it unless all are empty. *)
Definition concat_compat (pieces : list Series) : Series :=
  match filter (λ piece, cells piece ≠ []) pieces with
  | [] => mkSeries (empty_dtype (dtype <$> pieces)) []
  | non_empties =>
      let d := common_dtype (dtype <$> non_empties) in
      mkSeries d (astype d <$> mjoin (cells <$> non_empties))
  end.

(** The words of column [j] of some lines. *)
Definition column_words (rows : list (list pystr)) (j : nat) : list pystr :=
  (λ row, c_str (default [] (row !! j))) <$> rows.

(** [_convert_column_data] for a chunk of lines, then the chunks put
    together; without lines every column is empty and of type [object]. *)
Definition convert_columns (table_width : nat) (rows : list (list pystr))
  : list Series :=
  match chunks_from (length rows) (buffer_lines table_width) rows with
  | [] => (λ _, mkSeries object_ []) <$> seq 0 table_width
  | chunks =>
      (λ j, concat_compat
              ((λ chunk, _convert_tokens (column_words chunk j)) <$> chunks))
        <$> seq 0 table_width
  end.

(** *** Column names

    [_get_header]: an empty name becomes [Unnamed: i]; a name met before
    gets a counter appended, the named columns first. *)

Fixpoint uint_digits (d : Decimal.uint) : pystr :=
  match d with
  | Decimal.Nil => []
  | Decimal.D0 d => 48%N :: uint_digits d
  | Decimal.D1 d => 49%N :: uint_digits d
  | Decimal.D2 d => 50%N :: uint_digits d
  | Decimal.D3 d => 51%N :: uint_digits d
  | Decimal.D4 d => 52%N :: uint_digits d
  | Decimal.D5 d => 53%N :: uint_digits d
  | Decimal.D6 d => 54%N :: uint_digits d
  | Decimal.D7 d => 55%N :: uint_digits d
  | Decimal.D8 d => 56%N :: uint_digits d
  | Decimal.D9 d => 57%N :: uint_digits d
  end.

(** [str(n)]. *)
Definition decimal (n : nat) : pystr := uint_digits (Nat.to_uint n).

Definition unnamed (i : nat) : pystr := str "Unnamed: " ++ decimal i.

Definition numbered (old_col : pystr) (count : nat) : pystr :=
  old_col ++ [POINT] ++ decimal count.

(** The loop [while cur_count > 0] of the renaming. *)
Fixpoint rename_loop (fuel : nat) (this_header : list pystr)
    (counts : gmap pystr nat) (old_col col : pystr) (cur_count : nat)
  : pystr * nat * gmap pystr nat :=
  match fuel with
  | O => (col, cur_count, counts)
  | S fuel' =>
      if bool_decide (0 < cur_count)%nat then
        let counts := <[old_col := S cur_count]> counts in
        let col := numbered old_col cur_count in
        let cur_count :=
          if bool_decide (col ∈ this_header) then S cur_count
          else default 0%nat (counts !! col) in
        rename_loop fuel' this_header counts old_col col cur_count
      else (col, cur_count, counts)
  end.

Definition rename_column (state : list pystr * gmap pystr nat) (i : nat)
  : list pystr * gmap pystr nat :=
  let this_header := state.1 in
  let col := default [] (this_header !! i) in
  let renamed :=
    rename_loop (length this_header + 2) this_header state.2 col col
      (default 0%nat (state.2 !! col)) in
  (<[i := renamed.1.1]> this_header,
   <[renamed.1.1 := S renamed.1.2]> renamed.2).

Definition _get_header (words : list pystr) : list pystr :=
  let this_header :=
    imap (λ i word, match c_str word with [] => unnamed i | name => name end)
      words in
  let is_unnamed (i : nat) :=
    bool_decide (c_str (default [] (words !! i)) = []) in
  let col_loop_order :=
    filter (λ i, is_unnamed i = false) (seq 0 (length words))
    ++ filter (λ i, is_unnamed i = true) (seq 0 (length words)) in
  (fold_left rename_column col_loop_order (this_header, ∅)).1.

(** *** Frames *)

(** A frame: the column names, the columns of the index (none for the
    default index, which numbers the rows) and the columns of the data. *)
Record DataFrame := mkFrame {
  columns : list pystr;
  index : list Series;
  values : list Series;
}.

#[global] Instance DataFrame_eq_dec : EqDecision DataFrame.
Proof. solve_decision. Defined.

(** The text a [StringIO] hands over is encoded as UTF-8 before it is
    tokenized, which fails on a surrogate.  The first line names the
    columns.  When the first data line has more fields than the header, its
    leading fields are the index. *)
Definition read_csv (text : pystr) : exn + DataFrame :=
  if negb (forallb encodable text) then inl UnicodeEncodeError
  else
    match tokenize_all_rows text with
    | inl e => inl e
    | inr [] => inl EmptyDataError
    | inr (header :: lines) =>
        let field_count :=
          match lines with
          | [] => length header
          | first :: _ => length first
          end in
        let leading_cols := (field_count - length header)%nat in
        let converted := convert_columns field_count lines in
        inr {| columns := _get_header header;
               index := take leading_cols converted;
               values := drop leading_cols converted |}
    end.

(** The frame a header and rows of text stand for: every cell the [str] of
    its field. *)
Definition table (header : list pystr) (rows : list (list pystr)) : DataFrame :=
  {| columns := header; index := [];
     values := (λ j, mkSeries object_
                     ((λ row, Str (default [] (row !! j))) <$> rows))
               <$> seq 0 (length header) |}.

(** [pd.DataFrame()]. *)
Definition DataFrame_empty : DataFrame :=
  {| columns := []; index := []; values := [] |}.

(** The columns of [pd.concat]: those of the first frame, then the new ones
    of each later frame, in order. *)
Definition add_column (acc : list pystr) (c : pystr) : list pystr :=
  if bool_decide (c ∈ acc) then acc else acc ++ [c].

Definition union_columns (dfs : list DataFrame) : list pystr :=
  fold_left add_column (mjoin (columns <$> dfs)) [].

Definition height (df : DataFrame) : nat :=
  match values df with
  | column :: _ => length (cells column)
  | [] => 0
  end.

(** The column [c] of [df]; a frame without it contributes missing
    values. *)
Definition reindex (df : DataFrame) (c : pystr) : Series :=
  match list_find (λ c', c' = c) (columns df) with
  | Some (j, _) => default (mkSeries object_ []) (values df !! j)
  | None => mkSeries float64 (replicate (height df) NaN)
  end.

(** [pd.concat(dfs, ignore_index=True)]: under the union of the columns,
    the rows of the frames one after the other, numbered anew. *)
Definition concat (dfs : list DataFrame) : DataFrame :=
  let cols := union_columns dfs in
  {| columns := cols; index := [];
     values := (λ c, concat_compat ((λ df, reindex df c) <$> dfs)) <$> cols |}.

End Pandas.

(** ** The chunk encoder of [upload_dataset] *)

(** One field: its quote characters doubled, the whole wrapped in quotes. *)
Definition quote_field (field : pystr) : pystr :=
  [QUOTE] ++ replace_quote field ++ [QUOTE].

(** [quoted_row] joined by commas: one line of the chunk. *)
Definition quoted_row (row : list pystr) : pystr :=
  join [COMMA] (quote_field <$> row).

(** [header_str]: the processed header line with its newline. *)
Definition header_str (header : list pystr) : pystr :=
  quoted_row header ++ [LF].

(** [chunk_data = header_str + newline.join(rows)], [rows] being the lines
    already quoted. *)
Definition chunk_data (header_line : pystr) (rows : list pystr) : pystr :=
  header_line ++ join [LF] rows.

(** The payload of a header and a window of rows. *)
Definition encode (header : list pystr) (rows : list (list pystr)) : pystr :=
  chunk_data (header_str header) (quoted_row <$> rows).

(** ** The client *)

(** The parsed result of a query. *)
Record QueryResult := mkQueryResult {
  ids : json;
  distances : json;
  embeddings : json;
  metadatas : json;
  documents : json;
}.

(** What [_get] returns. *)
Record GetResult := mkGetResult {
  got_ids : json;
  got_embeddings : json;
  got_metadatas : json;
  got_documents : json;
}.

(** The arguments [create_cluster] hands to the constructor of [Cluster]
    (the class is declared in [bagel/api/Cluster.py]). *)
Record Cluster := mkCluster {
  cluster_id_ : json;
  cluster_name : json;
  cluster_metadata : json;
  cluster_size : json;
  embedding_size : json;
}.

(** The fields of a [CreateDatasetPayload] and the arguments [create_dataset]
    hands to the constructor of [Dataset] (both declared outside this
    file). *)
Record CreateDatasetPayload := mkPayload {
  title : json;
  category : json;
  tags : json;
  details : json;
}.


Definition BAGEL_USER_ID : pystr := str "BAGEL_USER_ID".
Definition DEFAULT_TENANT : pystr := str "default_tenant".
Definition BAGEL_API_KEY : pystr := str "BAGEL_API_KEY".
Definition X_API_KEY : pystr := str "x-api-key".

Section FastAPI.

(** The transport: what the [i]-th call made in a run answers to a request,
    a response or a failure to get one. *)
Variable net : nat → Request → net_error + Response.
(** [os.environ]. *)
Variable environ : gmap pystr pystr.
(** [bagel.errors.error_types]: error codes to error classes.  The table is
    declared in [bagel/errors.py]; the client only looks codes up in it. *)
Variable error_types : gmap pystr error_class.
(** The text of the file at a path, if it can be opened, and the name the
    opened file reports for [Path(file_path)]. *)
Variable fs : pystr → option pystr.
Variable path_name : pystr → pystr.
(** [self._api_url] and the location of the dict [self.__headers]. *)
Variable _api_url : pystr.
Variable __headers : nat.

(** The pandas interface [load_dataset] uses: [pd.read_csv(StringIO(text),
    on_bad_lines='skip')], [pd.concat(dfs, ignore_index=True)] and
    [pd.DataFrame()]. *)
Context {DataFrame : Type}.
Variable read_csv : pystr → exn + DataFrame.
Variable concat : list DataFrame → DataFrame.
Variable DataFrame_empty : DataFrame.

(** [requests.get] / [requests.post]: the request is logged and answered. *)
Definition requests (r : Request) : M Response :=
  λ w, let w' := mkWorld (sent w ++ [r]) (slept w) (pbar w) (printed w) (heap w) in
       match net (length (sent w)) r with
       | inl e => (inl (RequestException e), w')
       | inr resp => (inr resp, w')
       end.

Definition raise_for_status (resp : Response) : M unit :=
  if ok resp then ret tt else raise (HTTPError (status_code resp)).

Definition resp_json (resp : Response) : M json :=
  match json_body resp with
  | Some body => ret body
  | None => raise JSONDecodeError
  end.

(** [body[key]] for a string key. *)
Definition getitem (body : json) (key : pystr) : M json :=
  match body with
  | JObj members =>
      match dict_get key members with
      | Some v => ret v
      | None => raise (KeyError key)
      end
  | _ => raise TypeError
  end.

(** [body.get(key, None)], reached only after [body[...]] has succeeded. *)
Definition get_or_none (body : json) (key : pystr) : json :=
  match body with
  | JObj members => default JNull (dict_get key members)
  | _ => JNull
  end.

(** [_popuate_headers_with_api_key]: copies the base dict, then writes the
    key into the copy. *)
Definition _popuate_headers_with_api_key (api_key : option pystr) : M nat :=
  headers <- dict_copy __headers ;;
  let api_key :=
    match environ !! BAGEL_API_KEY, api_key with
    | Some key, None => Some key
    | _, _ => api_key
    end in
  dict_setitem headers X_API_KEY api_key ;;;
  ret headers.

(** The error class and message the body of a failed response names, when
    it is a JSON object whose [error] member is a known code and which has
    a [message]; every exception on the way is swallowed. *)
Definition bagel_error_of (resp : Response) : option exn :=
  match json_body resp with
  | Some (JObj members) =>
      match dict_get (str "error") members with
      | Some (JStr code) =>
          match error_types !! code, dict_get (str "message") members with
          | Some cls, Some message => Some (BagelError cls message)
          | _, _ => None
          end
      | _ => None
      end
  | _ => None
  end.

Definition raise_bagel_error (resp : Response) : M unit :=
  if ok resp then ret tt
  else match bagel_error_of resp with
       | Some bagel_error => raise bagel_error
       | None => raise (Exception (text resp))
       end.

(** *** [_query] *)

Definition max_retries : Z := 3.
Definition retry_delay : Z := 1.

Definition query_request (cluster_id : pystr) (payload : json)
    (headers : headers_dict) : Request :=
  {| method := POST;
     url := _api_url ++ str "/clusters/" ++ cluster_id ++ str "/query";
     headers := Some headers; params := []; data := JsonText payload;
     files := [] |}.

(** The [for attempt in range(max_retries)] loop; [resp] is the variable the
    loop assigns, unbound before the first attempt. *)
Fixpoint query_attempts (cluster_id : pystr) (payload : json) (headers : nat)
    (attempts : list Z) (resp : option Response) : M (option Response) :=
  match attempts with
  | [] => ret resp
  | attempt :: rest =>
      h <- dict_read headers ;;
      resp <- requests (query_request cluster_id payload h) ;;
      if ok resp then ret (Some resp)
      else
        (if attempt <? max_retries - 1 then sleep retry_delay else ret tt) ;;;
        query_attempts cluster_id payload headers rest (Some resp)
  end.

Definition query_payload (query_embeddings : json) (n_results : Z)
    (where_ where_document include query_texts : json) : json :=
  JObj [(str "query_embeddings", query_embeddings);
        (str "n_results", JInt n_results);
        (str "where", where_);
        (str "where_document", where_document);
        (str "include", include);
        (str "query_texts", query_texts)].

(** What [_query] does with the response the loop leaves. *)
Definition query_result (resp : Response) : M QueryResult :=
  raise_bagel_error resp ;;;
  body <- resp_json resp ;;
  ids <- getitem body (str "ids") ;;
  ret {| ids := ids;
         distances := get_or_none body (str "distances");
         embeddings := get_or_none body (str "embeddings");
         metadatas := get_or_none body (str "metadatas");
         documents := get_or_none body (str "documents") |}.

Definition _query (cluster_id : pystr) (query_embeddings : json)
    (n_results : Z) (where_ where_document include query_texts : json)
    (api_key : option pystr) : M QueryResult :=
  headers <- _popuate_headers_with_api_key api_key ;;
  resp <- query_attempts cluster_id
            (query_payload query_embeddings n_results where_ where_document
               include query_texts)
            headers (seqZ 0 max_retries) None ;;
  match resp with
  | None => raise UnboundLocalError
  | Some resp => query_result resp
  end.

(** *** [load_dataset] *)

Definition info_request (dataset_id : pystr) : Request :=
  {| method := GET; url := _api_url ++ str "/dataset-info/";
     headers := None; params := [(str "dataset_id", JStr dataset_id)];
     data := NoBody; files := [] |}.

Definition chunk_request (dataset_id : pystr) (chunk_number : Z) : Request :=
  {| method := GET; url := _api_url ++ str "/download-dataset/";
     headers := None;
     params := [(str "dataset_id", JStr dataset_id);
                (str "chunk_number", JInt chunk_number)];
     data := NoBody; files := [] |}.

(** The integer [range] takes from [total_chunks + 1]. *)
Definition as_int (v : json) : M Z :=
  match v with
  | JInt k => ret k
  | JBool b => ret (Z.b2z b)
  | _ => raise TypeError
  end.

(** The download loop; [dfs] is the list the loop appends to. *)
Fixpoint download_chunks (dataset_id : pystr) (chunk_numbers : list Z)
    (dfs : list DataFrame) : M (list DataFrame) :=
  match chunk_numbers with
  | [] => ret dfs
  | chunk_number :: rest =>
      response <- requests (chunk_request dataset_id chunk_number) ;;
      raise_for_status response ;;;
      match read_csv (text response) with
      | inl e => raise e
      | inr df => download_chunks dataset_id rest (dfs ++ [df])
      end
  end.

Definition load_dataset (dataset_id : pystr) : M DataFrame :=
  headers <- _popuate_headers_with_api_key None ;;
  info_response <- requests (info_request dataset_id) ;;
  raise_for_status info_response ;;;
  info <- resp_json info_response ;;
  total_chunks <- getitem info (str "total_chunks") ;;
  total_chunks <- as_int total_chunks ;;
  dfs <- download_chunks dataset_id (seqZ 1 total_chunks) [] ;;
  ret (match dfs with [] => DataFrame_empty | _ => concat dfs end).

(** *** [upload_dataset] *)

Definition upload_request (chunk : pystr) (chunk_number : Z)
    (file_name dataset_id : pystr) : Request :=
  {| method := POST; url := _api_url ++ str "/upload-dataset";
     headers := None; params := [];
     data := Form [(str "dataset_id", JStr dataset_id);
                   (str "chunk_number", JInt chunk_number)];
     files := [(str "data_file", (file_name, chunk))] |}.

Definition _upload_chunk (chunk : pystr) (chunk_number : Z)
    (file_name dataset_id : pystr) : M unit :=
  response <- requests (upload_request chunk chunk_number file_name dataset_id) ;;
  if status_code response =? 200 then
    pbar_update (Z.of_nat (length (splitlines chunk)) - 1)
  else print (ChunkFailed chunk_number (status_code response)).

(** The [for row in reader] loop over the records the reader yields; [rows]
    and [chunk_number] are the loop's variables, returned as the loop leaves
    them. *)
Fixpoint upload_rows (header_line file_name dataset_id : pystr)
    (rows_per_chunk : Z) (records : list (list pystr))
    (rows : list pystr) (chunk_number : Z) : M (list pystr * Z) :=
  match records with
  | [] => ret (rows, chunk_number)
  | row :: rest =>
      let rows := rows ++ [quoted_row row] in
      if Z.of_nat (length rows) =? rows_per_chunk then
        let chunk_number := chunk_number + 1 in
        _upload_chunk (chunk_data header_line rows) chunk_number file_name
          dataset_id ;;;
        upload_rows header_line file_name dataset_id rows_per_chunk rest []
          chunk_number
      else
        upload_rows header_line file_name dataset_id rows_per_chunk rest rows
          chunk_number
  end.

Definition open_read (file_path : pystr) : M pystr :=
  match fs file_path with
  | Some content => ret content
  | None => raise FileNotFoundError
  end.

Definition upload_dataset (file_path dataset_id file_name : pystr)
    (rows_per_chunk : Z) : M unit :=
  content <- open_read file_path ;;
  let total_rows := Z.of_nat (length (file_lines content)) - 1 in
  tqdm_new total_rows ;;;
  content <- open_read file_path ;;
  let '(records, err) := Csv.reader (file_lines content) in
  let file_name := path_name file_path in
  match records, err with
  | [], None => raise StopIteration
  | [], Some e => raise (CsvError e)
  | header :: records, _ =>
      let header_line := header_str header in
      leftover <-
        upload_rows header_line file_name dataset_id rows_per_chunk records
          [] 0 ;;
      match err with Some e => raise (CsvError e) | None => ret tt end ;;;
      match leftover.1 with
      | [] => ret tt
      | rows => _upload_chunk (chunk_data header_line rows) (leftover.2 + 1)
                  file_name dataset_id
      end ;;;
      pbar_close ;;;
      print UploadCompleted
  end.

(** *** Credentials taken from the environment *)

(** [_extract_user_id_and_api_key]: the environment's user id stands in for
    the default tenant, the environment's key for a missing key. *)
Definition _extract_user_id_and_api_key (api_key : option pystr)
    (user_id : pystr) : option pystr * pystr :=
  let user_id :=
    match environ !! BAGEL_USER_ID with
    | Some env_user =>
        if bool_decide (user_id = DEFAULT_TENANT) then env_user else user_id
    | None => user_id
    end in
  let api_key :=
    match environ !! BAGEL_API_KEY, api_key with
    | Some key, None => Some key
    | _, _ => api_key
    end in
  (api_key, user_id).

Definition _extract_headers_with_key_and_user_id (api_key : option pystr)
    (user_id : pystr) : M (nat * pystr) :=
  let resolved := _extract_user_id_and_api_key api_key user_id in
  headers <- _popuate_headers_with_api_key resolved.1 ;;
  ret (headers, resolved.2).

(** [populate_headers_with_api_key], the variant without an argument: the
    local [api_key] is assigned only when the variable is set, and read in
    any case. *)
Definition populate_headers_with_api_key : M nat :=
  headers <- dict_copy __headers ;;
  match environ !! BAGEL_API_KEY with
  | Some key => dict_setitem headers X_API_KEY (Some key) ;;; ret headers
  | None => raise UnboundLocalError
  end.

(** *** Clusters and embeddings *)

(** An optional integer as JSON, and its truth value in a condition. *)
Definition opt_int (o : option Z) : json :=
  match o with Some k => JInt k | None => JNull end.

Definition truthy (o : option Z) : bool :=
  match o with Some k => negb (k =? 0) | None => false end.

Definition post_json (path : pystr) (headers : option headers_dict)
    (document : json) : Request :=
  {| method := POST; url := _api_url ++ path; headers := headers;
     params := []; data := JsonText document; files := [] |}.

Definition create_cluster (name : pystr) (metadata : json)
    (get_or_create : bool) (user_id : pystr) (api_key : option pystr)
    (embedding_model dimension : json) : M Cluster :=
  found <- _extract_headers_with_key_and_user_id api_key user_id ;;
  h <- dict_read found.1 ;;
  resp <- requests
            (post_json (str "/clusters") (Some h)
               (JObj [(str "name", JStr name);
                      (str "metadata", metadata);
                      (str "get_or_create", JBool get_or_create);
                      (str "user_id", JStr found.2);
                      (str "embedding_model", embedding_model);
                      (str "dimensions", dimension)])) ;;
  raise_bagel_error resp ;;;
  resp_json <- resp_json resp ;;
  id <- getitem resp_json (str "id") ;;
  name <- getitem resp_json (str "name") ;;
  metadata <- getitem resp_json (str "metadata") ;;
  size <- getitem resp_json (str "cluster_size") ;;
  dim <- getitem resp_json (str "embedding_size") ;;
  ret {| cluster_id_ := id; cluster_name := name; cluster_metadata := metadata;
         cluster_size := size; embedding_size := dim |}.

Definition get_or_create_cluster (name : pystr) (metadata : json)
    (user_id : pystr) (api_key : option pystr)
    (embedding_model dimension : json) : M Cluster :=
  create_cluster name metadata true DEFAULT_TENANT api_key embedding_model
    dimension.

Definition _get (cluster_id : pystr) (ids where_ sort : json)
    (limit offset page page_size : option Z) (where_document include : json)
    (api_key : option pystr) : M GetResult :=
  headers <- _popuate_headers_with_api_key api_key ;;
  let paged := truthy page && truthy page_size in
  let offset :=
    match page, page_size with
    | Some p, Some size => if paged then Some ((p - 1) * size) else offset
    | _, _ => offset
    end in
  let limit := if paged then page_size else limit in
  h <- dict_read headers ;;
  resp <- requests
            (post_json (str "/clusters/" ++ cluster_id ++ str "/get") (Some h)
               (JObj [(str "ids", ids);
                      (str "where", where_);
                      (str "sort", sort);
                      (str "limit", opt_int limit);
                      (str "offset", opt_int offset);
                      (str "where_document", where_document);
                      (str "include", include)])) ;;
  raise_bagel_error resp ;;;
  body <- resp_json resp ;;
  ids <- getitem body (str "ids") ;;
  ret {| got_ids := ids;
         got_embeddings := get_or_none body (str "embeddings");
         got_metadatas := get_or_none body (str "metadatas");
         got_documents := get_or_none body (str "documents") |}.


Definition _delete (cluster_id : pystr) (ids where_ where_document : json)
    (api_key : option pystr) : M json :=
  resp <- requests
            (post_json (str "/clusters/" ++ cluster_id ++ str "/delete") None
               (JObj [(str "where", where_);
                      (str "ids", ids);
                      (str "where_document", where_document)])) ;;
  raise_bagel_error resp ;;;
  resp_json resp.



Definition _upsert (cluster_id : pystr)
    (ids embeddings metadatas documents : json) (increment_index : bool)
    (api_key : option pystr) : M bool :=
  h <- dict_read __headers ;;
  resp <- requests
            (post_json (str "/clusters/" ++ cluster_id ++ str "/upsert")
               (Some h)
               (JObj [(str "ids", ids);
                      (str "embeddings", embeddings);
                      (str "metadatas", metadatas);
                      (str "documents", documents);
                      (str "increment_index", JBool increment_index)])) ;;
  raise_for_status resp ;;;
  ret true.

(** *** Datasets *)



End FastAPI.


(** A transport that answers every request. *)
Definition answering (respond : nat → Request → Response)
  : nat → Request → net_error + Response :=
  λ i r, inr (respond i r).

(** The key [_popuate_headers_with_api_key] writes: the argument, or the
    environment's key when the argument is [None] and the variable is set. *)
Definition effective_key (environ : gmap pystr pystr) (api_key : option pystr)
  : option pystr :=
  match environ !! BAGEL_API_KEY, api_key with
  | Some key, None => Some key
  | _, _ => api_key
  end.

(** The error [raise_bagel_error] raises for a response that is not ok: the
    typed error its body names, or a generic one carrying the raw text. *)
Definition translated_error (error_types : gmap pystr error_class)
    (resp : Response) : exn :=
  match bagel_error_of error_types resp with
  | Some bagel_error => bagel_error
  | None => Exception (text resp)
  end.

(** Whether a call of the transport succeeded: a response arrived and it is
    [ok] (the test of [raise_for_status]). *)
Definition succeeded (answer : net_error + Response) : bool :=
  match answer with
  | inl _ => false
  | inr resp => ok resp
  end.

(** The world after [request] has been added to the log of requests. *)
Definition logged (reqs : list Request) (w : World) : World :=
  mkWorld (sent w ++ reqs) (slept w) (pbar w) (printed w) (heap w).

(** The windows the loop of [upload_dataset] cuts the records into, told
    apart from the requests: the windows sent inside the loop, and the rows
    left in the buffer when the records run out.  [buffer] holds the rows
    read since the last window. *)
Fixpoint windows_from (rows_per_chunk : Z) (records : list (list pystr))
    (buffer : list (list pystr))
  : list (list (list pystr)) * list (list pystr) :=
  match records with
  | [] => ([], buffer)
  | row :: rest =>
      let buffer := buffer ++ [row] in
      if Z.of_nat (length buffer) =? rows_per_chunk then
        (buffer :: (windows_from rows_per_chunk rest []).1,
         (windows_from rows_per_chunk rest []).2)
      else windows_from rows_per_chunk rest buffer
  end.

(** All windows of a file: those of the loop, then the rows left over, if
    any. *)
Definition windows (rows_per_chunk : Z) (records : list (list pystr))
  : list (list (list pystr)) :=
  (windows_from rows_per_chunk records []).1 ++
  match (windows_from rows_per_chunk records []).2 with
  | [] => []
  | leftover => [leftover]
  end.

(** The requests that carry the windows [wins], numbered from [first]. *)
Definition chunk_requests (_api_url : pystr) (header : list pystr)
    (file_name dataset_id : pystr) (first : Z)
    (wins : list (list (list pystr))) : list Request :=
  imap (λ i win, upload_request _api_url (encode header win)
                   (first + Z.of_nat i) file_name dataset_id) wins.

(** A line of the file that is a whole record by itself: read from a fresh
    reader it leaves no quoted field open (and raises no error). *)
Definition line_complete (line : pystr) : bool :=
  match Csv.parse_chars Csv.parse_reset line with
  | inr self => bool_decide (Csv.state self = Csv.START_RECORD)
  | inl _ => false
  end.

(** The record such a line holds. *)
Definition line_record (line : pystr) : list pystr :=
  match Csv.parse_chars Csv.parse_reset line with
  | inr self => Csv.record self
  | inl _ => []
  end.

(** The world after one chunk has been submitted and answered. *)
Definition chunk_answered (req : Request) (chunk : pystr) (chunk_number : Z)
    (resp : Response) (w : World) : World :=
  if status_code resp =? 200 then
    mkWorld (sent w ++ [req]) (slept w)
      (mkTqdm (total (pbar w))
         (n (pbar w) + (Z.of_nat (length (splitlines chunk)) - 1))
         (closed (pbar w)))
      (printed w) (heap w)
  else
    mkWorld (sent w ++ [req]) (slept w) (pbar w)
      (printed w ++ [ChunkFailed chunk_number (status_code resp)]) (heap w).

(** What a run leaves fixed whatever the transport answers. *)
Definition same_frame (w w' : World) : Prop :=
  slept w' = slept w ∧ heap w' = heap w ∧ total (pbar w') = total (pbar w).

(** The tokenizer at the start of a record with the lines [accepted] kept. *)
Definition at_start (accepted : list (list pystr)) : Pandas.parser_t :=
  {| Pandas.state := Pandas.START_RECORD; Pandas.stream := [];
     Pandas.line := []; Pandas.lines := accepted; Pandas.blanks := [] |}.

(** The tokenizer just after the closing quote of the field [last], with the
    fields [tokens] of the same line before it. *)
Definition pending (accepted : list (list pystr)) (tokens : list pystr)
    (last : pystr) : Pandas.parser_t :=
  {| Pandas.state := Pandas.QUOTE_IN_QUOTED_FIELD; Pandas.stream := rev last;
     Pandas.line := rev tokens; Pandas.lines := accepted;
     Pandas.blanks := [] |}.

(** A line as the iteration of a file yields it, without a quote character:
    a text free of quotes and line ends that is shorter than the field limit
    of the reader, followed by its line end, if it has one. *)
Definition plain_line (line : pystr) : Prop :=
  ∃ body ending,
    line = body ++ ending
    ∧ Forall (λ c, c ≠ QUOTE ∧ c ≠ LF ∧ c ≠ CR) body
    ∧ (N.of_nat (length body) < Csv.field_limit)%N
    ∧ (ending = [] ∨ ending = [LF] ∨ ending = [CR] ∨ ending = [CR; LF]).

(** A text [str.splitlines] does not cut. *)
Definition one_line (s : pystr) : Prop :=
  Forall (λ c, is_linebreak c = false) s.


(** A character that can stand in a numeral: a digit, a sign, the point,
    the letter of the exponent, or a blank around it. *)
Definition number_char (c : N) : bool :=
  Pandas.isdigit_ascii c || Pandas.isspace_ascii c
  || N.eqb c Pandas.PLUS || N.eqb c Pandas.MINUS || N.eqb c Pandas.POINT
  || N.eqb c Pandas.LOWER_E || N.eqb c Pandas.UPPER_E.

(** A field that pandas keeps as the text it is: it holds no NUL, it holds
    a character that cannot stand in a numeral, it is none of the words
    read as a missing value, as infinity or as a boolean, and UTF-8 encodes
    it. *)
Definition is_plain_text (field : pystr) : bool :=
  forallb (λ c, negb (N.eqb c 0)) field
  && existsb (λ c, negb (number_char c)) field
  && negb (Pandas.is_na field)
  && negb (Pandas.is_infinity field)
  && negb (bool_decide (is_Some (Pandas.to_boolean field)))
  && forallb encodable field.

Definition plain_text (field : pystr) : Prop := is_plain_text field = true.

(** A column name that pandas keeps: not empty, without NUL, and encoded by
    UTF-8. *)
Definition column_name (name : pystr) : Prop :=
  name ≠ [] ∧ Forall (λ c, c ≠ 0%N ∧ encodable c = true) name.

(** A word with a character that cannot stand in a numeral. *)
Definition not_a_numeral (p : pystr) : Prop :=
  ∃ c, c ∈ p ∧ number_char c = false.


(** The world after the windows [wins] have been submitted in order,
    numbered from [first], under a transport that answers. *)
Fixpoint windows_answered (respond : nat → Request → Response)
    (_api_url : pystr) (header : list pystr) (file_name dataset_id : pystr)
    (first : Z) (wins : list (list (list pystr))) (w : World) : World :=
  match wins with
  | [] => w
  | win :: rest =>
      let req := upload_request _api_url (encode header win) first file_name
                   dataset_id in
      windows_answered respond _api_url header file_name dataset_id (first + 1)
        rest
        (chunk_answered req (encode header win) first
           (respond (length (sent w)) req) w)
  end.

(** The world [upload_dataset] leaves when it returns from [w]: the bar
    closed and the completion announced. *)
Definition upload_finished (w : World) : World :=
  mkWorld (sent w) (slept w) (mkTqdm (total (pbar w)) (n (pbar w)) true)
    (printed w ++ [UploadCompleted]) (heap w).

(** The world in which [upload_dataset] starts to read the records: the bar
    created for [total_rows] rows. *)
Definition upload_started (total_rows : Z) (w : World) : World :=
  mkWorld (sent w) (slept w) (mkTqdm total_rows 0 false) (printed w) (heap w).

(** ** Concrete data for the examples *)

Module Example.

Definition api_url : pystr := str "http://localhost:8000/api/v1".

(** The header dict of a fresh client, and a world that holds it at
    location 0 and nothing else. *)
Definition base_headers : headers_dict :=
  {[ str "bagel_source" := Some (str "unknown") ]}.

Definition world0 : World :=
  mkWorld [] [] (mkTqdm 0 0 false) [] [base_headers].

(** A response with a status code and an empty body. *)
Definition status (code : Z) : Response := mkResponse code [] None.

(** A transport that answers every request with status 200. *)
Definition all_ok : nat → Request → Response := λ _ _, status 200.

(** A file of three data rows: the lines a, x, y, z. *)
Definition three_rows : pystr :=
  str "a" ++ [LF] ++ str "x" ++ [LF] ++ str "y" ++ [LF] ++ str "z" ++ [LF].

(** A file whose one quoted field runs over two lines, followed by an empty
    line: the lines a, (quote)x, y(quote), and an empty one. *)
Definition two_line_field : pystr :=
  str "a" ++ [LF; QUOTE] ++ str "x" ++ [LF] ++ str "y" ++ [QUOTE; LF; LF].

(** A file of one data row whose quoted field runs over two lines: the
    lines a, (quote)x, y(quote). *)
Definition quoted_line_break : pystr :=
  str "a" ++ [LF; QUOTE] ++ str "x" ++ [LF] ++ str "y" ++ [QUOTE; LF].

(** A query transport: two failures, then a result. *)
Definition found : Response :=
  mkResponse 200 [] (Some (JObj [(str "ids", JArr [JArr [JStr (str "id1")]])])).

Definition flaky : nat → Request → net_error + Response :=
  λ i _, match i with
         | 0%nat | 1%nat => inr (status 503)
         | _ => inr found
         end.

(** A download transport: the metadata call reports two chunks, the chunk
    calls return the payloads of one row each. *)
Definition info_two : Response :=
  mkResponse 200 [] (Some (JObj [(str "total_chunks", JInt 2)])).

Definition chunk_of (chunk_number : Z) : Response :=
  mkResponse 200
    (encode [str "a"] [[if chunk_number =? 1 then str "x" else str "y"]])
    None.


(** The same, with the second chunk call answered by status 500. *)
Definition second_chunk_fails : nat → Request → net_error + Response :=
  λ i _, match i with
         | 0%nat => inr info_two
         | 1%nat => inr (chunk_of 1)
         | _ => inr (status 500)
         end.

(** A file that holds a header and no row: the line a. *)
Definition header_only : pystr := str "a" ++ [LF].

(** A transport on which no request gets an answer. *)
Definition unreachable : nat → Request → net_error + Response :=
  λ _ _, inl ConnectionFailed.

(** A transport that answers the first request and loses the second. *)
Definition drops_second : nat → Request → net_error + Response :=
  λ i _, match i with
         | 0%nat => inr (status 200)
         | _ => inl TimedOut
         end.

(** A transport that answers the first request with status 503 and loses
    the second. *)
Definition fails_then_drops : nat → Request → net_error + Response :=
  λ i _, match i with
         | 0%nat => inr (status 503)
         | _ => inl TimedOut
         end.

(** An environment that sets the API key and nothing else. *)
Definition env_with_key : gmap pystr pystr :=
  {[ BAGEL_API_KEY := str "env-key" ]}.


Definition payload : CreateDatasetPayload :=
  mkPayload (JStr (str "title")) (JStr (str "cat")) (JArr []) (JStr []).

(** A server that has received the three rows of [three_rows] in windows of
    two: the third request it sees is the metadata call, the next two are
    the calls for the chunks, answered with what was uploaded. *)
Definition stored (chunk_number : Z) : Response :=
  mkResponse 200
    (encode [str "a"]
       (if chunk_number =? 1 then [[str "x"]; [str "y"]] else [[str "z"]]))
    None.

Definition after_upload : nat → Request → net_error + Response :=
  λ i _, match i with
         | 2%nat => inr info_two
         | 3%nat => inr (stored 1)
         | _ => inr (stored 2)
         end.

End Example.

(** * Properties *)

(** ** The header helper *)

Section Headers.

Variable environ : gmap pystr pystr.
Variable __headers : nat.

Lemma populate_headers_run (api_key : option pystr) (w : World) base :
  heap w !! __headers = Some base →
  _popuate_headers_with_api_key environ __headers api_key w =
    (inr (length (heap w)),
     mkWorld (sent w) (slept w) (pbar w) (printed w)
       (heap w ++ [<[X_API_KEY := effective_key environ api_key]> base])).
Proof.
  intros Hbase.
  unfold _popuate_headers_with_api_key, bind, dict_copy, dict_setitem, ret.
  rewrite Hbase. cbn [heap].
  rewrite lookup_app_r by lia. rewrite Nat.sub_diag. cbn [lookup list_lookup].
  f_equal. f_equal.
  rewrite insert_app_r_alt by lia. rewrite Nat.sub_diag. reflexivity.
Qed.

Lemma populate_headers_missing (api_key : option pystr) (w : World) :
  heap w !! __headers = None →
  _popuate_headers_with_api_key environ __headers api_key w =
    (inl AttributeError, w).
Proof.
  intros Hnone.
  unfold _popuate_headers_with_api_key, bind, dict_copy.
  by rewrite Hnone.
Qed.

(** C10.  A call of [_popuate_headers_with_api_key] leaves the dict object
    [self.__headers] as it was: the entry for the key goes into a fresh copy
    at a new location.  Hence a later call, whatever key the earlier one
    wrote, again returns the base entries plus its own key only. *)
Theorem populate_headers_keeps_base (api_key later_key : option pystr)
    (w : World) (base : headers_dict) :
  heap w !! __headers = Some base →
  ∃ (copy : nat) (w' : World),
    _popuate_headers_with_api_key environ __headers api_key w = (inr copy, w')
    ∧ heap w' !! __headers = Some base
    ∧ copy ≠ __headers
    ∧ heap w' !! copy = Some (<[X_API_KEY := effective_key environ api_key]> base)
    ∧ (∀ loc d, heap w !! loc = Some d → heap w' !! loc = Some d)
    ∧ ∃ (copy2 : nat) (w'' : World),
        _popuate_headers_with_api_key environ __headers later_key w'
          = (inr copy2, w'')
        ∧ heap w'' !! __headers = Some base
        ∧ heap w'' !! copy2
          = Some (<[X_API_KEY := effective_key environ later_key]> base).
Proof.
  intros Hbase.
  pose proof (lookup_lt_Some _ _ _ Hbase) as Hlt.
  eexists _, _. split; [by apply populate_headers_run|]. cbn [heap].
  assert (Hkeep : ∀ (extra : list headers_dict) loc d,
            heap w !! loc = Some d → (heap w ++ extra) !! loc = Some d).
  { intros extra loc d Hd. by apply lookup_app_l_Some. }
  split; [by apply Hkeep|].
  split; [lia|].
  split; [by rewrite lookup_app_r, Nat.sub_diag by lia|].
  split; [by intros; apply Hkeep|].
  eexists _, _. split.
  { apply populate_headers_run. cbn [heap]. by apply Hkeep. }
  cbn [heap]. split.
  - rewrite <- app_assoc. by apply Hkeep.
  - by rewrite lookup_app_r, Nat.sub_diag by lia.
Qed.

End Headers.

(** ** The retrying query call *)

Section Query.

Variable net : nat → Request → net_error + Response.
Variable environ : gmap pystr pystr.
Variable error_types : gmap pystr error_class.
Variable _api_url : pystr.
Variable __headers : nat.

Variables (cluster_id : pystr) (payload : json).

Lemma raise_bagel_error_ok resp w :
  ok resp = true → raise_bagel_error error_types resp w = (inr tt, w).
Proof. intros Hok. unfold raise_bagel_error. by rewrite Hok. Qed.

Lemma raise_bagel_error_failed resp w :
  ok resp = false →
  raise_bagel_error error_types resp w = (inl (translated_error error_types resp), w).
Proof.
  intros Hok. unfold raise_bagel_error, translated_error. rewrite Hok.
  by destruct (bagel_error_of error_types resp).
Qed.

(** One turn of the retry loop whose response is a failure: the request is
    logged, the delay is slept unless this was the last attempt allowed, and
    the loop goes on with the response kept. *)
Lemma query_attempt_failed attempt rest resp0 w headers h r :
  heap w !! headers = Some h →
  net (length (sent w)) (query_request _api_url cluster_id payload h) = inr r →
  ok r = false →
  query_attempts net _api_url cluster_id payload headers (attempt :: rest) resp0 w =
  query_attempts net _api_url cluster_id payload headers rest (Some r)
    (mkWorld (sent w ++ [query_request _api_url cluster_id payload h])
       (slept w ++ (if attempt <? max_retries - 1 then [retry_delay] else []))
       (pbar w) (printed w) (heap w)).
Proof.
  intros Hh Hnet Hok. destruct w as [s sl pb pr hp]. cbn in Hh, Hnet.
  cbn [query_attempts]. unfold bind, dict_read, requests. cbn [heap sent].
  rewrite Hh. cbn [heap sent slept pbar printed]. rewrite Hnet, Hok.
  destruct (attempt <? max_retries - 1); cbn; [reflexivity|].
  by rewrite app_nil_r.
Qed.

(** One turn whose response is ok ends the loop. *)
Lemma query_attempt_ok attempt rest resp0 w headers h r :
  heap w !! headers = Some h →
  net (length (sent w)) (query_request _api_url cluster_id payload h) = inr r →
  ok r = true →
  query_attempts net _api_url cluster_id payload headers (attempt :: rest) resp0 w =
  (inr (Some r),
   mkWorld (sent w ++ [query_request _api_url cluster_id payload h])
     (slept w) (pbar w) (printed w) (heap w)).
Proof.
  intros Hh Hnet Hok. destruct w as [s sl pb pr hp]. cbn in Hh, Hnet.
  cbn [query_attempts]. unfold bind, dict_read, requests. cbn [heap sent].
  rewrite Hh. cbn [heap sent slept pbar printed]. by rewrite Hnet, Hok.
Qed.

End Query.

Section QueryRetry.

Variable net : nat → Request → net_error + Response.
Variable environ : gmap pystr pystr.
Variable error_types : gmap pystr error_class.
Variable _api_url : pystr.
Variable __headers : nat.

Variables (cluster_id : pystr) (query_embeddings : json) (n_results : Z).
Variables (where_ where_document include query_texts : json).
Variable api_key : option pystr.

(** C4.  When the first two responses to the query are failures, [_query]
    sends the request exactly three times and sleeps exactly twice, each
    time for [retry_delay]; what it returns or raises is decided by the third
    response alone.  If the third response is ok and carries a JSON object
    with [ids], the parsed result is returned; if it is a failure too, the
    error raised is the translation of the third response. *)
Theorem query_retry_bound (w : World) (base : headers_dict) (r1 r2 r3 : Response) :
  let payload := query_payload query_embeddings n_results where_
                   where_document include query_texts in
  let sent_headers := <[X_API_KEY := effective_key environ api_key]> base in
  let req := query_request _api_url cluster_id payload sent_headers in
  let w3 := mkWorld (sent w ++ [req; req; req])
              (slept w ++ [retry_delay; retry_delay]) (pbar w) (printed w)
              (heap w ++ [sent_headers]) in
  let run := _query net environ error_types _api_url __headers cluster_id
               query_embeddings n_results where_ where_document include
               query_texts api_key w in
  heap w !! __headers = Some base →
  net (length (sent w)) req = inr r1 →
  net (S (length (sent w))) req = inr r2 →
  net (S (S (length (sent w)))) req = inr r3 →
  ok r1 = false → ok r2 = false →
  run = query_result error_types r3 w3
  ∧ (ok r3 = true →
     ∀ members found, json_body r3 = Some (JObj members) →
       dict_get (str "ids") members = Some found →
       run = (inr {| ids := found;
                     distances := default JNull (dict_get (str "distances") members);
                     embeddings := default JNull (dict_get (str "embeddings") members);
                     metadatas := default JNull (dict_get (str "metadatas") members);
                     documents := default JNull (dict_get (str "documents") members) |},
              w3))
  ∧ (ok r3 = false → run = (inl (translated_error error_types r3), w3)).
Proof.
  intros payload sent_headers req w3 run Hbase H1 H2 H3 Hf1 Hf2.
  assert (Hrun : run = query_result error_types r3 w3).
  { subst run. unfold _query. unfold bind at 1.
    rewrite (populate_headers_run environ __headers api_key w base Hbase).
    fold sent_headers. fold payload. unfold bind at 1.
    change (seqZ 0 max_retries) with [0; 1; 2].
    assert (Hh : ∀ s sl, heap (mkWorld s sl (pbar w) (printed w)
                                 (heap w ++ [sent_headers]))
                         !! length (heap w) = Some sent_headers).
    { intros. cbn [heap]. by rewrite lookup_app_r, Nat.sub_diag by lia. }
    rewrite (query_attempt_failed net _api_url cluster_id payload 0 _ _ _ _
               sent_headers r1); [|apply Hh|exact H1|exact Hf1].
    cbn [sent slept pbar printed heap].
    rewrite (query_attempt_failed net _api_url cluster_id payload 1 _ _ _ _
               sent_headers r2);
      [|apply Hh|cbn [sent]; rewrite length_app, Nat.add_1_r; exact H2|exact Hf2].
    cbn [sent slept pbar printed heap].
    change (0 <? max_retries - 1) with true. change (1 <? max_retries - 1) with true.
    cbv iota. rewrite <- !app_assoc. cbn [app].
    destruct (ok r3) eqn:Hok3.
    - rewrite (query_attempt_ok net _api_url cluster_id payload 2 _ _ _ _
                 sent_headers r3);
        [|apply Hh|cbn [sent]; rewrite length_app, Nat.add_comm; exact H3|exact Hok3].
      cbn [sent slept pbar printed heap]. rewrite <- !app_assoc. reflexivity.
    - rewrite (query_attempt_failed net _api_url cluster_id payload 2 _ _ _ _
                 sent_headers r3);
        [|apply Hh|cbn [sent]; rewrite length_app, Nat.add_comm; exact H3|exact Hok3].
      cbn [sent slept pbar printed heap query_attempts].
      change (2 <? max_retries - 1) with false. cbv iota.
      rewrite <- !app_assoc, app_nil_r. reflexivity. }
  split; [exact Hrun|]. split.
  - intros Hok members found Hbody Hids. rewrite Hrun.
    unfold query_result, bind. rewrite raise_bagel_error_ok by done.
    unfold resp_json. rewrite Hbody. unfold ret at 1. unfold getitem.
    rewrite Hids. reflexivity.
  - intros Hok. rewrite Hrun. unfold query_result, bind.
    by rewrite raise_bagel_error_failed.
Qed.

End QueryRetry.

(** ** The download pipeline *)

Section Download.

Variable net : nat → Request → net_error + Response.
Variable environ : gmap pystr pystr.
Variable _api_url : pystr.
Variable __headers : nat.
Context {DataFrame : Type}.
Variable read_csv : pystr → exn + DataFrame.
Variable concat : list DataFrame → DataFrame.
Variable DataFrame_empty : DataFrame.
Variable dataset_id : pystr.

Lemma logged_nil w : logged [] w = w.
Proof. destruct w. unfold logged. cbn. by rewrite app_nil_r. Qed.

Lemma logged_logged reqs1 reqs2 w :
  logged reqs2 (logged reqs1 w) = logged (reqs1 ++ reqs2) w.
Proof. unfold logged. cbn. by rewrite app_assoc. Qed.

Lemma requests_run r w :
  requests net r w =
    (match net (length (sent w)) r with
     | inl e => inl (RequestException e)
     | inr resp => inr resp
     end, logged [r] w).
Proof. unfold requests, logged. by destruct (net _ r). Qed.

(** When every chunk asked for arrives, is ok and parses, the loop asks for
    all of them in the order of the list and appends the frames in that
    order. *)
Lemma download_chunks_all (resp : Z → Response) (frag : Z → DataFrame) :
  ∀ (chunk_numbers : list Z) (dfs : list DataFrame) (w : World),
    (∀ i c, chunk_numbers !! i = Some c →
       net (length (sent w) + i) (chunk_request _api_url dataset_id c) = inr (resp c)
       ∧ ok (resp c) = true
       ∧ read_csv (text (resp c)) = inr (frag c)) →
    download_chunks net _api_url read_csv dataset_id chunk_numbers dfs w =
      (inr (dfs ++ (frag <$> chunk_numbers)),
       logged (chunk_request _api_url dataset_id <$> chunk_numbers) w).
Proof.
  induction chunk_numbers as [|c cs IH]; intros dfs w Hall.
  - cbn. unfold ret. by rewrite app_nil_r, logged_nil.
  - destruct (Hall 0%nat c eq_refl) as (Hnet & Hok & Hcsv).
    rewrite Nat.add_0_r in Hnet.
    cbn [download_chunks]. unfold bind at 1. rewrite requests_run, Hnet.
    unfold bind at 1, raise_for_status. rewrite Hok. unfold ret at 1.
    rewrite Hcsv. rewrite IH.
    + rewrite logged_logged. rewrite <- app_assoc. reflexivity.
    + intros i c' Hi. specialize (Hall (S i) c' Hi).
      unfold logged. cbn [sent]. rewrite length_app. cbn [length].
      by replace (length (sent w) + 1 + i)%nat with (length (sent w) + S i)%nat by lia.
Qed.

(** When some chunk of the list does not succeed, the loop ends with an
    exception, and it has asked for no chunk after that one. *)
Lemma download_chunks_failure :
  ∀ (chunk_numbers : list Z) (dfs : list DataFrame) (w : World) (i : nat) (c : Z),
    chunk_numbers !! i = Some c →
    succeeded (net (length (sent w) + i) (chunk_request _api_url dataset_id c)) = false →
    ∃ (e : exn) (k : nat), (k ≤ S i)%nat ∧
      download_chunks net _api_url read_csv dataset_id chunk_numbers dfs w =
        (inl e, logged (chunk_request _api_url dataset_id <$> take k chunk_numbers) w).
Proof.
  induction chunk_numbers as [|c0 cs IH]; intros dfs w i c Hi Hfail; [done|].
  cbn [download_chunks]. unfold bind at 1. rewrite requests_run.
  destruct (net (length (sent w)) (chunk_request _api_url dataset_id c0))
    as [e|r] eqn:Hnet.
  { exists (RequestException e), 1%nat. split; [lia|]. reflexivity. }
  unfold bind at 1, raise_for_status.
  destruct (ok r) eqn:Hok; [|].
  2:{ exists (HTTPError (status_code r)), 1%nat. split; [lia|].
      unfold raise. reflexivity. }
  unfold ret at 1.
  destruct (read_csv (text r)) as [e|df] eqn:Hcsv.
  { exists e, 1%nat. split; [lia|]. unfold raise. reflexivity. }
  destruct i as [|i].
  { exfalso. cbn in Hi. injection Hi as <-. rewrite Nat.add_0_r, Hnet in Hfail.
    cbn in Hfail. congruence. }
  cbn in Hi.
  destruct (IH (dfs ++ [df]) (logged [chunk_request _api_url dataset_id c0] w) i c Hi)
    as (e & k & Hk & Hrun).
  { unfold logged. cbn [sent]. rewrite length_app. cbn [length].
    by replace (length (sent w) + 1 + i)%nat with (length (sent w) + S i)%nat by lia. }
  exists e, (S k). split; [lia|].
  rewrite Hrun, logged_logged. reflexivity.
Qed.

(** What [load_dataset] does up to its loop, when the metadata call is
    answered with an ok response that reports an integer [total_chunks]. *)
Lemma load_dataset_to_loop w base info members total_chunks :
  heap w !! __headers = Some base →
  net (length (sent w)) (info_request _api_url dataset_id) = inr info →
  ok info = true →
  json_body info = Some (JObj members) →
  dict_get (str "total_chunks") members = Some (JInt total_chunks) →
  load_dataset net environ _api_url __headers read_csv concat DataFrame_empty
    dataset_id w =
  (dfs <- download_chunks net _api_url read_csv dataset_id
            (seqZ 1 total_chunks) [] ;;
   ret (match dfs with [] => DataFrame_empty | _ => concat dfs end))
    (logged [info_request _api_url dataset_id]
       (mkWorld (sent w) (slept w) (pbar w) (printed w)
          (heap w ++ [<[X_API_KEY := effective_key environ None]> base]))).
Proof.
  intros Hbase Hnet Hok Hbody Htotal.
  unfold load_dataset. unfold bind at 1.
  rewrite (populate_headers_run environ __headers None w base Hbase).
  unfold bind at 1. rewrite requests_run. cbn [sent]. rewrite Hnet.
  unfold bind at 1, raise_for_status. rewrite Hok. unfold ret at 1.
  unfold bind at 1, resp_json. rewrite Hbody. unfold ret at 1.
  unfold bind at 1, getitem. rewrite Htotal. unfold ret at 1.
  unfold bind at 1, as_int, ret at 1. reflexivity.
Qed.


(** C6.  [load_dataset] returns a frame or nothing.  If the metadata call
    does not succeed, it raises after that one call.  If the metadata call
    reports [total_chunks = N] and the request for some chunk [j] of 1..N
    does not succeed, it raises, and the chunks it has asked for are
    1..k for some k <= j: none after the failing one. *)
Theorem load_dataset_all_or_nothing (w : World) (base : headers_dict) :
  let run := load_dataset net environ _api_url __headers read_csv concat
               DataFrame_empty dataset_id w in
  let after (reqs : list Request) :=
    mkWorld (sent w ++ info_request _api_url dataset_id :: reqs)
      (slept w) (pbar w) (printed w)
      (heap w ++ [<[X_API_KEY := effective_key environ None]> base]) in
  heap w !! __headers = Some base →
  (succeeded (net (length (sent w)) (info_request _api_url dataset_id)) = false →
   ∃ e : exn, run = (inl e, after []))
  ∧ (∀ (info : Response) (members : list (pystr * json)) (N j : Z),
       net (length (sent w)) (info_request _api_url dataset_id) = inr info →
       ok info = true →
       json_body info = Some (JObj members) →
       dict_get (str "total_chunks") members = Some (JInt N) →
       1 ≤ j ≤ N →
       succeeded (net (length (sent w) + Z.to_nat j)
                    (chunk_request _api_url dataset_id j)) = false →
       ∃ (e : exn) (k : Z), 0 ≤ k ≤ j ∧
         run = (inl e, after (chunk_request _api_url dataset_id <$> seqZ 1 k))).
Proof.
  intros run after Hbase. split.
  - intros Hfail. subst run. unfold load_dataset. unfold bind at 1.
    rewrite (populate_headers_run environ __headers None w base Hbase).
    unfold bind at 1. rewrite requests_run. cbn [sent].
    destruct (net (length (sent w)) (info_request _api_url dataset_id))
      as [e|info] eqn:Hnet.
    + by exists (RequestException e).
    + cbn in Hfail. unfold bind at 1, raise_for_status. rewrite Hfail.
      by exists (HTTPError (status_code info)).
  - intros info members N j Hnet Hok Hbody Htotal Hj Hfail.
    subst run. rewrite (load_dataset_to_loop w base info members N) by done.
    unfold bind.
    edestruct (download_chunks_failure (seqZ 1 N) []
                 (logged [info_request _api_url dataset_id]
                    (mkWorld (sent w) (slept w) (pbar w) (printed w)
                       (heap w ++ [<[X_API_KEY := effective_key environ None]> base])))
                 (Z.to_nat (j - 1)) j) as (e & k & Hk & Hrun).
    { apply lookup_seqZ. lia. }
    { unfold logged. cbn [sent]. rewrite length_app. cbn [length].
      replace (length (sent w) + 1 + Z.to_nat (j - 1))%nat
        with (length (sent w) + Z.to_nat j)%nat by lia.
      exact Hfail. }
    rewrite Hrun.
    exists e, (Z.of_nat k). split; [lia|].
    unfold logged, after. cbn [sent slept pbar printed heap].
    rewrite <- app_assoc. cbn [app]. do 3 f_equal.
    replace N with (Z.of_nat k + (N - Z.of_nat k)) at 1 by lia.
    rewrite seqZ_app by lia.
    rewrite take_app_length'; [done|]. rewrite length_seqZ. lia.
Qed.

End Download.

(** ** The upload pipeline *)

Section Windows.

Variable rows_per_chunk : Z.

Lemma windows_from_concat records :
  ∀ buffer,
    mjoin (windows_from rows_per_chunk records buffer).1
      ++ (windows_from rows_per_chunk records buffer).2 = buffer ++ records.
Proof.
  induction records as [|row rest IH]; intros buffer; cbn [windows_from].
  - cbn. by rewrite app_nil_r.
  - destruct (_ =? _).
    + cbn [fst snd mjoin list_join]. rewrite <- app_assoc, IH.
      cbn. by rewrite <- app_assoc.
    + rewrite IH. by rewrite <- app_assoc.
Qed.

Lemma windows_concat records : mjoin (windows rows_per_chunk records) = records.
Proof.
  unfold windows. rewrite join_app.
  rewrite <- (windows_from_concat records []) at 3.
  f_equal. destruct (windows_from rows_per_chunk records []).2; [done|].
  cbn. by rewrite app_nil_r.
Qed.

Hypothesis positive : 0 < rows_per_chunk.

Lemma windows_from_sizes records :
  ∀ buffer, Z.of_nat (length buffer) < rows_per_chunk →
    Forall (λ win, Z.of_nat (length win) = rows_per_chunk)
      (windows_from rows_per_chunk records buffer).1
    ∧ Z.of_nat (length (windows_from rows_per_chunk records buffer).2)
        < rows_per_chunk.
Proof.
  induction records as [|row rest IH]; intros buffer Hlt; cbn [windows_from].
  - split; [constructor|done].
  - destruct (_ =? _) eqn:Hfull.
    + apply Z.eqb_eq in Hfull. cbn [fst snd].
      destruct (IH []) as [Hws Hleft]; [cbn; lia|].
      split; [by constructor|done].
    + apply Z.eqb_neq in Hfull. apply IH.
      rewrite length_app in *. cbn [length] in *. lia.
Qed.

(** The number of windows is the number of rows divided by the window size,
    rounded up. *)
Lemma windows_length records :
  Z.of_nat (length (windows rows_per_chunk records))
  = (Z.of_nat (length records) + rows_per_chunk - 1) / rows_per_chunk.
Proof.
  pose proof (windows_from_concat records []) as Hcat.
  destruct (windows_from_sizes records []) as [Hws Hleft]; [cbn; lia|].
  unfold windows.
  destruct (windows_from rows_per_chunk records []) as [ws leftover].
  cbn [fst snd] in *.
  assert (Hsum : Z.of_nat (length (mjoin ws))
                 = rows_per_chunk * Z.of_nat (length ws)).
  { clear Hcat. induction Hws as [|win ws Hwin _ IH]; [cbn; lia|].
    change (mjoin (win :: ws)) with (win ++ mjoin ws).
    rewrite length_app. cbn [length]. nia. }
  apply (f_equal length) in Hcat. rewrite length_app in Hcat. cbn in Hcat.
  rewrite length_app.
  destruct leftover as [|row leftover]; cbn [length] in *.
  - apply Z.div_unique with (r := rows_per_chunk - 1); nia.
  - apply Z.div_unique with (r := Z.of_nat (length leftover)); nia.
Qed.

(** Every window but the last is full; the last holds between one row and
    the window size. *)
Lemma windows_sizes records i win :
  windows rows_per_chunk records !! i = Some win →
  (0 < length win)%nat
  ∧ Z.of_nat (length win) ≤ rows_per_chunk
  ∧ (S i < length (windows rows_per_chunk records) →
     Z.of_nat (length win) = rows_per_chunk)%nat.
Proof.
  destruct (windows_from_sizes records []) as [Hws Hleft]; [cbn; lia|].
  unfold windows.
  destruct (windows_from rows_per_chunk records []) as [ws leftover].
  cbn [fst snd] in *. intros Hi.
  rewrite Forall_lookup in Hws.
  destruct (decide (i < length ws)%nat) as [Hlt|Hge].
  - rewrite lookup_app_l in Hi by done.
    specialize (Hws _ _ Hi). cbn in Hws. lia.
  - rewrite lookup_app_r in Hi by lia.
    destruct leftover as [|row leftover]; [by rewrite lookup_nil in Hi|].
    destruct (i - length ws)%nat eqn:Hidx; [|by rewrite lookup_cons_ne_0, lookup_nil in Hi by lia].
    cbn in Hi. injection Hi as <-.
    rewrite length_app. cbn [length] in *. lia.
Qed.

End Windows.

Section Upload.

Variable net : nat → Request → net_error + Response.
Variable fs : pystr → option pystr.
Variable path_name : pystr → pystr.
Variable _api_url : pystr.

Lemma upload_chunk_run chunk chunk_number file_name dataset_id w resp :
  net (length (sent w))
      (upload_request _api_url chunk chunk_number file_name dataset_id) = inr resp →
  _upload_chunk net _api_url chunk chunk_number file_name dataset_id w =
    (inr tt,
     chunk_answered
       (upload_request _api_url chunk chunk_number file_name dataset_id)
       chunk chunk_number resp w).
Proof.
  intros Hnet. unfold _upload_chunk, bind, requests, chunk_answered.
  rewrite Hnet. by destruct (status_code resp =? 200).
Qed.

End Upload.

Section UploadAnswered.

Variable respond : nat → Request → Response.
Variable fs : pystr → option pystr.
Variable path_name : pystr → pystr.
Variable _api_url : pystr.
Variables (header : list pystr) (dataset_id : pystr).
Variable rows_per_chunk : Z.

Lemma chunk_answered_frame req chunk chunk_number resp w :
  sent (chunk_answered req chunk chunk_number resp w) = sent w ++ [req]
  ∧ same_frame w (chunk_answered req chunk chunk_number resp w).
Proof. unfold chunk_answered, same_frame. by destruct (_ =? 200). Qed.

(** The loop of [upload_dataset] under a transport that answers: it sends
    the full windows of the records, in order, numbered from the chunk
    counter on, and leaves the rest in the buffer. *)
Lemma upload_rows_sent (file_name : pystr) records :
  ∀ (buffer : list (list pystr)) (chunk_number : Z) (w : World),
  ∃ w',
    upload_rows (answering respond) _api_url (header_str header) file_name
      dataset_id rows_per_chunk records (quoted_row <$> buffer) chunk_number w
    = (inr (quoted_row <$> (windows_from rows_per_chunk records buffer).2,
            chunk_number
            + Z.of_nat (length (windows_from rows_per_chunk records buffer).1)),
       w')
    ∧ sent w' = sent w ++ chunk_requests _api_url header file_name dataset_id
                            (chunk_number + 1)
                            (windows_from rows_per_chunk records buffer).1
    ∧ same_frame w w'.
Proof.
  induction records as [|row rest IH]; intros buffer chunk_number w.
  - exists w. cbn. unfold ret. rewrite Z.add_0_r, app_nil_r. by repeat split.
  - cbn [upload_rows windows_from].
    replace ((quoted_row <$> buffer) ++ [quoted_row row])
      with (quoted_row <$> (buffer ++ [row])) by (by rewrite fmap_app).
    rewrite length_fmap.
    destruct (Z.of_nat (length (buffer ++ [row])) =? rows_per_chunk).
    + unfold bind at 1.
      rewrite (upload_chunk_run _ _ _ _ _ _ _ (respond (length (sent w)) _))
        by reflexivity.
      edestruct (chunk_answered_frame) as [Hsent (Hsl & Hhp & Htot)].
      destruct (IH [] (chunk_number + 1) (chunk_answered
        (upload_request _api_url
           (chunk_data (header_str header) (quoted_row <$> buffer ++ [row]))
           (chunk_number + 1) file_name dataset_id)
        (chunk_data (header_str header) (quoted_row <$> buffer ++ [row]))
        (chunk_number + 1)
        (respond (length (sent w))
           (upload_request _api_url
              (chunk_data (header_str header) (quoted_row <$> buffer ++ [row]))
              (chunk_number + 1) file_name dataset_id)) w))
        as (w' & Hrun & Hsent' & Hsl' & Hhp' & Htot').
      exists w'. change (quoted_row <$> []) with (@nil pystr) in Hrun.
      rewrite Hrun. cbn [fst snd length].
      split; [do 3 f_equal; lia|].
      split.
      * rewrite Hsent', Hsent, <- app_assoc. f_equal.
        unfold chunk_requests. cbn [imap app]. f_equal.
        -- unfold encode. by rewrite Z.add_0_r.
        -- apply imap_ext. intros i win _. cbn. f_equal. lia.
      * unfold same_frame in *. split; [congruence|]. split; congruence.
    + apply IH.
Qed.

(** [upload_dataset] on a file the reader parses without error, under a
    transport that answers: it returns, having sent the windows of the data
    rows in order, numbered from 1, each under the name the opened file
    reports; the bar's total is the number of lines less one. *)
Lemma upload_dataset_sent file_path file_name content rows w :
  fs file_path = Some content →
  Csv.reader (file_lines content) = (header :: rows, None) →
  ∃ w',
    upload_dataset (answering respond) fs path_name _api_url file_path
      dataset_id file_name rows_per_chunk w = (inr tt, w')
    ∧ sent w' = sent w ++ chunk_requests _api_url header (path_name file_path)
                            dataset_id 1 (windows rows_per_chunk rows)
    ∧ slept w' = slept w ∧ heap w' = heap w
    ∧ total (pbar w') = Z.of_nat (length (file_lines content)) - 1.
Proof.
  intros Hfs Hreader.
  unfold upload_dataset. unfold bind at 1, open_read at 1. rewrite Hfs.
  unfold ret at 1. unfold bind at 1, tqdm_new at 1.
  unfold bind at 1, open_read at 1. rewrite Hfs. unfold ret at 1.
  rewrite Hreader.
  set (w1 := mkWorld (sent w) (slept w)
               (mkTqdm (Z.of_nat (length (file_lines content)) - 1) 0 false)
               (printed w) (heap w)).
  unfold bind at 1.
  destruct (upload_rows_sent (path_name file_path) rows [] 0 w1)
    as (w2 & Hrun & Hsent & Hsl & Hhp & Htot).
  change (quoted_row <$> []) with (@nil pystr) in Hrun. rewrite Hrun.
  unfold bind at 1, ret at 1.
  cbn [fst snd]. unfold windows.
  destruct (windows_from rows_per_chunk rows []) as [ws leftover] eqn:Hwin.
  cbn [fst snd] in *.
  destruct leftover as [|row leftover].
  - cbn [fmap list_fmap]. unfold bind, ret, pbar_close, print. cbn.
    eexists. split; [reflexivity|]. cbn [sent slept heap pbar total].
    rewrite app_nil_r. by rewrite Hsent, Hsl, Hhp, Htot.
  - cbn [fmap list_fmap]. unfold bind at 1.
    rewrite (upload_chunk_run _ _ _ _ _ _ _ (respond (length (sent w2)) _))
      by reflexivity.
    edestruct (chunk_answered_frame) as [Hsent' (Hsl' & Hhp' & Htot')].
    unfold bind, pbar_close, print. cbn [sent slept heap pbar total printed].
    eexists. split; [reflexivity|]. cbn [sent slept heap pbar total].
    rewrite Hsent', Hsl', Hhp', Htot', Hsent, Hsl, Hhp, Htot.
    split; [|done]. cbn [sent]. rewrite <- app_assoc. f_equal.
    unfold chunk_requests. rewrite imap_app. f_equal. cbn [imap].
    unfold encode, compose. cbn [fmap list_fmap]. do 2 f_equal. lia.
Qed.

(** Positions counted from [start]. *)
Lemma imap_positions {A B} (g : Z → B) (l : list A) :
  ∀ start, imap (λ i _, g (Z.of_nat i + start)) l
           = g <$> seqZ start (Z.of_nat (length l)).
Proof.
  induction l as [|x l IH]; intros start; [done|].
  cbn [imap length]. rewrite seqZ_cons by lia. cbn [fmap list_fmap]. f_equal.
  replace (Z.pred (Z.of_nat (S (length l)))) with (Z.of_nat (length l)) by lia.
  rewrite <- IH. apply imap_ext. intros i y _. cbn. f_equal. lia.
Qed.

(** The requests of the windows, written out. *)
Lemma chunk_requests_written_out (file_name : pystr)
    (wins : list (list (list pystr))) :
  chunk_requests _api_url header file_name dataset_id 1 wins
  = imap (λ i win,
            {| method := POST; url := _api_url ++ str "/upload-dataset";
               headers := None; params := [];
               data := Form [(str "dataset_id", JStr dataset_id);
                             (str "chunk_number", JInt (Z.of_nat i + 1))];
               files :=
                 [(str "data_file",
                   (file_name,
                    (join [COMMA]
                       ((λ field, [QUOTE] ++ replace_quote field ++ [QUOTE])
                          <$> header) ++ [LF])
                    ++ join [LF]
                         ((λ row,
                             join [COMMA]
                               ((λ field,
                                   [QUOTE] ++ replace_quote field ++ [QUOTE])
                                  <$> row)) <$> win)))] |}) wins.
Proof.
  unfold chunk_requests. apply imap_ext. intros i win _. cbv beta.
  replace (1 + Z.of_nat i) with (Z.of_nat i + 1) by lia. reflexivity.
Qed.

(** C2, amended.  For a window size [rows_per_chunk] > 0, a file the reader
    parses into a header and [rows], and a transport that answers every
    submission, [upload_dataset] submits the windows of the rows in order,
    and nothing else: the windows put together are the rows, their number is
    the number of rows divided by the window size and rounded up, every
    window but the last holds exactly [rows_per_chunk] rows, the last
    between one and [rows_per_chunk]; the window at position [i] (from 0) is
    posted with the form field [chunk_number] set to [i + 1], its payload
    the quoted header line followed by the quoted lines of its rows; so the
    chunk numbers sent are 1, 2, ... up to the number of windows. *)
Theorem upload_chunking (file_path file_name content : pystr)
    (rows : list (list pystr)) (w : World) :
  let quoted (field : pystr) := [QUOTE] ++ replace_quote field ++ [QUOTE] in
  let line (row : list pystr) := join [COMMA] (quoted <$> row) in
  let form (chunk_number : Z) :=
    Form [(str "dataset_id", JStr dataset_id);
          (str "chunk_number", JInt chunk_number)] in
  let submission (i : nat) (win : list (list pystr)) : Request :=
    {| method := POST; url := _api_url ++ str "/upload-dataset";
       headers := None; params := [];
       data := form (Z.of_nat i + 1);
       files := [(str "data_file",
                  (path_name file_path,
                   (line header ++ [LF]) ++ join [LF] (line <$> win)))] |} in
  let chunks :=
    (Z.of_nat (length rows) + rows_per_chunk - 1) / rows_per_chunk in
  0 < rows_per_chunk →
  fs file_path = Some content →
  Csv.reader (file_lines content) = (header :: rows, None) →
  ∃ (w' : World) (wins : list (list (list pystr))),
    upload_dataset (answering respond) fs path_name _api_url file_path
      dataset_id file_name rows_per_chunk w = (inr tt, w')
    ∧ sent w' = sent w ++ imap submission wins
    ∧ mjoin wins = rows
    ∧ Z.of_nat (length wins) = chunks
    ∧ (∀ i win, wins !! i = Some win →
         (0 < length win)%nat
         ∧ Z.of_nat (length win) ≤ rows_per_chunk
         ∧ (S i < length wins → Z.of_nat (length win) = rows_per_chunk)%nat)
    ∧ data <$> drop (length (sent w)) (sent w') = form <$> seqZ 1 chunks.
Proof.
  intros quoted line form submission chunks Hpos Hfs Hreader.
  destruct (upload_dataset_sent file_path file_name content rows w Hfs Hreader)
    as (w' & Hrun & Hsent & _).
  assert (Hsent' : sent w' = sent w ++ imap submission (windows rows_per_chunk rows)).
  { by rewrite Hsent, chunk_requests_written_out. }
  exists w', (windows rows_per_chunk rows).
  split; [exact Hrun|]. split; [exact Hsent'|].
  split; [apply windows_concat|].
  split; [by apply windows_length|].
  split; [intros i win Hi; by apply (windows_sizes rows_per_chunk Hpos rows)|].
  rewrite Hsent', drop_app_length. subst chunks.
  rewrite <- (windows_length rows_per_chunk Hpos rows).
  rewrite <- (imap_positions form (windows rows_per_chunk rows) 1).
  by rewrite fmap_imap.
Qed.

(** The reader on lines that are each a whole record: one record a line. *)
Lemma reader_complete_lines (lines : list pystr) :
  Forall (λ line, line_complete line = true) lines →
  Csv.reader lines = (line_record <$> lines, None).
Proof.
  unfold Csv.reader.
  induction 1 as [|line lines Hline _ IH]; [done|].
  cbn [Csv.reader_from fmap list_fmap].
  unfold line_complete in Hline. unfold line_record at 1.
  destruct (Csv.parse_chars Csv.parse_reset line) as [e|self]; [done|].
  apply bool_decide_eq_true in Hline. rewrite bool_decide_true by done.
  by rewrite IH.
Qed.

End UploadAnswered.

Section PlainLines.

(** Reading on in a line: the characters of [s1], then the rest. *)
Lemma parse_chars_app (s1 s2 : pystr) :
  ∀ self,
    Csv.parse_chars self (s1 ++ s2)
    = match fold_left (λ r c, match r with
                              | inl e => inl e
                              | inr self' => Csv.parse_process_char self' (Csv.Chr c)
                              end) s1 (inr self) with
      | inl e => inl e
      | inr self' => Csv.parse_chars self' s2
      end.
Proof.
  induction s1 as [|c s1 IH]; intros self; [done|].
  cbn [app Csv.parse_chars fold_left].
  destruct (Csv.parse_process_char self (Csv.Chr c)) as [e|self']; [|apply IH].
  clear. induction s1 as [|c' s1 IH]; [done|]. exact IH.
Qed.

(** Outside quotes, characters that are no quote and no line end keep the
    reader between the fields of a record. *)
Lemma parse_plain_body (body : pystr) :
  ∀ self,
    Csv.state self ≠ Csv.IN_QUOTED_FIELD →
    Csv.state self ≠ Csv.QUOTE_IN_QUOTED_FIELD →
    Csv.state self ≠ Csv.EAT_CRNL →
    Forall (λ c, c ≠ QUOTE ∧ c ≠ LF ∧ c ≠ CR) body →
    (N.of_nat (length (Csv.field self) + length body) < Csv.field_limit)%N →
    ∃ self',
      fold_left (λ r c, match r with
                        | inl e => inl e
                        | inr self' => Csv.parse_process_char self' (Csv.Chr c)
                        end) body (inr self) = inr self'
      ∧ Csv.state self' ≠ Csv.IN_QUOTED_FIELD
      ∧ Csv.state self' ≠ Csv.QUOTE_IN_QUOTED_FIELD
      ∧ Csv.state self' ≠ Csv.EAT_CRNL.
Proof.
  induction body as [|c body IH]; intros self Hq Hqq Hcr Hbody Hlen.
  - by exists self.
  - apply Forall_cons in Hbody as [(Hc1 & Hc2 & Hc3) Hbody].
    apply N.eqb_neq in Hc1, Hc2, Hc3. cbn [fold_left length] in *.
    assert (Hstep : ∃ self', Csv.parse_process_char self (Csv.Chr c) = inr self'
              ∧ Csv.state self' ≠ Csv.IN_QUOTED_FIELD
              ∧ Csv.state self' ≠ Csv.QUOTE_IN_QUOTED_FIELD
              ∧ Csv.state self' ≠ Csv.EAT_CRNL
              ∧ (length (Csv.field self') ≤ S (length (Csv.field self)))%nat).
    { destruct self as [st fds f]. cbn [Csv.state Csv.field] in *.
      unfold Csv.parse_process_char, Csv.start_field, Csv.is_newline,
        Csv.parse_add_char. cbn [Csv.state Csv.field].
      rewrite Hc1, Hc2, Hc3. cbn [orb].
      assert ((Csv.field_limit <=? N.of_nat (length f))%N = false) as ->
        by (apply N.leb_gt; lia).
      destruct st; try done;
        destruct (N.eqb c COMMA);
        (eexists; split; [reflexivity|]; cbn; repeat split; try done; lia). }
    destruct Hstep as (self1 & -> & H1 & H2 & H3 & Hf).
    apply IH; [done..|lia].
Qed.

(** A plain line is a whole record by itself. *)
Lemma plain_line_complete (line : pystr) :
  plain_line line → line_complete line = true.
Proof.
  intros (body & ending & -> & Hbody & Hlen & Hending).
  unfold line_complete. rewrite parse_chars_app.
  destruct (parse_plain_body body Csv.parse_reset) as (self & -> & Hq & Hqq & Hcr);
    [done..|cbn; lia|].
  destruct self as [st fds f]. cbn [Csv.state] in *.
  destruct Hending as [-> | [-> | [-> | ->]]];
    destruct st; try done; reflexivity.
Qed.

End PlainLines.

Section UploadCount.

Variable respond : nat → Request → Response.
Variable fs : pystr → option pystr.
Variable path_name : pystr → pystr.
Variable _api_url : pystr.
Variable dataset_id : pystr.
Variable rows_per_chunk : Z.

(** X24.  For a file with at least one line in which every line is a whole
    record by itself (no quoted field runs over a line end), uploaded to a
    transport that answers every submission: [upload_dataset] returns, the
    chunks it posts carry the windows of the data rows, and these rows
    number as many as the pre-scan counted, the lines of the file less
    one. *)
Theorem upload_rows_equal_prescan (file_path file_name content : pystr)
    (w : World) :
  let quoted (field : pystr) := [QUOTE] ++ replace_quote field ++ [QUOTE] in
  let line (row : list pystr) := join [COMMA] (quoted <$> row) in
  let submission (header : list pystr) (i : nat) (win : list (list pystr))
    : Request :=
    {| method := POST; url := _api_url ++ str "/upload-dataset";
       headers := None; params := [];
       data := Form [(str "dataset_id", JStr dataset_id);
                     (str "chunk_number", JInt (Z.of_nat i + 1))];
       files := [(str "data_file",
                  (path_name file_path,
                   (line header ++ [LF]) ++ join [LF] (line <$> win)))] |} in
  fs file_path = Some content →
  file_lines content ≠ [] →
  Forall (λ line, line_complete line = true) (file_lines content) →
  ∃ (w' : World) (header : list pystr) (wins : list (list (list pystr))),
    upload_dataset (answering respond) fs path_name _api_url file_path
      dataset_id file_name rows_per_chunk w = (inr tt, w')
    ∧ Csv.reader (file_lines content) = (header :: mjoin wins, None)
    ∧ sent w' = sent w ++ imap (submission header) wins
    ∧ Z.of_nat (length (mjoin wins)) = total (pbar w')
    ∧ total (pbar w') = Z.of_nat (length (file_lines content)) - 1.
Proof.
  intros quoted line submission Hfs Hlines Hcomplete.
  pose proof (reader_complete_lines _ Hcomplete) as Hreader.
  destruct (file_lines content) as [|first data] eqn:Hfile; [done|].
  cbn [fmap list_fmap] in Hreader.
  destruct (upload_dataset_sent respond fs path_name _api_url
              (line_record first) dataset_id rows_per_chunk file_path
              file_name content (line_record <$> data) w Hfs)
    as (w' & Hrun & Hsent & _ & _ & Htotal).
  { by rewrite Hfile. }
  exists w', (line_record first), (windows rows_per_chunk (line_record <$> data)).
  split; [exact Hrun|].
  rewrite windows_concat. split; [exact Hreader|].
  split; [by rewrite Hsent, chunk_requests_written_out|].
  rewrite length_fmap, Htotal, Hfile. cbn [length].
  split; lia.
Qed.

End UploadCount.

(** ** The conversion of the columns *)

Section Conversion.

Import Pandas.

Lemma not_a_numeral_tail c p :
  not_a_numeral (c :: p) → number_char c = true → not_a_numeral p.
Proof.
  intros (c' & [->|Hin]%elem_of_cons & Hbad) Hc; [congruence|].
  by exists c'.
Qed.

Lemma not_a_numeral_skip (test : N → bool) p :
  (∀ c, test c = true → number_char c = true) →
  not_a_numeral p → not_a_numeral (skip test p).
Proof.
  intros Htest. induction p as [|c p IH]; intros Hbad; [done|].
  cbn [skip]. destruct (test c) eqn:Hc; [|done].
  apply IH. eapply not_a_numeral_tail; [done|by apply Htest].
Qed.

Lemma leading_number_chars (test : N → bool) p :
  (∀ c, test c = true → number_char c = true) →
  Forall (λ c, number_char c = true) (leading test p).
Proof.
  intros Htest. induction p as [|c p IH]; [constructor|].
  cbn [leading]. destruct (test c) eqn:Hc; [|constructor].
  constructor; [by apply Htest|done].
Qed.

Lemma leading_prefix (test : N → bool) p : leading test p `prefix_of` p.
Proof.
  induction p as [|c p IH]; [done|].
  cbn [leading]. destruct (test c); [by apply prefix_cons|apply prefix_nil].
Qed.

Lemma not_a_numeral_drop (l p : pystr) :
  l `prefix_of` p → Forall (λ c, number_char c = true) l →
  not_a_numeral p → not_a_numeral (drop (length l) p).
Proof.
  intros [rest ->] Hl (c & Hin & Hbad).
  rewrite drop_app_length. exists c. split; [|done].
  apply elem_of_app in Hin as [Hin|Hin]; [|done].
  rewrite Forall_forall in Hl. specialize (Hl c Hin). congruence.
Qed.

Lemma not_a_numeral_not_blank p :
  not_a_numeral p → skip isspace_ascii p ≠ [].
Proof.
  intros Hbad Hnil.
  apply (not_a_numeral_skip isspace_ascii) in Hbad.
  - rewrite Hnil in Hbad. destruct Hbad as (c & Hin & _).
    by apply elem_of_nil in Hin.
  - intros c Hc. unfold number_char. rewrite Hc. by rewrite orb_true_r.
Qed.

Lemma digit_number_char c : isdigit_ascii c = true → number_char c = true.
Proof. intros Hc. unfold number_char. by rewrite Hc. Qed.

Lemma space_number_char c : isspace_ascii c = true → number_char c = true.
Proof. intros Hc. unfold number_char. rewrite Hc. by rewrite orb_true_r. Qed.

Lemma sign_number_char c :
  N.eqb c MINUS || N.eqb c PLUS = true → number_char c = true.
Proof.
  intros [Hc|Hc]%orb_true_iff; unfold number_char; rewrite Hc;
    by rewrite ?orb_true_r.
Qed.

(** After an optional sign the word still is no numeral. *)
Lemma not_a_numeral_sign p : not_a_numeral p → not_a_numeral (after_sign p).
Proof.
  intros Hbad. destruct p as [|c rest]; [done|]. cbn [after_sign].
  destruct (N.eqb c MINUS || N.eqb c PLUS) eqn:Hc; [|done].
  eapply not_a_numeral_tail; [done|by apply sign_number_char].
Qed.

Lemma str_to_int64_fails word :
  not_a_numeral word → ∀ z, str_to_int64 word ≠ inr z.
Proof.
  intros Hbad z. unfold str_to_int64.
  apply (not_a_numeral_skip isspace_ascii) in Hbad;
    [|apply space_number_char].
  apply not_a_numeral_sign in Hbad.
  apply (not_a_numeral_skip isdigit_ascii) in Hbad;
    [|apply digit_number_char].
  apply not_a_numeral_not_blank in Hbad.
  destruct (leading isdigit_ascii _); [done|].
  case_bool_decide; [|done].
  by destruct (skip isspace_ascii (skip isdigit_ascii _)).
Qed.

Lemma str_to_uint64_fails word :
  not_a_numeral word → ∀ z, str_to_uint64 word ≠ UNumber z.
Proof.
  intros Hbad z. unfold str_to_uint64.
  apply (not_a_numeral_skip isspace_ascii) in Hbad;
    [|apply space_number_char].
  destruct (skip isspace_ascii word) as [|c rest] eqn:Hword; [done|].
  destruct (N.eqb c MINUS); [done|].
  assert (Hp : not_a_numeral (if N.eqb c PLUS then rest else c :: rest)).
  { destruct (N.eqb c PLUS) eqn:Hc; [|done].
    eapply not_a_numeral_tail; [done|].
    unfold number_char. rewrite Hc. by rewrite ?orb_true_r. }
  apply (not_a_numeral_skip isdigit_ascii) in Hp; [|apply digit_number_char].
  apply not_a_numeral_not_blank in Hp.
  destruct (leading isdigit_ascii _); [done|].
  case_bool_decide; [|done].
  by destruct (skip isspace_ascii (skip isdigit_ascii _)).
Qed.

Lemma not_a_numeral_fraction p :
  not_a_numeral p → not_a_numeral (fraction p).2.
Proof.
  intros Hbad. destruct p as [|c rest]; [done|]. cbn [fraction].
  destruct (N.eqb c POINT) eqn:Hc; [|done]. cbn [snd].
  apply not_a_numeral_skip; [apply digit_number_char|].
  eapply not_a_numeral_tail; [done|].
  unfold number_char. rewrite Hc. by rewrite ?orb_true_r.
Qed.

Lemma not_a_numeral_exponent p :
  not_a_numeral p → not_a_numeral (exponent_part p).2.
Proof.
  intros Hbad. destruct p as [|c rest]; [done|]. cbn [exponent_part].
  destruct (N.eqb c LOWER_E || N.eqb c UPPER_E) eqn:Hc; [|done].
  assert (Hrest : not_a_numeral (after_sign rest)).
  { apply not_a_numeral_sign. eapply not_a_numeral_tail; [done|].
    unfold number_char.
    apply orb_true_iff in Hc as [Hc|Hc]; rewrite Hc; by rewrite ?orb_true_r. }
  destruct (take 17 (leading isdigit_ascii (after_sign rest)))
    as [|d digits] eqn:Hdigits; [done|].
  cbn [snd]. rewrite <- Hdigits.
  apply not_a_numeral_drop; [| |done].
  - etrans; [apply prefix_take|apply leading_prefix].
  - apply Forall_take. apply leading_number_chars, digit_number_char.
Qed.

Lemma precise_xstrtod_fails word :
  not_a_numeral word → precise_xstrtod word = false.
Proof.
  intros Hbad. unfold precise_xstrtod.
  apply (not_a_numeral_skip isspace_ascii) in Hbad;
    [|apply space_number_char].
  apply not_a_numeral_sign in Hbad.
  apply (not_a_numeral_skip isdigit_ascii) in Hbad;
    [|apply digit_number_char].
  apply not_a_numeral_fraction, not_a_numeral_exponent in Hbad.
  apply not_a_numeral_not_blank in Hbad.
  rewrite (bool_decide_false _ Hbad). by rewrite andb_false_r.
Qed.

(** What [plain_text] says of a field. *)
Lemma plain_text_facts field :
  plain_text field →
  c_str field = field ∧ not_a_numeral field ∧ is_na field = false
  ∧ is_infinity field = false ∧ to_boolean field = None.
Proof.
  unfold plain_text, is_plain_text.
  intros (((((Hnul & Hchar)%andb_true_iff & Hna)%andb_true_iff
            & Hinf)%andb_true_iff & Hbool)%andb_true_iff & _)%andb_true_iff.
  apply negb_true_iff in Hna, Hinf, Hbool.
  split; [|split; [|split; [done|split; [done|]]]].
  - clear -Hnul. induction field as [|c field IH]; [done|].
    cbn [forallb] in Hnul. apply andb_true_iff in Hnul as [Hc Hnul].
    cbn [c_str]. rewrite (negb_true_iff _) in Hc. rewrite Hc.
    by rewrite IH.
  - apply existsb_exists in Hchar as (c & Hin & Hc).
    exists c. split; [by apply list_elem_of_In|by apply negb_true_iff].
  - apply bool_decide_eq_false in Hbool.
    destruct (to_boolean field); [|done]. by destruct Hbool.
Qed.

Lemma string_convert_text (na_filter : bool) words :
  Forall plain_text words →
  _string_convert na_filter words = mkSeries object_ (Str <$> words).
Proof.
  intros Hwords. unfold _string_convert. f_equal.
  apply Forall_fmap_ext_1. eapply Forall_impl; [exact Hwords|].
  intros word (_ & _ & -> & _)%plain_text_facts. by rewrite andb_false_r.
Qed.

Lemma convert_further_text words :
  words ≠ [] → Forall plain_text words →
  convert_further words = mkSeries object_ (Str <$> words).
Proof.
  intros Hne Hwords. rewrite <- (string_convert_text true) by done.
  destruct Hwords as [|word words Hword _]; [done|].
  apply plain_text_facts in Hword as (_ & Hbad & Hna & Hinf & Hbool).
  unfold convert_further. cbn [_try_double _try_bool_flex].
  by rewrite Hna, (precise_xstrtod_fails _ Hbad), Hinf, Hbool.
Qed.

Lemma try_uint64_text words :
  Forall plain_text words →
  ∀ seen_sint seen_uint seen_null values converted,
    words ≠ [] ∨ seen_sint = true →
    _try_uint64_from words seen_sint seen_uint seen_null values
    ≠ Converted converted.
Proof.
  induction 1 as [|word words Hword _ IH];
    intros seen_sint seen_uint seen_null values converted Hseen.
  - destruct Hseen as [Hne| ->]; [done|]. cbn.
    by destruct (seen_uint && _).
  - apply plain_text_facts in Hword as (_ & Hbad & Hna & _).
    cbn [_try_uint64_from]. rewrite Hna.
    pose proof (str_to_uint64_fails _ Hbad) as Hfails.
    destruct (str_to_uint64 word) as [z| |[]]; try done.
    + by destruct (Hfails z).
    + apply IH. by right.
Qed.

(** A column of plain text stays text. *)
Lemma convert_tokens_text words :
  words ≠ [] → Forall plain_text words →
  _convert_tokens words = mkSeries object_ (Str <$> words).
Proof.
  intros Hne Hwords. unfold _convert_tokens.
  assert (Hint : ∀ values, _try_int64 words ≠ Converted values).
  { destruct Hwords as [|word words Hword _]; [done|].
    apply plain_text_facts in Hword as (_ & Hbad & Hna & _).
    intros values. cbn [_try_int64]. rewrite Hna.
    pose proof (str_to_int64_fails _ Hbad) as Hfails.
    destruct (str_to_int64 word) as [[]|z]; try done. by destruct (Hfails z). }
  destruct (_try_int64 words) as [values| | |];
    [by destruct (Hint values)|by apply convert_further_text|
    |by apply convert_further_text].
  pose proof (try_uint64_text words Hwords false false false []) as Huint.
  unfold _try_uint64.
  destruct (_try_uint64_from words false false false []) as [values| | |].
  - destruct (Huint values); [by left|done].
  - by apply convert_further_text.
  - by apply string_convert_text.
  - by apply string_convert_text.
Qed.

(** Pieces of text put together are the text of the pieces. *)
Lemma concat_compat_text (parts : list (list pystr)) :
  concat_compat ((λ words, mkSeries object_ (Str <$> words)) <$> parts)
  = mkSeries object_ (Str <$> mjoin parts).
Proof.
  unfold concat_compat.
  set (pieces := (λ words, mkSeries object_ (Str <$> words)) <$> parts).
  assert (Hdtype : ∀ kept, kept ⊆ pieces → kept ≠ [] →
                     common_dtype (dtype <$> kept) = object_).
  { intros kept Hkept Hne.
    assert (Hall : Forall (λ piece, dtype piece = object_) kept).
    { apply Forall_forall. intros piece Hin. apply Hkept in Hin.
      apply list_elem_of_fmap in Hin as (words & -> & _). done. }
    destruct Hall as [|piece kept Hpiece Hrest]; [done|].
    cbn [fmap list_fmap common_dtype]. rewrite Hpiece.
    assert (forallb (λ d', bool_decide (d' = object_)) (dtype <$> kept) = true)
      as ->; [|done].
    clear -Hrest. induction Hrest as [|p ps Hp _ IH]; [done|].
    cbn. by rewrite Hp, IH. }
  assert (Hcells : mjoin (cells <$> filter (λ piece, cells piece ≠ []) pieces)
                   = Str <$> mjoin parts).
  { subst pieces. clear. induction parts as [|words parts IH]; [done|].
    change (mjoin (words :: parts)) with (words ++ mjoin parts).
    rewrite fmap_app, <- IH. cbn [fmap list_fmap]. rewrite filter_cons.
    cbn [cells]. destruct words as [|word words].
    - by rewrite decide_False by (by intros []).
    - by rewrite decide_True by done. }
  destruct (filter (λ piece, cells piece ≠ []) pieces) as [|piece kept]
    eqn:Hfilter.
  - rewrite <- Hcells. cbn. f_equal.
    subst pieces. clear. destruct parts as [|words parts]; [done|].
    cbn [fmap list_fmap empty_dtype dtype].
    assert (forallb (λ d', bool_decide (d' = object_))
              (dtype <$> ((λ words, mkSeries object_ (Str <$> words)) <$> parts))
            = true) as ->; [|done].
    induction parts as [|w ws IH]; [done|]. cbn. by rewrite IH.
  - rewrite Hdtype, <- Hcells; [|by rewrite <- Hfilter; apply list_subseteq_filter|done].
    f_equal. rewrite <- (list_fmap_id (mjoin _)) at 2.
    apply list_fmap_ext. intros _ cell _. by destruct cell.
Qed.

Lemma buffer_lines_positive table_width : (1 ≤ buffer_lines table_width)%N.
Proof.
  unfold buffer_lines. apply N.iter_invariant; [|lia].
  intros b Hb. destruct (_ <? _)%N; lia.
Qed.

Lemma split_at_app size rows :
  (split_at size rows).1 ++ (split_at size rows).2 = rows.
Proof.
  revert size. induction rows as [|row rows IH]; intros size; [done|].
  cbn [split_at]. destruct (size =? 0)%N; [done|].
  cbn [fst snd app]. by rewrite IH.
Qed.

Lemma split_at_shorter size row rows :
  (1 ≤ size)%N →
  (split_at size (row :: rows)).1 ≠ []
  ∧ (length (split_at size (row :: rows)).2 ≤ length rows)%nat.
Proof.
  intros Hsize. cbn [split_at].
  rewrite (proj2 (N.eqb_neq size 0)) by lia. cbn [fst snd].
  split; [done|].
  pose proof (split_at_app (size - 1) rows) as Happ.
  apply (f_equal length) in Happ. rewrite length_app in Happ. lia.
Qed.

Lemma Forall_of_join {A} (P : A → Prop) (ls : list (list A)) :
  Forall P (mjoin ls) → Forall (Forall P) ls.
Proof.
  induction ls as [|l ls IH]; [constructor|].
  change (mjoin (l :: ls)) with (l ++ mjoin ls).
  intros [Hl Hls]%Forall_app. constructor; [done|by apply IH].
Qed.

(** The chunks of some lines are these lines; no chunk is empty, and there
    is one if there is a line. *)
Lemma chunks_from_join size :
  (1 ≤ size)%N →
  ∀ fuel rows, (length rows ≤ fuel)%nat →
    mjoin (chunks_from fuel size rows) = rows
    ∧ Forall (λ chunk, chunk ≠ []) (chunks_from fuel size rows)
    ∧ (rows ≠ [] → chunks_from fuel size rows ≠ []).
Proof.
  intros Hsize. induction fuel as [|fuel IH]; intros rows Hfuel.
  - destruct rows; [by repeat split|cbn in Hfuel; lia].
  - destruct rows as [|row rows]; [by repeat split|]. cbn [chunks_from].
    destruct (split_at_shorter size row rows Hsize) as [Hchunk Hshorter].
    destruct (IH (split_at size (row :: rows)).2) as (Hjoin & Hall & _);
      [cbn [length] in Hfuel; lia|].
    split; [|split; [by constructor|done]].
    change (mjoin (?x :: ?l)) with (x ++ mjoin l).
    by rewrite Hjoin, split_at_app.
Qed.

Lemma column_words_app rows1 rows2 j :
  column_words (rows1 ++ rows2) j = column_words rows1 j ++ column_words rows2 j.
Proof. unfold column_words. by rewrite fmap_app. Qed.

Lemma column_words_join (chunks : list (list (list pystr))) j :
  mjoin ((λ chunk, column_words chunk j) <$> chunks)
  = column_words (mjoin chunks) j.
Proof.
  induction chunks as [|chunk chunks IH]; [done|].
  change (mjoin (chunk :: chunks)) with (chunk ++ mjoin chunks).
  rewrite column_words_app, <- IH. done.
Qed.

(** The words of a column of plain text are its fields. *)
Lemma column_words_text rows j width :
  (j < width)%nat →
  Forall (λ row, length row = width) rows →
  Forall (Forall plain_text) rows →
  column_words rows j = (λ row, default [] (row !! j)) <$> rows
  ∧ Forall plain_text (column_words rows j).
Proof.
  intros Hj Hwidth Hrows. unfold column_words.
  induction Hrows as [|row rows Hrow _ IH]; [by split; [|constructor]|].
  apply Forall_cons in Hwidth as [Hlen Hwidth].
  destruct (IH Hwidth) as [Heq Hplain].
  destruct (lookup_lt_is_Some_2 row j) as [field Hfield]; [lia|].
  assert (Hp : plain_text field).
  { by apply (proj1 (Forall_lookup _ _) Hrow j). }
  cbn [fmap list_fmap]. rewrite Hfield.
  change (default [] (Some field)) with field.
  destruct (plain_text_facts _ Hp) as (-> & _).
  split; [by rewrite Heq|by constructor].
Qed.

(** The columns of a table of plain text: every cell the text of its
    field. *)
Lemma convert_columns_text width rows :
  Forall (λ row, length row = width) rows →
  Forall (Forall plain_text) rows →
  convert_columns width rows
  = (λ j, mkSeries object_ ((λ row, Str (default [] (row !! j))) <$> rows))
      <$> seq 0 width.
Proof.
  intros Hwidth Hrows. unfold convert_columns.
  destruct (chunks_from_join (buffer_lines width) (buffer_lines_positive width)
              (length rows) rows) as (Hjoin & Hchunk & Hne); [done|].
  destruct (chunks_from (length rows) (buffer_lines width) rows)
    as [|chunk chunks] eqn:Hchunks.
  { cbn in Hjoin. by subst rows. }
  apply list_fmap_ext. intros i j Hj%lookup_seq.
  destruct Hj as [-> Hj]. cbn [Nat.add]. rename i into j.
  rewrite <- Hjoin in Hwidth, Hrows.
  apply Forall_of_join in Hwidth, Hrows.
  assert (Hpieces :
            (λ part, _convert_tokens (column_words part j)) <$> chunk :: chunks
            = (λ words, mkSeries object_ (Str <$> words))
                <$> ((λ part, column_words part j) <$> chunk :: chunks)).
  { rewrite <- list_fmap_compose. apply Forall_fmap_ext_1.
    apply Forall_forall. intros part Hpart.
    pose proof (proj1 (Forall_forall _ _) Hchunk part Hpart) as Hne'.
    pose proof (proj1 (Forall_forall _ _) Hwidth part Hpart) as Hw.
    pose proof (proj1 (Forall_forall _ _) Hrows part Hpart) as Hp.
    destruct (column_words_text part j width Hj Hw Hp) as [Heq Hplain].
    cbn. apply convert_tokens_text; [|done].
    rewrite Heq. by destruct part. }
  rewrite Hpieces, concat_compat_text, column_words_join, Hjoin.
  f_equal. rewrite <- Hjoin.
  assert (Hall : Forall (λ row, length row = width) (mjoin (chunk :: chunks))
                 ∧ Forall (Forall plain_text) (mjoin (chunk :: chunks))).
  { split; by apply Forall_join. }
  destruct Hall as [Hw Hp].
  destruct (column_words_text _ j width Hj Hw Hp) as [-> _].
  by rewrite <- list_fmap_compose.
Qed.

Lemma forallb_of_Forall {A} (f : A → bool) (l : list A) :
  Forall (λ x, f x = true) l → forallb f l = true.
Proof. induction 1 as [|x l Hx _ IH]; [done|]. cbn. by rewrite Hx, IH. Qed.

Lemma Forall_of_forallb {A} (f : A → bool) (l : list A) :
  forallb f l = true → Forall (λ x, f x = true) l.
Proof.
  induction l as [|x l IH]; [constructor|]. cbn.
  intros [Hx Hl]%andb_true_iff. constructor; [done|by apply IH].
Qed.

(** Plain text is encoded by UTF-8. *)
Lemma plain_text_encodable field :
  plain_text field → Forall (λ c, encodable c = true) field.
Proof.
  unfold plain_text, is_plain_text. intros [_ Hutf8]%andb_true_iff.
  by apply Forall_of_forallb.
Qed.

Lemma c_str_without_nul name : Forall (λ c, c ≠ 0%N) name → c_str name = name.
Proof.
  induction 1 as [|c name Hc _ IH]; [done|].
  cbn [c_str]. rewrite (proj2 (N.eqb_neq c 0)) by done. by rewrite IH.
Qed.

(** Names that are distinct, not empty and without NUL are kept. *)
Lemma get_header_names header :
  Forall column_name header → NoDup header → _get_header header = header.
Proof.
  intros Hnames Hnodup. unfold _get_header.
  assert (Hc_str : ∀ i name, header !! i = Some name →
                     c_str name = name ∧ name ≠ []).
  { intros i name Hi.
    destruct (proj1 (Forall_lookup _ _) Hnames i name Hi) as [Hne Hnul].
    rewrite c_str_without_nul; [done|].
    eapply Forall_impl; [exact Hnul|]. by intros c [Hc _]. }
  assert (imap (λ i word, match c_str word with
                          | [] => unnamed i
                          | name => name
                          end) header = header) as ->.
  { rewrite <- (list_fmap_id header) at 2. rewrite <- (imap_const id).
    apply imap_ext. intros i name Hi. cbn beta.
    destruct (Hc_str i name Hi) as [Heq Hne]. rewrite Heq. by destruct name. }
  assert (Hnamed : ∀ i, (i < length header)%nat →
                     bool_decide (c_str (default [] (header !! i)) = []) = false).
  { intros i Hi. destruct (lookup_lt_is_Some_2 header i Hi) as [name Hname].
    rewrite Hname. change (default [] (Some name)) with name.
    destruct (Hc_str i name Hname) as [Heq Hne]. rewrite Heq.
    by apply bool_decide_eq_false. }
  assert (filter (λ i, bool_decide (c_str (default [] (header !! i)) = [])
                       = false) (seq 0 (length header))
          = seq 0 (length header)) as ->.
  { generalize (λ i (Hi : i ∈ seq 0 (length header)),
                  Hnamed i (proj2 (proj1 (elem_of_seq _ _ _) Hi))).
    generalize (seq 0 (length header)). clear.
    induction l as [|i l IH]; intros Hall; [done|].
    rewrite filter_cons, decide_True by (apply Hall; by left).
    rewrite IH; [done|]. intros j Hj. apply Hall. by right. }
  assert (filter (λ i, bool_decide (c_str (default [] (header !! i)) = [])
                       = true) (seq 0 (length header)) = []) as ->.
  { generalize (λ i (Hi : i ∈ seq 0 (length header)),
                  Hnamed i (proj2 (proj1 (elem_of_seq _ _ _) Hi))).
    generalize (seq 0 (length header)). clear.
    induction l as [|i l IH]; intros Hall; [done|].
    rewrite filter_cons, decide_False.
    - apply IH. intros j Hj. apply Hall. by right.
    - rewrite Hall by (by left). done. }
  rewrite app_nil_r.
  assert (Hfold : ∀ k, (k ≤ length header)%nat →
            ∃ counts,
              fold_left rename_column (seq 0 k) (header, ∅) = (header, counts)
              ∧ ∀ c, is_Some (counts !! c) → c ∈ take k header).
  { induction k as [|k IH]; intros Hk.
    - exists ∅. split; [done|]. intros c [? Hc]. by rewrite lookup_empty in Hc.
    - destruct IH as (counts & Hrun & Hkeys); [lia|].
      rewrite seq_S, fold_left_app, Hrun. cbn [fold_left Nat.add].
      destruct (lookup_lt_is_Some_2 header k) as [col Hcol]; [lia|].
      unfold rename_column. cbn [fst snd]. rewrite Hcol.
      change (default [] (Some col)) with col.
      assert (Hfresh : counts !! col = None).
      { destruct (counts !! col) eqn:Hin; [|done].
        assert (Htake : col ∈ take k header) by (apply Hkeys; by eexists).
        apply list_elem_of_lookup in Htake as [j Hj].
        pose proof (lookup_lt_Some _ _ _ Hj) as Hlt.
        rewrite length_take in Hlt.
        rewrite lookup_take_lt in Hj by lia.
        pose proof (NoDup_lookup _ _ _ _ Hnodup Hcol Hj). lia. }
      rewrite Hfresh. replace (length header + 2)%nat
        with (S (length header + 1)) by lia.
      cbn [rename_loop default]. rewrite bool_decide_false by lia.
      cbn [fst snd]. rewrite list_insert_id by done.
      eexists. split; [reflexivity|].
      intros c [count Hc]. rewrite (take_S_r _ _ col) by done.
      apply elem_of_app.
      destruct (decide (c = col)) as [->|Hne]; [right; by left|].
      rewrite lookup_insert_ne in Hc by done. left. apply Hkeys. by eexists. }
  destruct (Hfold (length header)) as (counts & -> & _); done.
Qed.

(** The frame of a payload whose tokens are a header of column names and
    rows of plain text, all of the width of the header. *)
Lemma read_csv_table (payload : pystr) header rows :
  Forall (λ c, encodable c = true) payload →
  tokenize_all_rows payload = inr (header :: rows) →
  Forall column_name header → NoDup header →
  Forall (λ row, length row = length header) rows →
  Forall (Forall plain_text) rows →
  read_csv payload = inr (table header rows).
Proof.
  intros Hutf8 Htokens Hnames Hnodup Hwidth Hrows. unfold read_csv, table.
  rewrite (forallb_of_Forall _ _ Hutf8). cbn [negb].
  rewrite Htokens, get_header_names by done.
  assert (Hcount : match rows with
                   | [] => length header
                   | first :: _ => length first
                   end = length header).
  { destruct Hwidth as [|first rows Hfirst _]; [done|]. done. }
  rewrite Hcount, Nat.sub_diag, convert_columns_text by done.
  reflexivity.
Qed.

End Conversion.

(** ** The chunk codec *)

Section Codec.

Import Pandas.

Lemma tokenize_bytes_app self s1 s2 :
  tokenize_bytes self (s1 ++ s2) = tokenize_bytes (tokenize_bytes self s1) s2.
Proof. apply fold_left_app. Qed.

Lemma join_more (sep part : pystr) (parts : list pystr) :
  parts ≠ [] → join sep (part :: parts) = part ++ sep ++ join sep parts.
Proof. by destruct parts. Qed.

(** Inside a quoted field the escaped text of a field and the closing quote
    are read back as the field. *)
Lemma quoted_text_tokens (field : pystr) :
  ∀ self, state self = IN_QUOTED_FIELD →
    tokenize_bytes self (replace_quote field ++ [QUOTE]) =
      {| state := QUOTE_IN_QUOTED_FIELD; stream := rev field ++ stream self;
         line := line self; lines := lines self; blanks := blanks self |}.
Proof.
  induction field as [|c field IH]; intros [st sm ln lns bl] Hst;
    cbn in Hst; subst st.
  - reflexivity.
  - cbn [replace_quote]. destruct (N.eqb c QUOTE) eqn:Hc.
    + apply N.eqb_eq in Hc. subst c.
      cbn [app tokenize_bytes fold_left]. unfold step at 2. cbn [state].
      change (N.eqb QUOTE QUOTE) with true. cbv iota.
      unfold step at 2. cbn [state set_state].
      change (N.eqb QUOTE QUOTE) with true. cbv iota.
      cbn [set_state push_char state stream line lines blanks].
      change (fold_left step ?s ?p) with (tokenize_bytes p s).
      rewrite IH by done. cbn [rev stream line lines blanks].
      by rewrite <- app_assoc.
    + cbn [app tokenize_bytes fold_left]. unfold step at 2. cbn [state].
      rewrite Hc. cbn [push_char state stream line lines blanks].
      change (fold_left step ?s ?p) with (tokenize_bytes p s).
      rewrite IH by done. cbn [rev stream line lines blanks].
      by rewrite <- app_assoc.
Qed.

(** A quoted field read where a field may start. *)
Lemma quote_field_tokens (field : pystr) (st : ParserState) ln lns :
  st = START_RECORD ∨ st = START_FIELD →
  tokenize_bytes {| state := st; stream := []; line := ln; lines := lns;
                    blanks := [] |} (quote_field field) =
    {| state := QUOTE_IN_QUOTED_FIELD; stream := rev field; line := ln;
       lines := lns; blanks := [] |}.
Proof.
  intros Hst. unfold quote_field. cbn [app tokenize_bytes fold_left].
  change (fold_left step ?s ?p) with (tokenize_bytes p s).
  replace (step {| state := st; stream := []; line := ln; lines := lns;
                   blanks := [] |} QUOTE)
    with {| state := IN_QUOTED_FIELD; stream := []; line := ln; lines := lns;
            blanks := [] |} by (by destruct Hst as [-> | ->]).
  rewrite quoted_text_tokens by done. cbn. by rewrite app_nil_r.
Qed.

(** A line of quoted fields read where a record may start. *)
Lemma quoted_row_tokens (tokens : list pystr) :
  ∀ (last : pystr) (st : ParserState) ln lns,
    st = START_RECORD ∨ st = START_FIELD →
    tokenize_bytes {| state := st; stream := []; line := ln; lines := lns;
                      blanks := [] |} (quoted_row (tokens ++ [last])) =
      {| state := QUOTE_IN_QUOTED_FIELD; stream := rev last;
         line := rev tokens ++ ln; lines := lns; blanks := [] |}.
Proof.
  induction tokens as [|token tokens IH]; intros last st ln lns Hst.
  - cbn. by apply quote_field_tokens.
  - unfold quoted_row. cbn [app fmap list_fmap].
    rewrite join_more by (by destruct tokens).
    rewrite tokenize_bytes_app, quote_field_tokens by done.
    cbn [app tokenize_bytes fold_left].
    change (fold_left step ?s ?p) with (tokenize_bytes p s).
    change (step _ COMMA)
      with {| state := START_FIELD; stream := []; line := rev (rev token) :: ln;
              lines := lns; blanks := [] |}.
    rewrite rev_involutive.
    fold (quoted_row (tokens ++ [last])). rewrite IH by auto.
    cbn [rev]. by rewrite <- app_assoc.
Qed.

Lemma row_tokens accepted tokens last :
  tokenize_bytes (at_start accepted) (quoted_row (tokens ++ [last]))
  = pending accepted tokens last.
Proof.
  unfold at_start, pending. rewrite quoted_row_tokens by auto.
  by rewrite app_nil_r.
Qed.

(** The newline after a line of quoted fields ends the line. *)
Lemma pending_newline accepted tokens last :
  step (pending accepted tokens last) LF
  = at_start (accept_line accepted (tokens ++ [last])).
Proof.
  unfold pending, at_start, step. cbn [state]. cbv beta iota.
  change (N.eqb LF QUOTE) with false. change (N.eqb LF COMMA) with false.
  change (N.eqb LF LF) with true. cbv iota.
  unfold end_line, end_field. cbn [state stream line lines blanks rev].
  by rewrite !rev_involutive.
Qed.

(** So does the end of the text. *)
Lemma pending_eof accepted tokens last :
  parser_handle_eof (pending accepted tokens last)
  = inr (at_start (accept_line accepted (tokens ++ [last]))).
Proof.
  unfold pending, at_start, parser_handle_eof. cbn [state].
  unfold end_line, end_field. cbn [state stream line lines blanks rev].
  by rewrite !rev_involutive.
Qed.

Lemma snoc_of_nonempty {A} (l : list A) :
  l ≠ [] → ∃ front last, l = front ++ [last].
Proof.
  intros Hne. induction l as [|last front _] using rev_ind; [done|].
  by exists front, last.
Qed.

(** The lines of a payload after its header: each ends at the newline that
    follows it or at the end of the text, and [accept_line] decides whether
    it is kept. *)
Lemma rows_tokens (rows : list (list pystr)) :
  ∀ accepted, Forall (λ row, row ≠ []) rows →
    let self := tokenize_bytes (at_start accepted)
                  (join [LF] (quoted_row <$> rows)) in
    parser_handle_eof self = inr (at_start (fold_left accept_line rows accepted))
    ∧ step self LF = at_start (fold_left accept_line rows accepted).
Proof.
  induction rows as [|row rows IH]; intros accepted Hne; [done|].
  apply Forall_cons in Hne as [Hrow Hrows].
  destruct (snoc_of_nonempty row Hrow) as (tokens & last & ->).
  destruct rows as [|row' rows].
  - cbn [fmap list_fmap join fold_left]. rewrite row_tokens.
    split; [apply pending_eof|apply pending_newline].
  - cbn [fmap list_fmap]. rewrite join_more by done.
    cbn zeta. rewrite !tokenize_bytes_app, row_tokens.
    cbn [tokenize_bytes fold_left]. rewrite pending_newline.
    apply (IH _ Hrows).
Qed.

(** The lines the tokenizer keeps for an encoded payload. *)
Lemma encode_tokens (header : list pystr) (rows : list (list pystr)) :
  header ≠ [] → Forall (λ row, row ≠ []) rows →
  tokenize_all_rows (encode header rows)
  = inr (rev (fold_left accept_line rows [header])).
Proof.
  intros Hheader Hrows.
  destruct (snoc_of_nonempty header Hheader) as (tokens & last & ->).
  unfold tokenize_all_rows, encode, chunk_data, header_str.
  rewrite !tokenize_bytes_app. change parser_new with (at_start []).
  rewrite row_tokens. cbn [tokenize_bytes fold_left]. rewrite pending_newline.
  destruct (rows_tokens rows [tokens ++ [last]] Hrows) as [Heof _].
  cbn zeta in Heof. cbn [accept_line]. by rewrite Heof.
Qed.

(** A line as wide as the line kept before it is kept as it is. *)
Lemma accept_line_same_width previous accepted tokens :
  length tokens = length previous →
  accept_line (previous :: accepted) tokens = tokens :: previous :: accepted.
Proof.
  intros Hlen. unfold accept_line. rewrite bool_decide_false by lia.
  by rewrite Hlen, Nat.sub_diag, app_nil_r.
Qed.

Lemma fold_accept_same_width (rows : list (list pystr)) (width : nat) :
  ∀ previous accepted,
    length previous = width →
    Forall (λ row, length row = width) rows →
    fold_left accept_line rows (previous :: accepted)
    = rev rows ++ previous :: accepted.
Proof.
  induction rows as [|row rows IH]; intros previous accepted Hprev Hrows;
    [done|].
  apply Forall_cons in Hrows as [Hrow Hrows].
  cbn [fold_left]. rewrite accept_line_same_width by congruence.
  rewrite IH by done. cbn [rev]. by rewrite <- app_assoc.
Qed.


Lemma nonempty_of_width {A} (header row : list A) :
  header ≠ [] → length row = length header → row ≠ [].
Proof. intros Hheader Hlen ->. by destruct header. Qed.

(** The tokens of an encoded table are the table. *)
Lemma encode_tokens_table (header : list pystr) (rows : list (list pystr)) :
  header ≠ [] →
  Forall (λ row, length row = length header) rows →
  tokenize_all_rows (encode header rows) = inr (header :: rows).
Proof.
  intros Hheader Hrows. rewrite encode_tokens; [|done|].
  - rewrite (fold_accept_same_width rows (length header)) by done.
    by rewrite rev_app_distr, rev_involutive.
  - eapply Forall_impl; [exact Hrows|]. intros row. by apply nonempty_of_width.
Qed.

(** What holds of the quote, the comma, the newline and every character of
    the fields holds of every character of the payload. *)
Lemma Forall_join_chars (P : N → Prop) (sep : pystr) (parts : list pystr) :
  Forall P sep → Forall (Forall P) parts → Forall P (join sep parts).
Proof.
  intros Hsep. induction 1 as [|part parts Hpart Hparts IH]; [constructor|].
  destruct parts as [|part' parts]; [exact Hpart|].
  rewrite join_more by done. apply Forall_app. split; [exact Hpart|].
  apply Forall_app. by split.
Qed.

Lemma Forall_replace_quote (P : N → Prop) (field : pystr) :
  P QUOTE → Forall P field → Forall P (replace_quote field).
Proof.
  intros Hquote. induction 1 as [|c field Hc _ IH]; [constructor|].
  cbn [replace_quote]. destruct (N.eqb c QUOTE); repeat constructor; done.
Qed.

Lemma Forall_quoted_row (P : N → Prop) (row : list pystr) :
  P QUOTE → P COMMA → Forall (Forall P) row → Forall P (quoted_row row).
Proof.
  intros Hquote Hcomma Hrow. unfold quoted_row.
  apply Forall_join_chars; [by repeat constructor|].
  apply Forall_fmap. eapply Forall_impl; [exact Hrow|].
  intros field Hfield. unfold quote_field. cbn.
  constructor; [done|]. apply Forall_app.
  split; [by apply Forall_replace_quote|by repeat constructor].
Qed.

Lemma Forall_encode (P : N → Prop) header (rows : list (list pystr)) :
  P QUOTE → P COMMA → P LF →
  Forall (Forall P) header → Forall (Forall (Forall P)) rows →
  Forall P (encode header rows).
Proof.
  intros Hquote Hcomma Hlf Hheader Hrows.
  unfold encode, chunk_data, header_str. apply Forall_app. split.
  - apply Forall_app. split; [by apply Forall_quoted_row|by repeat constructor].
  - apply Forall_join_chars; [by repeat constructor|].
    apply Forall_fmap. eapply Forall_impl; [exact Hrows|].
    intros row Hrow. by apply Forall_quoted_row.
Qed.

Lemma column_names_encodable header :
  Forall column_name header →
  Forall (Forall (λ c, encodable c = true)) header.
Proof.
  intros Hnames. eapply Forall_impl; [exact Hnames|]. intros name [_ Hname].
  eapply Forall_impl; [exact Hname|]. by intros c [_ Hc].
Qed.

Lemma plain_rows_encodable (rows : list (list pystr)) :
  Forall (Forall plain_text) rows →
  Forall (Forall (Forall (λ c, encodable c = true))) rows.
Proof.
  intros Hrows. eapply Forall_impl; [exact Hrows|]. intros row Hrow.
  eapply Forall_impl; [exact Hrow|]. apply plain_text_encodable.
Qed.

(** The round trip of the codec, whether or not a field holds a line
    break. *)
Lemma encode_read_csv (header : list pystr) (rows : list (list pystr)) :
  header ≠ [] → NoDup header → Forall column_name header →
  Forall (λ row, length row = length header) rows →
  Forall (Forall plain_text) rows →
  read_csv (encode header rows) = inr (table header rows).
Proof.
  intros Hheader Hnodup Hnames Hwidth Hrows.
  apply read_csv_table; try done.
  - apply Forall_encode; try done;
      [by apply column_names_encodable|by apply plain_rows_encodable].
  - by apply encode_tokens_table.
Qed.




End Codec.

(** ** Concatenation of the fragments of one table *)

Section Concat.

Import Pandas.

Lemma add_new_columns (cols : list pystr) :
  ∀ acc, NoDup (acc ++ cols) → fold_left add_column cols acc = acc ++ cols.
Proof.
  induction cols as [|c cols IH]; intros acc Hnodup.
  - by rewrite app_nil_r.
  - cbn [fold_left]. unfold add_column at 2.
    apply NoDup_app in Hnodup as (Hacc & Hfresh & Hcols).
    rewrite bool_decide_false.
    2:{ intros Hin. apply (Hfresh c Hin). apply elem_of_cons. by left. }
    rewrite IH, <- app_assoc; [done|].
    rewrite <- app_assoc. cbn [app]. apply NoDup_app. by repeat split.
Qed.

Lemma add_known_columns (cols : list pystr) :
  ∀ acc, (∀ c, c ∈ cols → c ∈ acc) → fold_left add_column cols acc = acc.
Proof.
  induction cols as [|c cols IH]; intros acc Hknown; [done|].
  cbn [fold_left]. unfold add_column at 2.
  rewrite bool_decide_true by (apply Hknown, elem_of_cons; by left).
  apply IH. intros c' Hc'. apply Hknown, elem_of_cons. by right.
Qed.

Lemma union_columns_tables header (fragments : list (list (list pystr))) :
  NoDup header → fragments ≠ [] →
  union_columns (table header <$> fragments) = header.
Proof.
  intros Hnodup Hne. unfold union_columns.
  destruct fragments as [|rows fragments]; [done|].
  cbn [fmap list_fmap]. change (mjoin (?x :: ?l)) with (x ++ mjoin l).
  cbn [columns table].
  rewrite fold_left_app. rewrite (add_new_columns header []) by done.
  cbn [app].
  apply add_known_columns. intros c Hc.
  induction fragments as [|rows' fragments IH]; [by apply elem_of_nil in Hc|].
  cbn [fmap list_fmap] in Hc.
  change (mjoin (?x :: ?l)) with (x ++ mjoin l) in Hc. cbn [columns table] in Hc.
  apply elem_of_app in Hc as [Hc|Hc]; [done|by apply IH].
Qed.

(** The column of a table under one of its names. *)
Lemma reindex_table header rows (j : nat) (c : pystr) :
  NoDup header → header !! j = Some c →
  reindex (table header rows) c
  = mkSeries object_ (Str <$> ((λ row, default [] (row !! j)) <$> rows)).
Proof.
  intros Hnodup Hc. unfold reindex. cbn [columns table values].
  assert (list_find (λ c', c' = c) header = Some (j, c)) as ->.
  { apply list_find_Some. split; [done|]. split; [done|].
    intros i c' Hi Hlt ->. pose proof (NoDup_lookup _ _ _ _ Hnodup Hc Hi). lia. }
  rewrite list_lookup_fmap, lookup_seq_lt by (by eapply lookup_lt_Some).
  cbn. by rewrite <- list_fmap_compose.
Qed.

Lemma join_of_fmap {A B} (f : A → B) (ls : list (list A)) :
  mjoin ((λ l, f <$> l) <$> ls) = f <$> mjoin ls.
Proof.
  induction ls as [|l ls IH]; [done|]. cbn [fmap list_fmap].
  change (mjoin (?x :: ?l)) with (x ++ mjoin l).
  by rewrite fmap_app, <- IH.
Qed.

(** [pd.concat] of the fragments of one table, all under the same header of
    distinct names: the rows of the fragments one after the other. *)
Lemma concat_tables header (fragments : list (list (list pystr))) :
  NoDup header → fragments ≠ [] →
  concat (table header <$> fragments) = table header (mjoin fragments).
Proof.
  intros Hnodup Hne. unfold concat.
  rewrite union_columns_tables by done.
  unfold table at 2. f_equal.
  apply list_eq. intros j. rewrite !list_lookup_fmap.
  destruct (header !! j) as [c|] eqn:Hc.
  - rewrite lookup_seq_lt by (by eapply lookup_lt_Some). cbn [fmap option_fmap option_map].
    f_equal. rewrite <- list_fmap_compose.
    transitivity
      (concat_compat
         ((λ words, mkSeries object_ (Str <$> words))
            <$> ((λ rows, (λ row : list pystr, default [] (row !! j)) <$> rows)
                   <$> fragments))).
    { f_equal. rewrite <- list_fmap_compose. apply list_fmap_ext.
      intros ? rows _. cbn. by apply reindex_table. }
    rewrite concat_compat_text, join_of_fmap.
    by rewrite <- list_fmap_compose.
  - apply lookup_ge_None in Hc.
    by rewrite (proj2 (lookup_ge_None (seq 0 (length header)) j))
      by (rewrite length_seq; lia).
Qed.

End Concat.

(** ** Lines and rows of a chunk *)

Section ChunkLines.

Lemma splitlines_from_line (line : pystr) :
  ∀ cur rest, one_line line →
    splitlines_from cur (line ++ LF :: rest)
    = (rev cur ++ line) :: splitlines_from [] rest.
Proof.
  induction line as [|c line IH]; intros cur rest Hline.
  - cbn. by rewrite app_nil_r.
  - apply Forall_cons in Hline as [Hc Hline].
    cbn [app splitlines_from]. rewrite Hc.
    assert (N.eqb c CR = false) as ->.
    { unfold is_linebreak in Hc. repeat (apply orb_false_elim in Hc as [Hc ?]).
      done. }
    rewrite IH by done. cbn [rev]. by rewrite <- app_assoc.
Qed.

Lemma splitlines_from_last (line : pystr) :
  ∀ cur, one_line line → line ≠ [] →
    splitlines_from cur line = [rev cur ++ line].
Proof.
  induction line as [|c line IH]; intros cur Hline Hne; [done|].
  apply Forall_cons in Hline as [Hc Hline].
  cbn [splitlines_from]. rewrite Hc.
  assert (N.eqb c CR = false) as ->.
  { unfold is_linebreak in Hc. repeat (apply orb_false_elim in Hc as [Hc ?]).
    done. }
  destruct line as [|c' line]; [done|].
  rewrite IH by done. cbn [rev]. by rewrite <- app_assoc.
Qed.

Lemma one_line_replace_quote (field : pystr) :
  one_line field → one_line (replace_quote field).
Proof.
  induction 1 as [|c field Hc _ IH]; [constructor|].
  cbn [replace_quote]. destruct (N.eqb c QUOTE); repeat constructor; done.
Qed.

Lemma one_line_quoted_row (row : list pystr) :
  Forall one_line row → one_line (quoted_row row).
Proof.
  unfold quoted_row.
  induction 1 as [|field row Hfield Hrow IH]; [constructor|].
  assert (Hq : one_line (quote_field field)).
  { unfold quote_field. apply Forall_app. split; [by repeat constructor|].
    apply Forall_app. split; [by apply one_line_replace_quote|].
    by repeat constructor. }
  cbn [fmap list_fmap]. destruct row as [|field' row]; [exact Hq|].
  rewrite join_more by done. apply Forall_app. split; [exact Hq|].
  apply Forall_app. split; [by repeat constructor|exact IH].
Qed.

Lemma quoted_row_nonempty (row : list pystr) : row ≠ [] → quoted_row row ≠ [].
Proof. by destruct row as [|field [|field' row]]. Qed.

(** The lines of the joined rows of a chunk: one a row, when no field holds
    a line break and the last row has a field. *)
Lemma splitlines_rows (rows : list (list pystr)) :
  Forall (Forall one_line) rows →
  (∀ row, last rows = Some row → row ≠ []) →
  length (splitlines_from [] (join [LF] (quoted_row <$> rows))) = length rows.
Proof.
  induction rows as [|row rows IH]; intros Hfields Hlast; [done|].
  apply Forall_cons in Hfields as [Hrow Hrows].
  destruct rows as [|row' rows].
  - cbn [fmap list_fmap join].
    rewrite splitlines_from_last;
      [done|by apply one_line_quoted_row|apply quoted_row_nonempty; by apply Hlast].
  - cbn [fmap list_fmap]. rewrite join_more by done.
    cbn [app]. rewrite splitlines_from_line by by apply one_line_quoted_row.
    cbn [length]. f_equal. apply IH; [done|].
    intros r Hr. by apply Hlast.
Qed.

(** The number [_upload_chunk] adds to the progress bar is the number of
    rows of the chunk, when no field of the header or of a row holds a line
    break and the last row has a field. *)
Lemma chunk_line_count (header : list pystr) (rows : list (list pystr)) :
  Forall one_line header →
  Forall (Forall one_line) rows →
  (∀ row, last rows = Some row → row ≠ []) →
  Z.of_nat (length (splitlines (encode header rows))) - 1
  = Z.of_nat (length rows).
Proof.
  intros Hheader Hrows Hlast.
  unfold splitlines, encode, chunk_data, header_str.
  rewrite <- app_assoc. cbn [app].
  rewrite splitlines_from_line by by apply one_line_quoted_row.
  cbn [length]. rewrite splitlines_rows by done. lia.
Qed.

End ChunkLines.

Section UploadChunk.

Variable net : nat → Request → net_error + Response.
Variable _api_url : pystr.

(** X23.  [_upload_chunk] posts one request: the form fields [dataset_id]
    and [chunk_number] and the part [data_file] with the file name and the
    chunk.  Answered with status 200 it advances the progress bar by the
    number of lines of [chunk_data] less one and prints nothing; answered
    with any other status it leaves the bar as it was and prints that the
    chunk failed; in both cases it returns normally.  The number of lines
    less one is the number of rows of the chunk when no field of the header
    or of a row holds a line break and the last row has a field. *)
Theorem upload_chunk_progress (chunk : pystr) (chunk_number : Z)
    (file_name dataset_id : pystr) (w : World) :
  let req : Request :=
    {| method := POST; url := _api_url ++ str "/upload-dataset";
       headers := None; params := [];
       data := Form [(str "dataset_id", JStr dataset_id);
                     (str "chunk_number", JInt chunk_number)];
       files := [(str "data_file", (file_name, chunk))] |} in
  let run := _upload_chunk net _api_url chunk chunk_number file_name dataset_id w in
  (∀ resp, net (length (sent w)) req = inr resp → status_code resp = 200 →
     run = (inr tt,
            mkWorld (sent w ++ [req]) (slept w)
              (mkTqdm (total (pbar w))
                 (n (pbar w) + (Z.of_nat (length (splitlines chunk)) - 1))
                 (closed (pbar w)))
              (printed w) (heap w)))
  ∧ (∀ resp, net (length (sent w)) req = inr resp → status_code resp ≠ 200 →
       run = (inr tt,
              mkWorld (sent w ++ [req]) (slept w) (pbar w)
                (printed w ++ [ChunkFailed chunk_number (status_code resp)])
                (heap w)))
  ∧ (∀ (header : list pystr) (rows : list (list pystr)),
       Forall one_line header →
       Forall (Forall one_line) rows →
       (∀ row, last rows = Some row → row ≠ []) →
       Z.of_nat (length (splitlines (encode header rows))) - 1
       = Z.of_nat (length rows)).
Proof.
  intros req run. split; [|split].
  - intros resp Hnet Hstatus. subst run req.
    rewrite (upload_chunk_run net _api_url _ _ _ _ _ resp Hnet).
    unfold chunk_answered. by rewrite Hstatus.
  - intros resp Hnet Hstatus. subst run req.
    rewrite (upload_chunk_run net _api_url _ _ _ _ _ resp Hnet).
    unfold chunk_answered. by rewrite (proj2 (Z.eqb_neq _ _) Hstatus).
  - apply chunk_line_count.
Qed.

End UploadChunk.

(** [upload_dataset] does not read its argument [file_name]: the name is
    overwritten with that of the opened file before any chunk is sent. *)
Lemma upload_dataset_ignores_file_name net fs path_name _api_url file_path
    dataset_id (file_name file_name' : pystr) rows_per_chunk :
  upload_dataset net fs path_name _api_url file_path dataset_id file_name
    rows_per_chunk
  = upload_dataset net fs path_name _api_url file_path dataset_id file_name'
      rows_per_chunk.
Proof. reflexivity. Qed.

(** ** The claims at concrete inputs *)

(** C9 at a concrete input.  [upload_dataset] is called on the file
    [/tmp/data.csv] with the argument [file_name = mydata.csv]; the one
    chunk it sends names its [data_file] part after the path of the file,
    not after the argument. *)
Theorem upload_names_part_after_path :
  let run :=
    upload_dataset (answering Example.all_ok)
      (λ _, Some Example.three_rows) id Example.api_url
      (str "/tmp/data.csv") (str "ds1") (str "mydata.csv") 100 Example.world0 in
  run.1 = inr tt
  ∧ files <$> sent run.2
    = [[(str "data_file",
         (str "/tmp/data.csv",
          encode [str "a"] [[str "x"]; [str "y"]; [str "z"]]))]]
  ∧ str "/tmp/data.csv" ≠ str "mydata.csv".
Proof. vm_compute. repeat split; discriminate. Qed.


(** Rows that do not have the width of the header do not come back either.
    A row without fields is written as an empty line, which the reader
    skips; a row shorter than the header comes back filled up with missing
    values; a first row longer than the header comes back with its first
    field as index; and without a header the first row is taken for it. *)
Lemma ragged_rows_are_reshaped :
  let a := str "a" in
  let text word := Pandas.mkSeries Pandas.object_ [Pandas.Str (str word)] in
  Pandas.read_csv (encode [a] [[]]) = inr (Pandas.table [a] [])
  ∧ Pandas.table [a] [] ≠ Pandas.table [a] [[]]
  ∧ Pandas.read_csv (encode [a; str "b"] [[str "x"]])
    = inr (Pandas.mkFrame [a; str "b"] []
             [text "x"; Pandas.mkSeries Pandas.float64 [Pandas.NaN]])
  ∧ Pandas.read_csv (encode [a] [[str "x"; str "y"]])
    = inr (Pandas.mkFrame [a] [text "x"] [text "y"])
  ∧ Pandas.read_csv (encode [] [[str "x"]]) = inr (Pandas.table [str "x"] []).
Proof. vm_compute. repeat split; discriminate. Qed.

(** C2 fails as stated.  The file of [Example.three_rows] has three data
    rows; with a window of one row three chunks are due.  Under a transport
    that answers the first submission and loses the second, the upload ends
    with the exception of the transport after two submissions, numbered 1
    and 2: the third chunk is never submitted. *)
Lemma upload_stops_without_response :
  let run :=
    upload_dataset Example.drops_second
      (λ _, Some Example.three_rows) id Example.api_url
      (str "/tmp/data.csv") (str "ds1") (str "data.csv") 1 Example.world0 in
  let form (chunk_number : Z) :=
    Form [(str "dataset_id", JStr (str "ds1"));
          (str "chunk_number", JInt chunk_number)] in
  Csv.reader (file_lines Example.three_rows)
  = ([[str "a"]; [str "x"]; [str "y"]; [str "z"]], None)
  ∧ (3 + 1 - 1) / 1 = 3
  ∧ run.1 = inl (RequestException TimedOut)
  ∧ data <$> sent run.2 = [form 1; form 2].
Proof. vm_compute. repeat split. Qed.


(** C3 at a concrete input.  In the file of [Example.two_line_field] the
    pre-scan counts four lines and sets the total of the progress bar to
    three rows; the reader finds two data rows, the first with a line break
    in its field, and the one chunk submitted carries these two. *)
Theorem prescan_counts_lines_not_rows :
  let run :=
    upload_dataset (answering Example.all_ok)
      (λ _, Some Example.two_line_field) id Example.api_url
      (str "/tmp/data.csv") (str "ds1") (str "data.csv") 100 Example.world0 in
  let rows := [[str "x" ++ [LF] ++ str "y"]; []] in
  length (file_lines Example.two_line_field) = 4%nat
  ∧ Csv.reader (file_lines Example.two_line_field) = ([str "a"] :: rows, None)
  ∧ run.1 = inr tt
  ∧ files <$> sent run.2
    = [[(str "data_file",
         (str "/tmp/data.csv",
          [QUOTE] ++ str "a" ++ [QUOTE; LF; QUOTE] ++ str "x" ++ [LF]
          ++ str "y" ++ [QUOTE; LF]))]]
  ∧ length rows = 2%nat
  ∧ total (pbar run.2) = 3.
Proof. vm_compute. repeat split. Qed.

(** C7 at a concrete input.  The file of [Example.quoted_line_break] holds
    one data row, whose field holds a line break.  The one chunk submitted
    carries this row, in three lines; answered with status 200 it advances
    the progress bar by two. *)
Theorem progress_counts_lines_not_rows :
  let run :=
    upload_dataset (answering Example.all_ok)
      (λ _, Some Example.quoted_line_break) id Example.api_url
      (str "/tmp/data.csv") (str "ds1") (str "data.csv") 100 Example.world0 in
  let rows := [[str "x" ++ [LF] ++ str "y"]] in
  let chunk :=
    [QUOTE] ++ str "a" ++ [QUOTE; LF; QUOTE] ++ str "x" ++ [LF] ++ str "y"
    ++ [QUOTE] in
  Csv.reader (file_lines Example.quoted_line_break) = ([str "a"] :: rows, None)
  ∧ run.1 = inr tt
  ∧ files <$> sent run.2 = [[(str "data_file", (str "/tmp/data.csv", chunk))]]
  ∧ chunk = encode [str "a"] rows
  ∧ length rows = 1%nat
  ∧ Z.of_nat (length (splitlines chunk)) - 1 = 2
  ∧ n (pbar run.2) = 2.
Proof. vm_compute. repeat split. Qed.

(** *** Instances of the theorems that have hypotheses *)

Lemma populate_headers_keeps_base_witness :
  heap Example.world0 !! 0%nat = Some Example.base_headers
  ∧ ∃ copy w',
      _popuate_headers_with_api_key ∅ 0 (Some (str "key-1")) Example.world0
        = (inr copy, w')
      ∧ heap w' !! 0%nat = Some Example.base_headers
      ∧ heap w' !! copy
        = Some (<[X_API_KEY := Some (str "key-1")]> Example.base_headers).
Proof.
  split; [reflexivity|].
  destruct (populate_headers_keeps_base ∅ 0 (Some (str "key-1")) None
              Example.world0 Example.base_headers eq_refl)
    as (copy & w' & Hrun & Hbase & _ & Hcopy & _).
  exists copy, w'. split; [exact Hrun|]. split; [exact Hbase|exact Hcopy].
Defined.

Lemma query_retry_bound_witness :
  ok (Example.status 503) = false ∧ ok Example.found = true
  ∧ ∃ result w',
      _query Example.flaky ∅ ∅ Example.api_url 0 (str "c1") (JArr []) 10
        JNull JNull JNull JNull None Example.world0 = (inr result, w')
      ∧ ids result = JArr [JArr [JStr (str "id1")]]
      ∧ length (sent w') = 3%nat
      ∧ slept w' = [1; 1].
Proof.
  split; [reflexivity|]. split; [reflexivity|].
  destruct (query_retry_bound Example.flaky ∅ ∅ Example.api_url 0 (str "c1")
              (JArr []) 10 JNull JNull JNull JNull None Example.world0
              Example.base_headers (Example.status 503) (Example.status 503)
              Example.found eq_refl eq_refl eq_refl eq_refl eq_refl eq_refl)
    as (_ & Hfound & _).
  specialize (Hfound eq_refl _ _ eq_refl eq_refl).
  eexists _, _. split; [exact Hfound|]. repeat split.
Defined.


Lemma load_dataset_all_or_nothing_witness :
  (∃ e, (load_dataset (λ _ _, inr (Example.status 500)) ∅ Example.api_url 0
           Pandas.read_csv Pandas.concat Pandas.DataFrame_empty (str "ds1")
           Example.world0).1 = inl e)
  ∧ ∃ e w',
      load_dataset Example.second_chunk_fails ∅ Example.api_url 0
        Pandas.read_csv Pandas.concat Pandas.DataFrame_empty (str "ds1")
        Example.world0 = (inl e, w')
      ∧ (length (sent w') ≤ 3)%nat.
Proof.
  split.
  - destruct (load_dataset_all_or_nothing (λ _ _, inr (Example.status 500)) ∅
                Example.api_url 0 Pandas.read_csv Pandas.concat
                Pandas.DataFrame_empty (str "ds1") Example.world0
                Example.base_headers eq_refl) as [Hinfo _].
    destruct (Hinfo eq_refl) as [e Hrun]. exists e. by rewrite Hrun.
  - destruct (load_dataset_all_or_nothing Example.second_chunk_fails ∅
                Example.api_url 0 Pandas.read_csv Pandas.concat
                Pandas.DataFrame_empty (str "ds1") Example.world0
                Example.base_headers eq_refl) as [_ Hchunk].
    destruct (Hchunk Example.info_two [(str "total_chunks", JInt 2)] 2 2
                eq_refl eq_refl eq_refl eq_refl ltac:(lia) eq_refl)
      as (e & k & Hk & Hrun).
    exists e. eexists. split; [exact Hrun|].
    cbn [sent]. rewrite length_app, length_cons, length_fmap, length_seqZ.
    cbn [sent Example.world0 length]. lia.
Defined.

Lemma upload_chunking_witness :
  ∃ w' wins,
    upload_dataset (answering Example.all_ok) (λ _, Some Example.three_rows) id
      Example.api_url (str "/tmp/data.csv") (str "ds1") (str "data.csv") 2
      Example.world0 = (inr tt, w')
    ∧ length (sent w') = length wins
    ∧ mjoin wins = [[str "x"]; [str "y"]; [str "z"]]
    ∧ Z.of_nat (length wins) = 2.
Proof.
  destruct (upload_chunking Example.all_ok (λ _, Some Example.three_rows) id
              Example.api_url [str "a"] (str "ds1") 2 (str "/tmp/data.csv")
              (str "data.csv") Example.three_rows
              [[str "x"]; [str "y"]; [str "z"]] Example.world0)
    as (w' & wins & Hrun & Hsent & Hjoin & Hlen & _);
    [lia|reflexivity|vm_compute; reflexivity|].
  exists w', wins. split; [exact Hrun|].
  split; [rewrite Hsent; apply length_imap|]. split; [exact Hjoin|exact Hlen].
Defined.

Lemma upload_rows_equal_prescan_witness :
  ∃ w' header wins,
    upload_dataset (answering Example.all_ok) (λ _, Some Example.three_rows) id
      Example.api_url (str "/tmp/data.csv") (str "ds1") (str "data.csv") 2
      Example.world0 = (inr tt, w')
    ∧ Csv.reader (file_lines Example.three_rows) = (header :: mjoin wins, None)
    ∧ Z.of_nat (length (mjoin wins)) = 3.
Proof.
  destruct (upload_rows_equal_prescan Example.all_ok
              (λ _, Some Example.three_rows) id Example.api_url (str "ds1") 2
              (str "/tmp/data.csv") (str "data.csv") Example.three_rows
              Example.world0)
    as (w' & header & wins & Hrun & Hreader & _ & Hrows & Htotal);
    [reflexivity|discriminate|vm_compute; repeat constructor|].
  exists w', header, wins. split; [exact Hrun|]. split; [exact Hreader|].
  rewrite Hrows, Htotal. reflexivity.
Defined.

Lemma upload_chunk_progress_witness :
  (_upload_chunk (answering Example.all_ok) Example.api_url
     (encode [str "a"] [[str "x"]; [str "y"]]) 1 (str "data.csv") (str "ds1")
     Example.world0).2.(pbar).(n) = 2
  ∧ (_upload_chunk (answering (λ _ _, Example.status 500)) Example.api_url
       (encode [str "a"] [[str "x"]; [str "y"]]) 1 (str "data.csv") (str "ds1")
       Example.world0).2.(printed) = [ChunkFailed 1 500]
  ∧ Z.of_nat (length (splitlines (encode [str "a"] [[str "x"]; [str "y"]]))) - 1
    = 2.
Proof.
  split; [|split].
  - destruct (upload_chunk_progress (answering Example.all_ok) Example.api_url
                (encode [str "a"] [[str "x"]; [str "y"]]) 1 (str "data.csv")
                (str "ds1") Example.world0) as (Hok & _ & _).
    rewrite (Hok (Example.status 200) eq_refl eq_refl). reflexivity.
  - destruct (upload_chunk_progress (answering (λ _ _, Example.status 500))
                Example.api_url (encode [str "a"] [[str "x"]; [str "y"]]) 1
                (str "data.csv") (str "ds1") Example.world0) as (_ & Hfail & _).
    rewrite (Hfail (Example.status 500) eq_refl ltac:(discriminate)).
    reflexivity.
  - destruct (upload_chunk_progress (answering Example.all_ok) Example.api_url
                [] 1 (str "data.csv") (str "ds1") Example.world0)
      as (_ & _ & Hlines).
    apply (Hlines [str "a"] [[str "x"]; [str "y"]]).
    + repeat constructor.
    + repeat constructor.
    + intros row [= <-]. discriminate.
Defined.



(** * Further properties of the client *)

(** ** Credentials *)

Section Credentials.

Variable environ : gmap pystr pystr.
Variable __headers : nat.

(** X1.  [_extract_user_id_and_api_key] never replaces what the caller gave:
    a key that is not [None] and a user id other than the default tenant come
    back as they are.  Where the caller gave none, the environment is taken:
    for the key [None] the result is what [BAGEL_API_KEY] holds (still
    [None] when it is not set); for the default tenant the result is what
    [BAGEL_USER_ID] holds, and the default tenant when it is not set.
    Resolving its own result again changes nothing, and the key it resolves
    is the one [_popuate_headers_with_api_key] would write for the original
    argument. *)
Theorem extract_user_id_and_api_key_resolves (api_key : option pystr)
    (user_id : pystr) :
  let resolved := _extract_user_id_and_api_key environ api_key user_id in
  (∀ key, api_key = Some key → resolved.1 = Some key)
  ∧ (api_key = None → resolved.1 = environ !! BAGEL_API_KEY)
  ∧ (user_id ≠ DEFAULT_TENANT → resolved.2 = user_id)
  ∧ (∀ env_user, environ !! BAGEL_USER_ID = Some env_user →
       user_id = DEFAULT_TENANT → resolved.2 = env_user)
  ∧ (environ !! BAGEL_USER_ID = None → resolved.2 = user_id)
  ∧ _extract_user_id_and_api_key environ resolved.1 resolved.2 = resolved
  ∧ resolved.1 = effective_key environ api_key
  ∧ effective_key environ resolved.1 = effective_key environ api_key.
Proof.
  unfold _extract_user_id_and_api_key, effective_key. cbn [fst snd].
  repeat split.
  - intros key ->. by destruct (environ !! BAGEL_API_KEY).
  - intros ->. by destruct (environ !! BAGEL_API_KEY).
  - intros Hne. destruct (environ !! BAGEL_USER_ID); [|done].
    by rewrite bool_decide_false.
  - intros env_user -> ->. by rewrite bool_decide_true.
  - by intros ->.
  - f_equal.
    + by destruct (environ !! BAGEL_API_KEY), api_key.
    + destruct (environ !! BAGEL_USER_ID) as [env_user|]; [|done].
      destruct (bool_decide (user_id = DEFAULT_TENANT)) eqn:Huser; [|by rewrite Huser].
      by destruct (bool_decide (env_user = DEFAULT_TENANT)).
  - by destruct (environ !! BAGEL_API_KEY), api_key.
Qed.

(** The header copy in front of a request: the entries the request carries
    are the base entries plus the key. *)
Lemma populated_read {A} (api_key : option pystr)
    (k : nat → headers_dict → M A) (w : World) (base : headers_dict) :
  heap w !! __headers = Some base →
  (headers <- _popuate_headers_with_api_key environ __headers api_key ;;
   h <- dict_read headers ;; k headers h) w
  = k (length (heap w)) (<[X_API_KEY := effective_key environ api_key]> base)
      (mkWorld (sent w) (slept w) (pbar w) (printed w)
         (heap w ++ [<[X_API_KEY := effective_key environ api_key]> base])).
Proof.
  intros Hbase. unfold bind at 1.
  rewrite (populate_headers_run environ __headers api_key w base Hbase).
  unfold bind at 1, dict_read. cbn [heap].
  by rewrite lookup_app_r, Nat.sub_diag by lia.
Qed.

Lemma extract_headers_run (api_key : option pystr) (user_id : pystr)
    (w : World) (base : headers_dict) :
  heap w !! __headers = Some base →
  _extract_headers_with_key_and_user_id environ __headers api_key user_id w
  = (inr (length (heap w),
          (_extract_user_id_and_api_key environ api_key user_id).2),
     mkWorld (sent w) (slept w) (pbar w) (printed w)
       (heap w ++ [<[X_API_KEY := effective_key environ api_key]> base])).
Proof.
  intros Hbase.
  unfold _extract_headers_with_key_and_user_id, bind.
  rewrite (populate_headers_run environ __headers _ w base Hbase).
  unfold ret. do 4 f_equal.
  unfold _extract_user_id_and_api_key, effective_key. cbn [fst].
  by destruct (environ !! BAGEL_API_KEY), api_key.
Qed.

(** X2.  [_extract_headers_with_key_and_user_id] resolves the key twice, once
    by itself and once in [_popuate_headers_with_api_key]; the header copy it
    returns holds the base entries and the key resolved once, the user id is
    the resolved one, and the dict [self.__headers] is left as it was. *)
Theorem extract_headers_resolves_once (api_key : option pystr)
    (user_id : pystr) (w : World) (base : headers_dict) :
  heap w !! __headers = Some base →
  _extract_headers_with_key_and_user_id environ __headers api_key user_id w
  = (inr (length (heap w),
          (_extract_user_id_and_api_key environ api_key user_id).2),
     mkWorld (sent w) (slept w) (pbar w) (printed w)
       (heap w ++ [<[X_API_KEY := effective_key environ api_key]> base]))
  ∧ (heap w ++ [<[X_API_KEY := effective_key environ api_key]> base])
      !! __headers = Some base.
Proof.
  intros Hbase. split; [by apply extract_headers_run|].
  by apply lookup_app_l_Some.
Qed.

Lemma populate_headers_noarg_run (w : World) (base : headers_dict) :
  heap w !! __headers = Some base →
  populate_headers_with_api_key environ __headers w
  = match environ !! BAGEL_API_KEY with
    | Some key =>
        (inr (length (heap w)),
         mkWorld (sent w) (slept w) (pbar w) (printed w)
           (heap w ++ [<[X_API_KEY := Some key]> base]))
    | None =>
        (inl UnboundLocalError,
         mkWorld (sent w) (slept w) (pbar w) (printed w) (heap w ++ [base]))
    end.
Proof.
  intros Hbase.
  unfold populate_headers_with_api_key, bind, dict_copy. rewrite Hbase.
  destruct (environ !! BAGEL_API_KEY) as [key|]; [|done].
  unfold dict_setitem, ret. cbn [heap].
  rewrite lookup_app_r, Nat.sub_diag by lia. cbn [lookup list_lookup].
  by rewrite insert_app_r_alt, Nat.sub_diag by lia.
Qed.

(** X3.  [populate_headers_with_api_key] (the variant without an argument)
    works only when [BAGEL_API_KEY] is set: then it returns a copy of the
    base entries with that key.  When the variable is not set it raises
    [UnboundLocalError], having made the copy; in both cases the dict
    [self.__headers] is left as it was. *)
Theorem populate_headers_needs_environment (w : World) (base : headers_dict) :
  heap w !! __headers = Some base →
  let run := populate_headers_with_api_key environ __headers w in
  (∀ key, environ !! BAGEL_API_KEY = Some key →
     run = (inr (length (heap w)),
            mkWorld (sent w) (slept w) (pbar w) (printed w)
              (heap w ++ [<[X_API_KEY := Some key]> base])))
  ∧ (environ !! BAGEL_API_KEY = None →
     run = (inl UnboundLocalError,
            mkWorld (sent w) (slept w) (pbar w) (printed w) (heap w ++ [base])))
  ∧ heap run.2 !! __headers = Some base.
Proof.
  intros Hbase run. subst run.
  rewrite (populate_headers_noarg_run w base Hbase).
  destruct (environ !! BAGEL_API_KEY) as [key|] eqn:Henv; cbn [snd heap].
  - split; [by intros ? [= <-]|]. split; [done|].
    by apply lookup_app_l_Some.
  - split; [done|]. split; [done|]. by apply lookup_app_l_Some.
Qed.

End Credentials.

(** ** Clusters, embeddings and datasets: one request each *)

Section OneRequest.

Variable net : nat → Request → net_error + Response.
Variable environ : gmap pystr pystr.
Variable error_types : gmap pystr error_class.
Variable _api_url : pystr.
Variable __headers : nat.

(** What follows a request: the answer decides, the request is logged. *)
Lemma requests_then {A} (r : Request) (k : Response → M A) (w : World) :
  (resp <- requests net r ;; k resp) w
  = match net (length (sent w)) r with
    | inl e => (inl (RequestException e), logged [r] w)
    | inr resp => k resp (logged [r] w)
    end.
Proof. unfold bind. rewrite requests_run. by destruct (net _ r). Qed.


(** Paging in [_get] is a way of giving a limit and an offset. *)
Lemma get_pages (cluster_id : pystr) (ids where_ sort : json)
    (limit offset page page_size : option Z) (where_document include : json)
    (api_key : option pystr) :
  let get := λ limit offset page page_size,
    _get net environ error_types _api_url __headers cluster_id ids where_ sort
      limit offset page page_size where_document include api_key in
  (∀ p size, p ≠ 0 → size ≠ 0 →
     get limit offset (Some p) (Some size)
     = get (Some size) (Some ((p - 1) * size)) None None)
  ∧ (∀ p size, p ≠ 0 → p + 1 ≠ 0 → size ≠ 0 →
     get limit offset (Some (p + 1)) (Some size)
     = get (Some size) (Some ((p - 1) * size + size)) None None)
  ∧ (truthy page = false ∨ truthy page_size = false →
     get limit offset page page_size = get limit offset None None).
Proof.
  cbn zeta. split; [|split].
  - intros p size Hp Hsize. unfold _get, truthy.
    by rewrite (proj2 (Z.eqb_neq p 0)), (proj2 (Z.eqb_neq size 0)).
  - intros p size _ Hp Hsize. unfold _get, truthy.
    rewrite (proj2 (Z.eqb_neq (p + 1) 0)), (proj2 (Z.eqb_neq size 0)) by done.
    cbn [negb andb]. by replace ((p + 1 - 1) * size) with ((p - 1) * size + size) by lia.
  - intros Hfalsy. unfold _get.
    destruct Hfalsy as [Hpage | Hsize].
    + rewrite Hpage. cbn [andb]. by destruct page, page_size.
    + rewrite Hsize, andb_false_r. by destruct page, page_size.
Qed.

(** [_get] sends exactly one request, whatever the answer is. *)
Lemma get_sends (cluster_id : pystr) (ids where_ sort : json)
    (limit offset : option Z) (where_document include : json)
    (api_key : option pystr) (w : World) (base : headers_dict) :
  heap w !! __headers = Some base →
  (_get net environ error_types _api_url __headers cluster_id ids where_ sort
     limit offset None None where_document include api_key w).2
  = mkWorld
      (sent w ++
       [post_json _api_url (str "/clusters/" ++ cluster_id ++ str "/get")
          (Some (<[X_API_KEY := effective_key environ api_key]> base))
          (JObj [(str "ids", ids); (str "where", where_); (str "sort", sort);
                 (str "limit", opt_int limit); (str "offset", opt_int offset);
                 (str "where_document", where_document);
                 (str "include", include)])])
      (slept w) (pbar w) (printed w)
      (heap w ++ [<[X_API_KEY := effective_key environ api_key]> base]).
Proof.
  intros Hbase. unfold _get. cbn [truthy andb].
  rewrite (populated_read environ __headers api_key _ w base Hbase).
  rewrite requests_then. cbn [sent].
  unfold bind, raise_bagel_error, resp_json, getitem, ret, raise, logged.
  repeat case_match; simplify_eq; reflexivity.
Qed.

(** X5.  In [_get], a page and a page size that are both given and not zero
    stand for a limit and an offset: the one request sent carries the page
    size as [limit] and the page less one times the page size as [offset],
    and the caller's own limit and offset are dropped; so page [p + 1]
    starts where page [p] ends.  A page or page size that is missing or zero
    is ignored and the request carries the caller's limit and offset, [null]
    for one that is not given. *)
Theorem get_pagination (cluster_id : pystr) (ids where_ sort : json)
    (limit offset page page_size : option Z) (where_document include : json)
    (api_key : option pystr) (w : World) (base : headers_dict) :
  let get := λ limit offset page page_size,
    _get net environ error_types _api_url __headers cluster_id ids where_ sort
      limit offset page page_size where_document include api_key in
  let request (limit offset : json) : Request :=
    {| method := POST;
       url := _api_url ++ str "/clusters/" ++ cluster_id ++ str "/get";
       headers := Some (<[X_API_KEY := effective_key environ api_key]> base);
       params := [];
       data := JsonText
                 (JObj [(str "ids", ids); (str "where", where_);
                        (str "sort", sort);
                        (str "limit", limit); (str "offset", offset);
                        (str "where_document", where_document);
                        (str "include", include)]);
       files := [] |} in
  let number (given : option Z) : json :=
    match given with Some k => JInt k | None => JNull end in
  heap w !! __headers = Some base →
  (∀ p size, p ≠ 0 → size ≠ 0 →
     sent (get limit offset (Some p) (Some size) w).2
     = sent w ++ [request (JInt size) (JInt ((p - 1) * size))])
  ∧ (∀ p size, p ≠ 0 → p + 1 ≠ 0 → size ≠ 0 →
     sent (get limit offset (Some (p + 1)) (Some size) w).2
     = sent w ++ [request (JInt size) (JInt ((p - 1) * size + size))])
  ∧ (truthy page = false ∨ truthy page_size = false →
     sent (get limit offset page page_size w).2
     = sent w ++ [request (number limit) (number offset)])
  ∧ (∀ p size, p ≠ 0 → size ≠ 0 →
     get limit offset (Some p) (Some size)
     = get (Some size) (Some ((p - 1) * size)) None None)
  ∧ (truthy page = false ∨ truthy page_size = false →
     get limit offset page page_size = get limit offset None None).
Proof.
  intros get request number Hbase.
  destruct (get_pages cluster_id ids where_ sort limit offset page page_size
              where_document include api_key) as (Hpage & Hnext & Hnone).
  cbn zeta in Hpage, Hnext, Hnone. subst get. cbv beta.
  split; [|split; [|split; [|split; [exact Hpage|exact Hnone]]]].
  - intros p size Hp Hsize. rewrite (Hpage p size Hp Hsize).
    by rewrite (get_sends _ _ _ _ _ _ _ _ _ w base Hbase).
  - intros p size Hp Hlast Hsize. rewrite (Hnext p size Hp Hlast Hsize).
    by rewrite (get_sends _ _ _ _ _ _ _ _ _ w base Hbase).
  - intros Hfalsy. rewrite (Hnone Hfalsy).
    by rewrite (get_sends _ _ _ _ _ _ _ _ _ w base Hbase).
Qed.



(** X8.  [_delete] and [_upsert] take an [api_key] and never send it.
    [_delete] sends its request without any headers and leaves the heap of
    header dicts untouched; [_upsert] sends the entries of [self.__headers]
    as they are, makes no copy, and like [_update] raises [HTTPError] on a
    failed response. *)
Theorem delete_and_upsert_send_no_key (cluster_id : pystr)
    (ids where_ where_document embeddings metadatas documents : json)
    (increment_index : bool) (api_key : option pystr) (w : World)
    (base : headers_dict) (resp : Response) :
  let upsert_req :=
    post_json _api_url (str "/clusters/" ++ cluster_id ++ str "/upsert")
      (Some base)
      (JObj [(str "ids", ids); (str "embeddings", embeddings);
             (str "metadatas", metadatas); (str "documents", documents);
             (str "increment_index", JBool increment_index)]) in
  heap w !! __headers = Some base →
  net (length (sent w)) upsert_req = inr resp →
  (_delete net error_types _api_url cluster_id ids where_ where_document
     api_key w).2
  = logged [post_json _api_url
              (str "/clusters/" ++ cluster_id ++ str "/delete") None
              (JObj [(str "where", where_); (str "ids", ids);
                     (str "where_document", where_document)])] w
  ∧ _upsert net _api_url __headers cluster_id ids embeddings metadatas
      documents increment_index api_key w
    = (if ok resp then inr true else inl (HTTPError (status_code resp)),
       logged [upsert_req] w).
Proof.
  intros upsert_req Hbase Hnet. split.
  - unfold _delete. rewrite requests_then.
    unfold bind, raise_bagel_error, resp_json, ret, raise.
    repeat case_match; simplify_eq; reflexivity.
  - unfold _upsert. unfold bind at 1, dict_read. rewrite Hbase.
    rewrite requests_then. fold upsert_req. rewrite Hnet.
    unfold bind, raise_for_status. by destruct (ok resp).
Qed.

(** X9.  [get_or_create_cluster] takes a [user_id] and does not pass it on:
    the request it sends asks to get or create the cluster for the user of
    the environment, or for the default tenant when the environment names
    none, whatever the argument. *)
Theorem get_or_create_cluster_ignores_user (name : pystr) (metadata : json)
    (user_id : pystr) (api_key : option pystr)
    (embedding_model dimension : json) (w : World) (base : headers_dict) :
  heap w !! __headers = Some base →
  (get_or_create_cluster net environ error_types _api_url __headers name
     metadata user_id api_key embedding_model dimension w).2
  = mkWorld
      (sent w ++
       [post_json _api_url (str "/clusters")
          (Some (<[X_API_KEY := effective_key environ api_key]> base))
          (JObj [(str "name", JStr name);
                 (str "metadata", metadata);
                 (str "get_or_create", JBool true);
                 (str "user_id",
                  JStr (default DEFAULT_TENANT (environ !! BAGEL_USER_ID)));
                 (str "embedding_model", embedding_model);
                 (str "dimensions", dimension)])])
      (slept w) (pbar w) (printed w)
      (heap w ++ [<[X_API_KEY := effective_key environ api_key]> base]).
Proof.
  intros Hbase. unfold get_or_create_cluster, create_cluster.
  unfold bind at 1.
  rewrite (extract_headers_run environ __headers api_key DEFAULT_TENANT w base
             Hbase).
  cbn [fst snd]. unfold bind at 1, dict_read. cbn [heap].
  rewrite lookup_app_r, Nat.sub_diag by lia. cbn [lookup list_lookup].
  rewrite requests_then. cbn [sent].
  assert ((_extract_user_id_and_api_key environ api_key DEFAULT_TENANT).2
          = default DEFAULT_TENANT (environ !! BAGEL_USER_ID)) as ->.
  { unfold _extract_user_id_and_api_key. cbn [snd].
    destruct (environ !! BAGEL_USER_ID); [|done].
    by rewrite bool_decide_true. }
  unfold bind, raise_bagel_error, resp_json, getitem, ret, raise, logged.
  repeat case_match; simplify_eq; reflexivity.
Qed.

End OneRequest.

(** ** The retry loop under any transport *)

Section QueryAny.

Variable net : nat → Request → net_error + Response.
Variable environ : gmap pystr pystr.
Variable error_types : gmap pystr error_class.
Variable _api_url : pystr.
Variable __headers : nat.

(** One turn of the loop in which no response arrives ends the loop with the
    exception of the transport. *)
Lemma query_attempt_raises cluster_id payload attempt rest resp0 w headers h e :
  heap w !! headers = Some h →
  net (length (sent w)) (query_request _api_url cluster_id payload h) = inl e →
  query_attempts net _api_url cluster_id payload headers (attempt :: rest) resp0 w
  = (inl (RequestException e),
     logged [query_request _api_url cluster_id payload h] w).
Proof.
  intros Hh Hnet. cbn [query_attempts]. unfold bind at 1, dict_read.
  rewrite Hh. unfold bind, requests, logged. by rewrite Hnet.
Qed.

(** The loop over any list of attempts: it sends the same request at most
    once an attempt, sleeps only after a request and only in attempts before
    the last allowed one, and changes nothing else. *)
Lemma query_attempts_bound cluster_id payload headers h :
  ∀ (attempts : list Z) (resp0 : option Response) (w : World),
    heap w !! headers = Some h →
    ∃ (k j : nat),
      (k ≤ length attempts)%nat ∧ (j ≤ k)%nat
      ∧ (j ≤ length (filter (λ a : Z, (a < max_retries - 1)%Z) attempts))%nat
      ∧ (query_attempts net _api_url cluster_id payload headers attempts resp0
           w).2
        = mkWorld
            (sent w ++ replicate k (query_request _api_url cluster_id payload h))
            (slept w ++ replicate j retry_delay) (pbar w) (printed w) (heap w).
Proof.
  induction attempts as [|attempt rest IH]; intros resp0 w Hh.
  - exists 0%nat, 0%nat. cbn. rewrite !app_nil_r. by destruct w.
  - destruct (net (length (sent w))
                (query_request _api_url cluster_id payload h)) as [e|r] eqn:Hnet.
    { exists 1%nat, 0%nat. rewrite (query_attempt_raises _ _ _ _ _ _ _ h e) by done.
      cbn. rewrite app_nil_r. repeat split; lia. }
    destruct (ok r) eqn:Hok.
    { exists 1%nat, 0%nat.
      rewrite (query_attempt_ok net _api_url _ _ _ _ _ _ _ h r) by done.
      cbn. rewrite app_nil_r. repeat split; lia. }
    rewrite (query_attempt_failed net _api_url _ _ _ _ _ _ _ h r) by done.
    edestruct (IH (Some r)) as (k & j & Hk & Hj & Hfilter & Hrun);
      [|rewrite Hrun]; [done|].
    cbn [sent slept pbar printed heap]. rewrite filter_cons.
    destruct (decide (attempt < max_retries - 1)) as [Hlt|Hge].
    + rewrite (proj2 (Z.ltb_lt _ _) Hlt).
      exists (S k), (S j). rewrite <- !app_assoc. cbn. repeat split; lia.
    + rewrite (proj2 (Z.ltb_ge _ _)) by lia.
      exists (S k), j. rewrite <- !app_assoc. cbn. repeat split; lia.
Qed.

Variables (cluster_id : pystr) (query_embeddings : json) (n_results : Z).
Variables (where_ where_document include query_texts : json).
Variable api_key : option pystr.

(** X10.  Whatever the transport does, [_query] sends the same request at
    most three times and sleeps at most twice, each time for [retry_delay]
    and never more often than it has sent; it touches neither the progress
    bar nor the printed lines, and the dict [self.__headers] is as before. *)
Theorem query_is_bounded (w : World) (base : headers_dict) :
  let sent_headers := <[X_API_KEY := effective_key environ api_key]> base in
  let req := query_request _api_url cluster_id
               (query_payload query_embeddings n_results where_ where_document
                  include query_texts) sent_headers in
  heap w !! __headers = Some base →
  ∃ (k j : nat),
    (k ≤ 3)%nat ∧ (j ≤ 2)%nat ∧ (j ≤ k)%nat
    ∧ (_query net environ error_types _api_url __headers cluster_id
         query_embeddings n_results where_ where_document include query_texts
         api_key w).2
      = mkWorld (sent w ++ replicate k req)
          (slept w ++ replicate j retry_delay) (pbar w) (printed w)
          (heap w ++ [sent_headers])
    ∧ (heap w ++ [sent_headers]) !! __headers = Some base.
Proof.
  intros sent_headers req Hbase.
  unfold _query. unfold bind at 1.
  rewrite (populate_headers_run environ __headers api_key w base Hbase).
  fold sent_headers.
  edestruct (query_attempts_bound cluster_id
               (query_payload query_embeddings n_results where_ where_document
                  include query_texts)
               (length (heap w)) sent_headers (seqZ 0 max_retries) None
               (mkWorld (sent w) (slept w) (pbar w) (printed w)
                  (heap w ++ [sent_headers])))
    as (k & j & Hk & Hj & Hfilter & Hrun).
  { cbn [heap]. by rewrite lookup_app_r, Nat.sub_diag by lia. }
  exists k, j. change (length (seqZ 0 max_retries)) with 3%nat in Hk.
  change (length (filter _ (seqZ 0 max_retries))) with 2%nat in Hfilter.
  split; [done|]. split; [done|]. split; [done|].
  split; [|by apply lookup_app_l_Some].
  unfold bind.
  destruct (query_attempts _ _ _ _ _ _ _ _) as [[e|[resp|]] w'];
    cbn [snd] in Hrun; subst w'; [done| |done].
  unfold query_result, bind, raise_bagel_error, resp_json, getitem, ret, raise.
  cbn [sent slept pbar printed heap].
  repeat case_match; simplify_eq; reflexivity.
Qed.

(** X11.  When the first response is ok, [_query] sends one request, does
    not sleep, and hands that response to the parsing of the result. *)
Theorem query_first_success (w : World) (base : headers_dict) (r : Response) :
  let sent_headers := <[X_API_KEY := effective_key environ api_key]> base in
  let req := query_request _api_url cluster_id
               (query_payload query_embeddings n_results where_ where_document
                  include query_texts) sent_headers in
  heap w !! __headers = Some base →
  net (length (sent w)) req = inr r →
  ok r = true →
  _query net environ error_types _api_url __headers cluster_id
    query_embeddings n_results where_ where_document include query_texts
    api_key w
  = query_result error_types r
      (mkWorld (sent w ++ [req]) (slept w) (pbar w) (printed w)
         (heap w ++ [sent_headers])).
Proof.
  intros sent_headers req Hbase Hnet Hok.
  unfold _query. unfold bind at 1.
  rewrite (populate_headers_run environ __headers api_key w base Hbase).
  fold sent_headers. unfold bind at 1.
  change (seqZ 0 max_retries) with [0; 1; 2].
  rewrite (query_attempt_ok net _api_url _ _ _ _ _ _ _ sent_headers r); try done.
  cbn [heap]. by rewrite lookup_app_r, Nat.sub_diag by lia.
Qed.

(** X12.  Only responses are retried.  When no response arrives for an
    attempt, [_query] raises the exception of the transport at once: on the
    first attempt after one request and no sleep, and after a failed first
    response on the second request, having slept once. *)
Theorem query_transport_error_not_retried (w : World) (base : headers_dict)
    (e : net_error) :
  let sent_headers := <[X_API_KEY := effective_key environ api_key]> base in
  let req := query_request _api_url cluster_id
               (query_payload query_embeddings n_results where_ where_document
                  include query_texts) sent_headers in
  let run := _query net environ error_types _api_url __headers cluster_id
               query_embeddings n_results where_ where_document include
               query_texts api_key w in
  heap w !! __headers = Some base →
  (net (length (sent w)) req = inl e →
   run = (inl (RequestException e),
          mkWorld (sent w ++ [req]) (slept w) (pbar w) (printed w)
            (heap w ++ [sent_headers])))
  ∧ (∀ r1, net (length (sent w)) req = inr r1 → ok r1 = false →
       net (S (length (sent w))) req = inl e →
       run = (inl (RequestException e),
              mkWorld (sent w ++ [req; req]) (slept w ++ [retry_delay])
                (pbar w) (printed w) (heap w ++ [sent_headers]))).
Proof.
  intros sent_headers req run Hbase.
  assert (Hh : ∀ s sl, heap (mkWorld s sl (pbar w) (printed w)
                               (heap w ++ [sent_headers]))
                       !! length (heap w) = Some sent_headers).
  { intros. cbn [heap]. by rewrite lookup_app_r, Nat.sub_diag by lia. }
  subst run.
  split; [intros Hnet|intros r1 Hnet1 Hok1 Hnet2];
    unfold _query; unfold bind at 1;
    rewrite (populate_headers_run environ __headers api_key w base Hbase);
    fold sent_headers; unfold bind at 1;
    change (seqZ 0 max_retries) with [0; 1; 2].
  - by rewrite (query_attempt_raises _ _ _ _ _ _ _ sent_headers e).
  - rewrite (query_attempt_failed net _api_url _ _ _ _ _ _ _ sent_headers r1);
      [|apply Hh|exact Hnet1|exact Hok1].
    rewrite (query_attempt_raises _ _ _ _ _ _ _ sent_headers e);
      [|apply Hh|cbn [sent]; rewrite length_app, Nat.add_1_r; exact Hnet2].
    unfold logged. cbn [sent slept pbar printed heap].
    by rewrite <- app_assoc.
Qed.

End QueryAny.

(** ** The download under any transport *)

Section DownloadAny.

Variable net : nat → Request → net_error + Response.
Variable environ : gmap pystr pystr.
Variable _api_url : pystr.
Variable __headers : nat.
Context {DataFrame : Type}.
Variable read_csv : pystr → exn + DataFrame.
Variable concat : list DataFrame → DataFrame.
Variable DataFrame_empty : DataFrame.
Variable dataset_id : pystr.

(** Whatever arrives, the loop asks for an initial part of its chunk numbers,
    in order, and does nothing else; it returns only after the whole list. *)
Lemma download_chunks_log :
  ∀ (chunk_numbers : list Z) (dfs : list DataFrame) (w : World),
    ∃ k : nat,
      (k ≤ length chunk_numbers)%nat
      ∧ (download_chunks net _api_url read_csv dataset_id chunk_numbers dfs w).2
        = logged (chunk_request _api_url dataset_id <$> take k chunk_numbers) w.
Proof.
  induction chunk_numbers as [|c cs IH]; intros dfs w.
  - exists 0%nat. cbn. by rewrite logged_nil.
  - cbn [download_chunks]. unfold bind at 1. rewrite requests_run.
    destruct (net (length (sent w)) (chunk_request _api_url dataset_id c))
      as [e|r]; [exists 1%nat; cbn; split; [lia|done]|].
    unfold bind at 1, raise_for_status.
    destruct (ok r); [|exists 1%nat; cbn; split; [lia|done]].
    unfold ret at 1.
    destruct (read_csv (text r)) as [e|df];
      [exists 1%nat; cbn; split; [lia|done]|].
    destruct (IH (dfs ++ [df]) (logged [chunk_request _api_url dataset_id c] w))
      as (k & Hk & Hrun).
    exists (S k). split; [cbn; lia|]. by rewrite Hrun, logged_logged.
Qed.

(** X13.  Whatever the transport does, [load_dataset] issues the metadata
    request and then the requests for the chunks 1..k for some k, in this
    order; all of them are GET requests without a header dict, so the key
    the call has put into its copy of the headers is sent with none of them.
    It neither sleeps nor prints, and the dict [self.__headers] is as
    before. *)
Theorem load_dataset_sends_no_headers (w : World) (base : headers_dict) :
  heap w !! __headers = Some base →
  ∃ k : Z,
    0 ≤ k
    ∧ (load_dataset net environ _api_url __headers read_csv concat
         DataFrame_empty dataset_id w).2
      = mkWorld
          (sent w ++ info_request _api_url dataset_id
                     :: (chunk_request _api_url dataset_id <$> seqZ 1 k))
          (slept w) (pbar w) (printed w)
          (heap w ++ [<[X_API_KEY := effective_key environ None]> base])
    ∧ (∀ r, r ∈ info_request _api_url dataset_id
                :: (chunk_request _api_url dataset_id <$> seqZ 1 k) →
         method r = GET ∧ headers r = None)
    ∧ (heap w ++ [<[X_API_KEY := effective_key environ None]> base])
        !! __headers = Some base.
Proof.
  intros Hbase.
  assert (Hreqs : ∀ k r,
            r ∈ info_request _api_url dataset_id
                :: (chunk_request _api_url dataset_id <$> seqZ 1 k) →
            method r = GET ∧ headers r = None).
  { intros k r [->|Hr]%elem_of_cons; [done|].
    apply list_elem_of_fmap in Hr as (c & -> & _). done. }
  assert (Hheap : (heap w ++ [<[X_API_KEY := effective_key environ None]> base])
                    !! __headers = Some base) by by apply lookup_app_l_Some.
  set (w1 := mkWorld (sent w) (slept w) (pbar w) (printed w)
               (heap w ++ [<[X_API_KEY := effective_key environ None]> base])).
  assert (Hstop : ∀ (res : exn + DataFrame),
            ∃ k : Z, 0 ≤ k
              ∧ (res, logged [info_request _api_url dataset_id] w1).2
                = mkWorld
                    (sent w ++ info_request _api_url dataset_id
                               :: (chunk_request _api_url dataset_id <$> seqZ 1 k))
                    (slept w) (pbar w) (printed w)
                    (heap w ++ [<[X_API_KEY := effective_key environ None]> base])
              ∧ (∀ r, r ∈ info_request _api_url dataset_id
                          :: (chunk_request _api_url dataset_id <$> seqZ 1 k) →
                   method r = GET ∧ headers r = None)
              ∧ (heap w ++ [<[X_API_KEY := effective_key environ None]> base])
                  !! __headers = Some base).
  { intros res. exists 0. split; [done|]. split; [done|]. split; [apply Hreqs|done]. }
  unfold load_dataset. unfold bind at 1.
  rewrite (populate_headers_run environ __headers None w base Hbase).
  fold w1. unfold bind at 1. rewrite requests_run.
  destruct (net (length (sent w1)) (info_request _api_url dataset_id))
    as [e|info]; [apply Hstop|].
  unfold bind at 1, raise_for_status.
  destruct (ok info); [|apply Hstop].
  unfold ret at 1. unfold bind at 1, resp_json.
  destruct (json_body info) as [body|]; [|apply Hstop].
  unfold ret at 1. unfold bind at 1, getitem.
  destruct body as [| | | | | |members]; try apply Hstop.
  destruct (dict_get (str "total_chunks") members) as [total_chunks|];
    [|apply Hstop].
  unfold ret at 1. unfold bind at 1, as_int.
  assert (Hloop : ∀ N : Z,
            ∃ k : Z, 0 ≤ k
              ∧ ((dfs <- download_chunks net _api_url read_csv dataset_id
                           (seqZ 1 N) [] ;;
                  ret (match dfs with
                       | [] => DataFrame_empty
                       | _ => concat dfs
                       end))
                   (logged [info_request _api_url dataset_id] w1)).2
                = mkWorld
                    (sent w ++ info_request _api_url dataset_id
                               :: (chunk_request _api_url dataset_id <$> seqZ 1 k))
                    (slept w) (pbar w) (printed w)
                    (heap w ++ [<[X_API_KEY := effective_key environ None]> base])
              ∧ (∀ r, r ∈ info_request _api_url dataset_id
                          :: (chunk_request _api_url dataset_id <$> seqZ 1 k) →
                   method r = GET ∧ headers r = None)
              ∧ (heap w ++ [<[X_API_KEY := effective_key environ None]> base])
                  !! __headers = Some base).
  { intros N.
    destruct (download_chunks_log (seqZ 1 N) []
                (logged [info_request _api_url dataset_id] w1))
      as (k & Hk & Hrun).
    rewrite length_seqZ in Hk.
    exists (Z.of_nat k). split; [lia|]. split; [|split; [apply Hreqs|done]].
    assert (Hafter : ((dfs <- download_chunks net _api_url read_csv dataset_id
                               (seqZ 1 N) [] ;;
                       ret (match dfs with
                            | [] => DataFrame_empty
                            | _ => concat dfs
                            end))
                        (logged [info_request _api_url dataset_id] w1)).2
                     = (download_chunks net _api_url read_csv dataset_id
                          (seqZ 1 N) []
                          (logged [info_request _api_url dataset_id] w1)).2).
    { unfold bind, ret. by destruct (download_chunks _ _ _ _ _ _ _) as [[?|?] ?]. }
    rewrite Hafter, Hrun, logged_logged. unfold logged, w1.
    cbn [sent slept pbar printed heap app]. do 3 f_equal.
    destruct (decide (0 ≤ N)) as [HN|HN].
    - replace N with (Z.of_nat k + (N - Z.of_nat k)) at 1 by lia.
      rewrite seqZ_app by lia.
      rewrite take_app_length'; [done|]. rewrite length_seqZ. lia.
    - replace k with 0%nat by lia. by rewrite take_0. }
  destruct total_chunks; try apply Hstop; unfold ret at 1; apply Hloop.
Qed.

(** X14.  What [load_dataset] does with an ok answer to the metadata call
    that does not name a positive number of chunks.  A body that is no JSON
    raises [JSONDecodeError], an object without [total_chunks] raises
    [KeyError], and a [total_chunks] of zero or less gives the empty frame;
    in each case the metadata request is the only one sent. *)
Theorem load_dataset_metadata_edges (w : World) (base : headers_dict)
    (info : Response) :
  let run := load_dataset net environ _api_url __headers read_csv concat
               DataFrame_empty dataset_id w in
  let after :=
    mkWorld (sent w ++ [info_request _api_url dataset_id])
      (slept w) (pbar w) (printed w)
      (heap w ++ [<[X_API_KEY := effective_key environ None]> base]) in
  heap w !! __headers = Some base →
  net (length (sent w)) (info_request _api_url dataset_id) = inr info →
  ok info = true →
  (json_body info = None → run = (inl JSONDecodeError, after))
  ∧ (∀ members, json_body info = Some (JObj members) →
       dict_get (str "total_chunks") members = None →
       run = (inl (KeyError (str "total_chunks")), after))
  ∧ (∀ members N, json_body info = Some (JObj members) →
       dict_get (str "total_chunks") members = Some (JInt N) →
       N ≤ 0 →
       run = (inr DataFrame_empty, after)).
Proof.
  intros run after Hbase Hnet Hok. subst run.
  split; [|split].
  - intros Hbody. unfold load_dataset. unfold bind at 1.
    rewrite (populate_headers_run environ __headers None w base Hbase).
    unfold bind at 1. rewrite requests_run. cbn [sent]. rewrite Hnet.
    unfold bind at 1, raise_for_status. rewrite Hok. unfold ret at 1.
    unfold bind at 1, resp_json. by rewrite Hbody.
  - intros members Hbody Hkey. unfold load_dataset. unfold bind at 1.
    rewrite (populate_headers_run environ __headers None w base Hbase).
    unfold bind at 1. rewrite requests_run. cbn [sent]. rewrite Hnet.
    unfold bind at 1, raise_for_status. rewrite Hok. unfold ret at 1.
    unfold bind at 1, resp_json. rewrite Hbody. unfold ret at 1.
    unfold bind at 1, getitem. by rewrite Hkey.
  - intros members N Hbody Hkey HN.
    rewrite (load_dataset_to_loop net environ _api_url __headers read_csv
               concat DataFrame_empty dataset_id w base info members N)
      by done.
    assert (seqZ 1 N = []) as ->.
    { apply length_zero_iff_nil. rewrite length_seqZ. lia. }
    reflexivity.
Qed.

End DownloadAny.

(** ** The upload under any transport *)

Section UploadAny.

Variable net : nat → Request → net_error + Response.
Variable fs : pystr → option pystr.
Variable path_name : pystr → pystr.
Variable _api_url : pystr.
Variables (dataset_id : pystr) (rows_per_chunk : Z).





Variables (file_path file_name content : pystr).
Hypothesis file_exists : fs file_path = Some content.

(** What [upload_dataset] has done when it starts to read the records. *)
Lemma upload_dataset_start (w : World) :
  upload_dataset net fs path_name _api_url file_path dataset_id file_name
    rows_per_chunk w
  = (let '(records, err) := Csv.reader (file_lines content) in
     match records, err with
     | [], None => raise StopIteration
     | [], Some e => raise (CsvError e)
     | header :: records, _ =>
         leftover <-
           upload_rows net _api_url (header_str header) (path_name file_path)
             dataset_id rows_per_chunk records [] 0 ;;
         match err with Some e => raise (CsvError e) | None => ret tt end ;;;
         match leftover.1 with
         | [] => ret tt
         | rows => _upload_chunk net _api_url
                     (chunk_data (header_str header) rows) (leftover.2 + 1)
                     (path_name file_path) dataset_id
         end ;;;
         pbar_close ;;;
         print UploadCompleted
     end)
      (upload_started (Z.of_nat (length (file_lines content)) - 1) w).
Proof.
  unfold upload_dataset. unfold bind at 1, open_read at 1.
  rewrite file_exists. unfold ret at 1. unfold bind at 1, tqdm_new at 1.
  unfold bind at 1, open_read at 1. rewrite file_exists. unfold ret at 1.
  reflexivity.
Qed.

(** X15.  A file in which the reader finds no record, not even a header,
    makes [upload_dataset] raise [StopIteration]: the bar has been created,
    no request has been sent and nothing has been printed. *)
Theorem upload_dataset_without_header (w : World) :
  Csv.reader (file_lines content) = ([], None) →
  upload_dataset net fs path_name _api_url file_path dataset_id file_name
    rows_per_chunk w
  = (inl StopIteration,
     mkWorld (sent w) (slept w)
       (mkTqdm (Z.of_nat (length (file_lines content)) - 1) 0 false)
       (printed w) (heap w)).
Proof. intros Hreader. rewrite upload_dataset_start, Hreader. reflexivity. Qed.

(** X16.  A file that holds a header and no row: [upload_dataset] sends no
    request, whatever the transport and the window size, closes the bar at
    zero and announces completion. *)
Theorem upload_dataset_header_only (header : list pystr) (w : World) :
  Csv.reader (file_lines content) = ([header], None) →
  upload_dataset net fs path_name _api_url file_path dataset_id file_name
    rows_per_chunk w
  = (inr tt,
     mkWorld (sent w) (slept w)
       (mkTqdm (Z.of_nat (length (file_lines content)) - 1) 0 true)
       (printed w ++ [UploadCompleted]) (heap w)).
Proof. intros Hreader. rewrite upload_dataset_start, Hreader. reflexivity. Qed.


End UploadAny.

(** ** The progress of an upload that is answered *)

Section UploadProgress.

Variable respond : nat → Request → Response.
Variable fs : pystr → option pystr.
Variable path_name : pystr → pystr.
Variable _api_url : pystr.
Variables (header : list pystr) (dataset_id : pystr).
Variable rows_per_chunk : Z.

Lemma windows_answered_app (file_name : pystr) ws1 ws2 :
  ∀ first w,
    windows_answered respond _api_url header file_name dataset_id first
      (ws1 ++ ws2) w
    = windows_answered respond _api_url header file_name dataset_id
        (first + Z.of_nat (length ws1)) ws2
        (windows_answered respond _api_url header file_name dataset_id first
           ws1 w).
Proof.
  induction ws1 as [|win ws1 IH]; intros first w.
  - cbn. by rewrite Z.add_0_r.
  - cbn [app windows_answered length]. rewrite IH. f_equal. lia.
Qed.

(** The loop under a transport that answers, with the world it leaves. *)
Lemma upload_rows_world (file_name : pystr) records :
  ∀ (buffer : list (list pystr)) (chunk_number : Z) (w : World),
    upload_rows (answering respond) _api_url (header_str header) file_name
      dataset_id rows_per_chunk records (quoted_row <$> buffer) chunk_number w
    = (inr (quoted_row <$> (windows_from rows_per_chunk records buffer).2,
            chunk_number
            + Z.of_nat (length (windows_from rows_per_chunk records buffer).1)),
       windows_answered respond _api_url header file_name dataset_id
         (chunk_number + 1) (windows_from rows_per_chunk records buffer).1 w).
Proof.
  induction records as [|row rest IH]; intros buffer chunk_number w.
  - cbn. unfold ret. by rewrite Z.add_0_r.
  - cbn [upload_rows windows_from].
    replace ((quoted_row <$> buffer) ++ [quoted_row row])
      with (quoted_row <$> (buffer ++ [row])) by (by rewrite fmap_app).
    rewrite length_fmap.
    destruct (Z.of_nat (length (buffer ++ [row])) =? rows_per_chunk);
      [|apply IH].
    unfold bind at 1.
    rewrite (upload_chunk_run (answering respond) _api_url _ _ _ _ _
               (respond (length (sent w)) _)) by reflexivity.
    specialize (IH [] (chunk_number + 1)).
    change (quoted_row <$> []) with (@nil pystr) in IH. rewrite IH.
    cbn [fst snd]. cbn [length windows_answered].
    f_equal. do 2 f_equal. lia.
Qed.

Lemma upload_dataset_world file_path file_name content rows w :
  fs file_path = Some content →
  Csv.reader (file_lines content) = (header :: rows, None) →
  upload_dataset (answering respond) fs path_name _api_url file_path
    dataset_id file_name rows_per_chunk w
  = (inr tt,
     upload_finished
       (windows_answered respond _api_url header (path_name file_path)
          dataset_id 1 (windows rows_per_chunk rows)
          (upload_started (Z.of_nat (length (file_lines content)) - 1) w))).
Proof.
  intros Hfs Hreader.
  rewrite (upload_dataset_start (answering respond) fs path_name _api_url
             dataset_id rows_per_chunk file_path file_name content Hfs).
  rewrite Hreader. unfold bind at 1.
  pose proof (upload_rows_world (path_name file_path) rows [] 0) as Hrun.
  change (quoted_row <$> []) with (@nil pystr) in Hrun. rewrite Hrun.
  unfold bind at 1, ret at 1. cbn [fst snd].
  unfold windows. rewrite windows_answered_app.
  destruct (windows_from rows_per_chunk rows []) as [ws leftover].
  cbn [fst snd].
  destruct leftover as [|row leftover]; [reflexivity|].
  cbn [fmap list_fmap]. unfold bind at 1.
  rewrite (upload_chunk_run (answering respond) _api_url _ _ _ _ _
             (respond (length (sent _)) _)) by reflexivity.
  cbn [windows_answered]. replace (0 + Z.of_nat (length ws) + 1)
    with (1 + Z.of_nat (length ws)) by lia.
  reflexivity.
Qed.

(** When every answer is 200, each window of rows without line breaks and
    without empty rows advances the bar by its number of rows, and nothing
    is printed. *)
Lemma windows_answered_accepted (file_name : pystr) wins :
  (∀ i r, status_code (respond i r) = 200) →
  Forall one_line header →
  Forall (Forall (Forall one_line)) wins →
  Forall (Forall (λ row, row ≠ [])) wins →
  ∀ first w,
    let w' := windows_answered respond _api_url header file_name dataset_id
                first wins w in
    n (pbar w') = n (pbar w) + Z.of_nat (length (mjoin wins))
    ∧ total (pbar w') = total (pbar w)
    ∧ printed w' = printed w.
Proof.
  intros Hall Hheader Hlines Hfields.
  induction wins as [|win wins IH]; intros first w; cbn zeta.
  - cbn. split; [lia|done].
  - apply Forall_cons in Hlines as [Hwin Hlines].
    apply Forall_cons in Hfields as [Hrows Hfields].
    cbn [windows_answered].
    destruct (IH Hlines Hfields (first + 1)
                (chunk_answered
                   (upload_request _api_url (encode header win) first file_name
                      dataset_id)
                   (encode header win) first
                   (respond (length (sent w))
                      (upload_request _api_url (encode header win) first
                         file_name dataset_id)) w))
      as (Hn & Htotal & Hprinted).
    rewrite Hn, Htotal, Hprinted. unfold chunk_answered. rewrite Hall.
    cbn [Z.eqb Pos.eqb pbar n total printed].
    rewrite chunk_line_count; [| done | done |].
    + change (mjoin (win :: wins)) with (win ++ mjoin wins).
      rewrite length_app. split; [lia|done].
    + intros row Hlast%last_Some_elem_of.
      by apply (proj1 (Forall_forall _ _) Hrows).
Qed.

(** When every answer has the same status other than 200, the bar does not
    move and one line is printed for every window. *)
Lemma windows_answered_rejected (file_name : pystr) (code : Z) wins :
  (∀ i r, status_code (respond i r) = code) →
  code ≠ 200 →
  ∀ first w,
    let w' := windows_answered respond _api_url header file_name dataset_id
                first wins w in
    pbar w' = pbar w
    ∧ printed w'
      = printed w ++ ((λ j, ChunkFailed j code)
                        <$> seqZ first (Z.of_nat (length wins))).
Proof.
  intros Hall Hcode.
  induction wins as [|win wins IH]; intros first w; cbn zeta.
  - cbn. by rewrite app_nil_r.
  - cbn [windows_answered].
    destruct (IH (first + 1)
                (chunk_answered
                   (upload_request _api_url (encode header win) first file_name
                      dataset_id)
                   (encode header win) first
                   (respond (length (sent w))
                      (upload_request _api_url (encode header win) first
                         file_name dataset_id)) w))
      as (Hpbar & Hprinted).
    rewrite Hpbar, Hprinted. unfold chunk_answered. rewrite Hall.
    rewrite (proj2 (Z.eqb_neq _ _) Hcode). cbn [pbar printed length].
    split; [done|]. rewrite <- app_assoc. f_equal.
    rewrite (seqZ_cons first) by lia. cbn [fmap list_fmap app].
    do 3 f_equal; lia.
Qed.


Variables (file_path file_name content : pystr).
Variable rows : list (list pystr).
Hypothesis file_exists : fs file_path = Some content.
Hypothesis file_parsed : Csv.reader (file_lines content) = (header :: rows, None).

(** X18.  When every chunk is answered with status 200 and no field of the
    file holds a line break and no row is empty, [upload_dataset] returns
    with the bar closed at the number of rows and has printed nothing but
    the completion. *)
Theorem upload_all_accepted (w : World) :
  (∀ i r, status_code (respond i r) = 200) →
  Forall one_line header →
  Forall (Forall one_line) rows →
  Forall (λ row, row ≠ []) rows →
  ∃ w',
    upload_dataset (answering respond) fs path_name _api_url file_path
      dataset_id file_name rows_per_chunk w = (inr tt, w')
    ∧ pbar w' = mkTqdm (Z.of_nat (length (file_lines content)) - 1)
                  (Z.of_nat (length rows)) true
    ∧ printed w' = printed w ++ [UploadCompleted].
Proof.
  intros Hall Hheader Hlines Hfields.
  rewrite (upload_dataset_world file_path file_name content rows w)
    by done.
  eexists. split; [reflexivity|].
  edestruct (windows_answered_accepted (path_name file_path)
               (windows rows_per_chunk rows) Hall Hheader)
    as (Hn & Htotal & Hprinted).
  { apply Forall_of_join. by rewrite windows_concat. }
  { apply Forall_of_join. by rewrite windows_concat. }
  unfold upload_finished. cbn [pbar printed].
  rewrite Hn, Htotal, Hprinted, windows_concat. cbn. split; [|done].
  f_equal.
Qed.

(** X19.  When every chunk is answered with one status other than 200,
    [upload_dataset] still returns normally and announces completion: the
    bar is closed at zero, and before the completion one line has been
    printed for every window, in order, numbered from 1. *)
Theorem upload_all_rejected (code : Z) (w : World) :
  (∀ i r, status_code (respond i r) = code) →
  code ≠ 200 →
  ∃ w',
    upload_dataset (answering respond) fs path_name _api_url file_path
      dataset_id file_name rows_per_chunk w = (inr tt, w')
    ∧ pbar w' = mkTqdm (Z.of_nat (length (file_lines content)) - 1) 0 true
    ∧ printed w'
      = printed w
        ++ ((λ j, ChunkFailed j code)
              <$> seqZ 1 (Z.of_nat (length (windows rows_per_chunk rows))))
        ++ [UploadCompleted].
Proof.
  intros Hall Hcode.
  rewrite (upload_dataset_world file_path file_name content rows w)
    by done.
  eexists. split; [reflexivity|].
  edestruct (windows_answered_rejected (path_name file_path) code
               (windows rows_per_chunk rows) Hall Hcode)
    as (Hpbar & Hprinted).
  unfold upload_finished. cbn [pbar printed].
  rewrite Hpbar, Hprinted. cbn. by rewrite <- app_assoc.
Qed.


End UploadProgress.

(** ** Upload, then download *)

Section RoundTrip.

Variable respond : nat → Request → Response.
Variable net : nat → Request → net_error + Response.
Variable environ : gmap pystr pystr.
Variable fs : pystr → option pystr.
Variable path_name : pystr → pystr.
Variable _api_url : pystr.
Variable __headers : nat.
Variables (header : list pystr) (rows : list (list pystr)).
Variables (dataset_id file_path file_name content : pystr).
Variable rows_per_chunk : Z.

(** The frames of the windows, as the download loop collects them. *)
Lemma frames_of_windows (wins : list (list (list pystr))) :
  (λ c, Pandas.table header (default [] (wins !! Z.to_nat (c - 1))))
    <$> seqZ 1 (Z.of_nat (length wins))
  = Pandas.table header <$> wins.
Proof.
  apply list_eq. intros i. rewrite !list_lookup_fmap.
  destruct (wins !! i) as [win|] eqn:Hwin.
  - rewrite (proj2 (lookup_seqZ 1 (Z.of_nat (length wins)) i (1 + Z.of_nat i))).
    2:{ apply lookup_lt_Some in Hwin. lia. }
    cbn. replace (Z.to_nat (1 + Z.of_nat i - 1)) with i by lia.
    by rewrite Hwin.
  - apply lookup_ge_None in Hwin.
    by rewrite lookup_seqZ_ge by lia.
Qed.

(** X21.  Upload, then download.  A file of at least one row, whose header
    names at least one column, every name a column name and none twice, and
    whose rows all have the width of the header and hold plain text, is
    uploaded in windows of a positive size to a transport that answers.  A
    server that then reports as many chunks as it has received and answers
    the request for chunk j with the content of the j-th upload makes
    [load_dataset] return the table of the file: its header and all its
    rows, in order, every cell the string of its field. *)
Theorem upload_then_load (w : World) (base : headers_dict) (info : Response)
    (members : list (pystr * json)) (served : Z → Response) :
  let up := upload_dataset (answering respond) fs path_name _api_url file_path
              dataset_id file_name rows_per_chunk w in
  let uploads := drop (length (sent w)) (sent up.2) in
  let info_call : Request :=
    {| method := GET; url := _api_url ++ str "/dataset-info/";
       headers := None; params := [(str "dataset_id", JStr dataset_id)];
       data := NoBody; files := [] |} in
  let chunk_call (j : Z) : Request :=
    {| method := GET; url := _api_url ++ str "/download-dataset/";
       headers := None;
       params := [(str "dataset_id", JStr dataset_id);
                  (str "chunk_number", JInt j)];
       data := NoBody; files := [] |} in
  0 < rows_per_chunk →
  rows ≠ [] →
  header ≠ [] →
  NoDup header →
  Forall column_name header →
  Forall (λ row, length row = length header) rows →
  Forall (Forall plain_text) rows →
  fs file_path = Some content →
  Csv.reader (file_lines content) = (header :: rows, None) →
  heap w !! __headers = Some base →
  net (length (sent up.2)) info_call = inr info →
  ok info = true →
  json_body info = Some (JObj members) →
  dict_get (str "total_chunks") members
    = Some (JInt (Z.of_nat (length uploads))) →
  (∀ (j : nat) req, uploads !! j = Some req →
     net (length (sent up.2) + S j) (chunk_call (Z.of_nat (S j)))
     = inr (served (Z.of_nat (S j)))
     ∧ ok (served (Z.of_nat (S j))) = true
     ∧ ∃ name, files req
               = [(str "data_file", (name, text (served (Z.of_nat (S j)))))]) →
  up.1 = inr tt
  ∧ (load_dataset net environ _api_url __headers Pandas.read_csv
       Pandas.concat Pandas.DataFrame_empty dataset_id up.2).1
    = inr (Pandas.table header rows).
Proof.
  intros up uploads info_call chunk_call Hpos Hrows Hheader Hnodup Hnames
    Hwidth Hplain Hfs Hreader Hbase Hinfo Hok Hbody Htotal Hserved.
  destruct (upload_dataset_sent respond fs path_name _api_url header dataset_id
              rows_per_chunk file_path file_name content rows w Hfs Hreader)
    as (w1 & Hrun & Hsent & _ & Hheap & _).
  subst uploads up info_call chunk_call. rewrite Hrun in *. cbn [fst snd] in *.
  split; [done|].
  rewrite Hsent, drop_app_length in Htotal, Hserved.
  set (wins := windows rows_per_chunk rows) in *.
  assert (Hlen : length (chunk_requests _api_url header (path_name file_path)
                           dataset_id 1 wins) = length wins)
    by apply length_imap.
  rewrite Hlen in Htotal.
  assert (Hjoin : mjoin wins = rows) by apply windows_concat.
  rewrite (load_dataset_to_loop net environ _api_url __headers Pandas.read_csv
             Pandas.concat Pandas.DataFrame_empty dataset_id w1 base info
             members (Z.of_nat (length wins)))
    by (try done; by rewrite Hheap).
  assert (Hwidths : Forall (Forall (λ row, length row = length header)) wins).
  { apply Forall_of_join. by rewrite Hjoin. }
  assert (Hplains : Forall (Forall (Forall plain_text)) wins).
  { apply Forall_of_join. by rewrite Hjoin. }
  unfold bind.
  rewrite (download_chunks_all net _api_url Pandas.read_csv dataset_id served
             (λ c, Pandas.table header (default [] (wins !! Z.to_nat (c - 1))))).
  - unfold ret. cbn [fst snd app]. rewrite frames_of_windows.
    assert (Hne : wins ≠ []) by (intros Hnil; by rewrite Hnil in Hjoin).
    rewrite concat_tables, Hjoin by done.
    destruct wins; [done|]. reflexivity.
  - intros i c Hi. apply lookup_seqZ in Hi as [-> Hlt].
    destruct (lookup_lt_is_Some_2 wins i) as [win Hwin]; [lia|].
    destruct (Hserved i
                (upload_request _api_url (encode header win)
                   (1 + Z.of_nat i) (path_name file_path) dataset_id))
      as (Hnet & Hokc & name & Hfiles).
    { unfold chunk_requests. rewrite list_lookup_imap, Hwin. done. }
    replace (1 + Z.of_nat i) with (Z.of_nat (S i)) by lia.
    unfold logged. cbn [sent]. rewrite length_app. cbn [length].
    replace (length (sent w1) + 1 + i)%nat
      with (length (sent w1) + S i)%nat by lia.
    rewrite <- Hsent in Hnet.
    split; [exact Hnet|]. split; [exact Hokc|].
    cbn in Hfiles. injection Hfiles as _ <-.
    replace (Z.to_nat (Z.of_nat (S i) - 1)) with i by lia.
    rewrite Hwin. change (default [] (Some win)) with win.
    apply encode_read_csv; try done.
    + by apply (proj1 (Forall_lookup _ _) Hwidths i win).
    + by apply (proj1 (Forall_lookup _ _) Hplains i win).
Qed.

End RoundTrip.

(** ** The translation of failed responses *)

Section BagelErrors.

Variable error_types : gmap pystr error_class.

(** X22.  [raise_bagel_error] changes nothing and returns exactly for the
    responses that are ok.  For any other response it raises.  When the body
    is a JSON object whose [error] is a code of the error table and which
    has a [message], it raises the typed error of that code with that
    message.  When the body is no JSON or no object, or an object without [error],
    with a code the table does not know, or without [message], it raises the
    generic exception with the raw text: what goes wrong while the body is
    read never reaches the caller.  Nothing else is ever raised. *)
Theorem raise_bagel_error_translates (resp : Response) (w : World) :
  let run := raise_bagel_error error_types resp w in
  run.2 = w
  ∧ (ok resp = true → run.1 = inr tt)
  ∧ (ok resp = false →
     ∀ members code cls message,
       json_body resp = Some (JObj members) →
       dict_get (str "error") members = Some (JStr code) →
       error_types !! code = Some cls →
       dict_get (str "message") members = Some message →
       run.1 = inl (BagelError cls message))
  ∧ (ok resp = false →
     json_body resp = None
     ∨ (∃ body, json_body resp = Some body ∧ ∀ members, body ≠ JObj members) →
     run.1 = inl (Exception (text resp)))
  ∧ (ok resp = false →
     ∀ members, json_body resp = Some (JObj members) →
       dict_get (str "error") members = None
       ∨ (∃ code, dict_get (str "error") members = Some (JStr code)
                  ∧ error_types !! code = None)
       ∨ dict_get (str "message") members = None →
       run.1 = inl (Exception (text resp)))
  ∧ (ok resp = false →
     ∃ e, run.1 = inl e
       ∧ (e = Exception (text resp)
          ∨ ∃ members code cls message,
              json_body resp = Some (JObj members)
              ∧ dict_get (str "error") members = Some (JStr code)
              ∧ error_types !! code = Some cls
              ∧ dict_get (str "message") members = Some message
              ∧ e = BagelError cls message)).
Proof.
  intros run. subst run. unfold raise_bagel_error.
  destruct (ok resp); cbn [fst snd].
  { split; [done|]. split; [done|]. repeat split; discriminate. }
  split; [by destruct (bagel_error_of error_types resp)|].
  split; [discriminate|].
  unfold bagel_error_of.
  split; [|split; [|split]]; intros _.
  - intros members code cls message -> -> -> ->. reflexivity.
  - intros [-> | (body & -> & Hbody)]; [done|].
    destruct body; try done. by destruct (Hbody members).
  - intros members -> [-> | [(code & -> & ->) | Hmessage]]; [done..|].
    rewrite Hmessage. by repeat case_match.
  - destruct (json_body resp) as [[| | | | | |members]|] eqn:Hbody;
      try (eexists; split; [reflexivity|by left]).
    destruct (dict_get (str "error") members) as [[| | | |code| |]|] eqn:Herror;
      try (eexists; split; [reflexivity|by left]).
    destruct (error_types !! code) as [cls|] eqn:Hcls;
      [|eexists; split; [reflexivity|by left]].
    destruct (dict_get (str "message") members) as [message|] eqn:Hmessage;
      [|eexists; split; [reflexivity|by left]].
    eexists. split; [reflexivity|]. right.
    by exists members, code, cls, message.
Qed.

End BagelErrors.

(** *** Instances of the further properties *)

Lemma extract_user_id_and_api_key_resolves_witness :
  let environ := <[BAGEL_USER_ID := str "bob"]> Example.env_with_key in
  _extract_user_id_and_api_key environ (Some (str "k1")) (str "alice")
  = (Some (str "k1"), str "alice")
  ∧ _extract_user_id_and_api_key environ None DEFAULT_TENANT
    = (Some (str "env-key"), str "bob").
Proof.
  cbv zeta.
  destruct (extract_user_id_and_api_key_resolves
              (<[BAGEL_USER_ID := str "bob"]> Example.env_with_key)
              (Some (str "k1")) (str "alice")) as (Hkey & _ & Huser & _).
  destruct (extract_user_id_and_api_key_resolves
              (<[BAGEL_USER_ID := str "bob"]> Example.env_with_key)
              None DEFAULT_TENANT) as (_ & Henv_key & _ & Henv_user & _).
  split; apply injective_projections.
  - exact (Hkey _ eq_refl).
  - apply Huser. discriminate.
  - exact (Henv_key eq_refl).
  - exact (Henv_user (str "bob") eq_refl eq_refl).
Defined.

Lemma extract_headers_resolves_once_witness :
  heap Example.world0 !! 0%nat = Some Example.base_headers
  ∧ (_extract_headers_with_key_and_user_id ∅ 0 None (str "alice")
       Example.world0).1 = inr (1%nat, str "alice").
Proof.
  split; [reflexivity|].
  destruct (extract_headers_resolves_once ∅ 0 None (str "alice")
              Example.world0 Example.base_headers eq_refl) as [Hrun _].
  rewrite Hrun. reflexivity.
Defined.

Lemma populate_headers_needs_environment_witness :
  (populate_headers_with_api_key ∅ 0 Example.world0).1 = inl UnboundLocalError
  ∧ (populate_headers_with_api_key Example.env_with_key 0 Example.world0).1
    = inr 1%nat.
Proof.
  split.
  - destruct (populate_headers_needs_environment ∅ 0 Example.world0
                Example.base_headers eq_refl) as (_ & Hnone & _).
    rewrite (Hnone eq_refl). reflexivity.
  - destruct (populate_headers_needs_environment Example.env_with_key 0
                Example.world0 Example.base_headers eq_refl) as (Hsome & _).
    rewrite (Hsome (str "env-key") eq_refl). reflexivity.
Defined.


Lemma get_pagination_witness :
  heap Example.world0 !! 0%nat = Some Example.base_headers
  ∧ data <$> sent (_get Example.unreachable ∅ ∅ Example.api_url 0 (str "c1")
                     JNull (JObj []) JNull (Some 5) (Some 7) (Some 3) (Some 10)
                     (JObj []) (JArr []) None Example.world0).2
    = [JsonText
         (JObj [(str "ids", JNull); (str "where", JObj []);
                (str "sort", JNull);
                (str "limit", JInt 10); (str "offset", JInt 20);
                (str "where_document", JObj []); (str "include", JArr [])])].
Proof.
  split; [reflexivity|].
  destruct (get_pagination Example.unreachable ∅ ∅ Example.api_url 0 (str "c1")
              JNull (JObj []) JNull (Some 5) (Some 7) None None (JObj [])
              (JArr []) None Example.world0 Example.base_headers eq_refl)
    as (Hpage & _).
  rewrite (Hpage 3 10) by discriminate. reflexivity.
Defined.



Lemma delete_and_upsert_send_no_key_witness :
  headers <$> sent (_delete (answering Example.all_ok) ∅ Example.api_url
                      (str "c1") (JArr []) (JObj []) (JObj [])
                      (Some (str "secret")) Example.world0).2
  = [None]
  ∧ headers <$> sent (_upsert (answering Example.all_ok) Example.api_url 0
                        (str "c1") (JArr []) JNull JNull JNull true
                        (Some (str "secret")) Example.world0).2
    = [Some Example.base_headers].
Proof.
  destruct (delete_and_upsert_send_no_key (answering Example.all_ok) ∅
              Example.api_url 0 (str "c1") (JArr []) (JObj []) (JObj [])
              JNull JNull JNull true (Some (str "secret")) Example.world0
              Example.base_headers (Example.status 200) eq_refl eq_refl)
    as [Hdelete Hupsert].
  rewrite Hdelete, Hupsert. split; reflexivity.
Defined.

Lemma get_or_create_cluster_ignores_user_witness :
  data <$> sent (get_or_create_cluster (answering Example.all_ok) ∅ ∅
                   Example.api_url 0 (str "docs") JNull (str "alice") None
                   JNull JNull Example.world0).2
  = [JsonText
       (JObj [(str "name", JStr (str "docs")); (str "metadata", JNull);
              (str "get_or_create", JBool true);
              (str "user_id", JStr DEFAULT_TENANT);
              (str "embedding_model", JNull); (str "dimensions", JNull)])].
Proof.
  rewrite (get_or_create_cluster_ignores_user (answering Example.all_ok) ∅ ∅
             Example.api_url 0 (str "docs") JNull (str "alice") None JNull
             JNull Example.world0 Example.base_headers eq_refl).
  reflexivity.
Defined.

Lemma query_is_bounded_witness :
  ∃ k j : nat,
    (k ≤ 3)%nat ∧ (j ≤ 2)%nat
    ∧ length (sent (_query Example.flaky ∅ ∅ Example.api_url 0 (str "c1")
                      (JArr []) 10 JNull JNull JNull JNull None
                      Example.world0).2) = k
    ∧ length (slept (_query Example.flaky ∅ ∅ Example.api_url 0 (str "c1")
                       (JArr []) 10 JNull JNull JNull JNull None
                       Example.world0).2) = j.
Proof.
  destruct (query_is_bounded Example.flaky ∅ ∅ Example.api_url 0 (str "c1")
              (JArr []) 10 JNull JNull JNull JNull None Example.world0
              Example.base_headers eq_refl)
    as (k & j & Hk & Hj & _ & Hrun & _).
  exists k, j. split; [exact Hk|]. split; [exact Hj|].
  rewrite Hrun. cbn [sent slept Example.world0 app].
  by rewrite !length_replicate.
Defined.

Lemma query_first_success_witness :
  ok Example.found = true
  ∧ slept (_query (answering (λ _ _, Example.found)) ∅ ∅ Example.api_url 0
             (str "c1") (JArr []) 10 JNull JNull JNull JNull None
             Example.world0).2 = []
  ∧ length (sent (_query (answering (λ _ _, Example.found)) ∅ ∅
                    Example.api_url 0 (str "c1") (JArr []) 10 JNull JNull
                    JNull JNull None Example.world0).2) = 1%nat.
Proof.
  split; [reflexivity|].
  rewrite (query_first_success (answering (λ _ _, Example.found)) ∅ ∅
             Example.api_url 0 (str "c1") (JArr []) 10 JNull JNull JNull JNull
             None Example.world0 Example.base_headers Example.found eq_refl
             eq_refl eq_refl).
  split; reflexivity.
Defined.

Lemma query_transport_error_not_retried_witness :
  _query Example.unreachable ∅ ∅ Example.api_url 0 (str "c1") (JArr []) 10
    JNull JNull JNull JNull None Example.world0
  = (inl (RequestException ConnectionFailed),
     mkWorld
       [query_request Example.api_url (str "c1")
          (query_payload (JArr []) 10 JNull JNull JNull JNull)
          (<[X_API_KEY := None]> Example.base_headers)]
       [] (mkTqdm 0 0 false) []
       [Example.base_headers; <[X_API_KEY := None]> Example.base_headers])
  ∧ (_query Example.fails_then_drops ∅ ∅ Example.api_url 0 (str "c1")
       (JArr []) 10 JNull JNull JNull JNull None Example.world0).1
    = inl (RequestException TimedOut)
  ∧ slept (_query Example.fails_then_drops ∅ ∅ Example.api_url 0 (str "c1")
             (JArr []) 10 JNull JNull JNull JNull None Example.world0).2
    = [1].
Proof.
  destruct (query_transport_error_not_retried Example.unreachable ∅ ∅
              Example.api_url 0 (str "c1") (JArr []) 10 JNull JNull JNull
              JNull None Example.world0 Example.base_headers ConnectionFailed
              eq_refl) as [Hfirst _].
  destruct (query_transport_error_not_retried Example.fails_then_drops ∅ ∅
              Example.api_url 0 (str "c1") (JArr []) 10 JNull JNull JNull
              JNull None Example.world0 Example.base_headers TimedOut
              eq_refl) as [_ Hsecond].
  split; [exact (Hfirst eq_refl)|].
  rewrite (Hsecond (Example.status 503) eq_refl eq_refl eq_refl).
  split; reflexivity.
Defined.

Lemma load_dataset_sends_no_headers_witness :
  heap Example.world0 !! 0%nat = Some Example.base_headers
  ∧ ∃ k : Z,
      Z.of_nat
        (length (sent (load_dataset Example.second_chunk_fails ∅
                         Example.api_url 0 Pandas.read_csv Pandas.concat
                         Pandas.DataFrame_empty (str "ds1")
                         Example.world0).2))
      = 1 + k
      ∧ Forall (λ r, headers r = None)
          (sent (load_dataset Example.second_chunk_fails ∅ Example.api_url 0
                   Pandas.read_csv Pandas.concat Pandas.DataFrame_empty
                   (str "ds1") Example.world0).2).
Proof.
  split; [reflexivity|].
  destruct (load_dataset_sends_no_headers Example.second_chunk_fails ∅
              Example.api_url 0 Pandas.read_csv Pandas.concat
              Pandas.DataFrame_empty (str "ds1") Example.world0
              Example.base_headers eq_refl) as (k & Hk & Hrun & Hreqs & _).
  exists k. rewrite Hrun. cbn [sent Example.world0 app]. split.
  - rewrite length_cons, length_fmap, length_seqZ. lia.
  - apply Forall_forall. intros r Hr. by apply Hreqs.
Defined.

Lemma load_dataset_metadata_edges_witness :
  (load_dataset (answering Example.all_ok) ∅ Example.api_url 0 Pandas.read_csv
     Pandas.concat Pandas.DataFrame_empty (str "ds1") Example.world0).1
  = inl JSONDecodeError
  ∧ (load_dataset
       (answering (λ _ _, mkResponse 200 [] (Some (JObj [])))) ∅
       Example.api_url 0 Pandas.read_csv Pandas.concat Pandas.DataFrame_empty
       (str "ds1") Example.world0).1
    = inl (KeyError (str "total_chunks"))
  ∧ (load_dataset
       (answering
          (λ _ _, mkResponse 200 []
                    (Some (JObj [(str "total_chunks", JInt (-1))])))) ∅
       Example.api_url 0 Pandas.read_csv Pandas.concat Pandas.DataFrame_empty
       (str "ds1") Example.world0).1
    = inr Pandas.DataFrame_empty.
Proof.
  split; [|split].
  - destruct (load_dataset_metadata_edges (answering Example.all_ok) ∅
                Example.api_url 0 Pandas.read_csv Pandas.concat
                Pandas.DataFrame_empty (str "ds1") Example.world0
                Example.base_headers (Example.status 200) eq_refl eq_refl
                eq_refl) as (Hnone & _).
    by rewrite (Hnone eq_refl).
  - destruct (load_dataset_metadata_edges
                (answering (λ _ _, mkResponse 200 [] (Some (JObj [])))) ∅
                Example.api_url 0 Pandas.read_csv Pandas.concat
                Pandas.DataFrame_empty (str "ds1") Example.world0
                Example.base_headers (mkResponse 200 [] (Some (JObj [])))
                eq_refl eq_refl eq_refl) as (_ & Hkey & _).
    by rewrite (Hkey [] eq_refl eq_refl).
  - destruct (load_dataset_metadata_edges
                (answering
                   (λ _ _, mkResponse 200 []
                             (Some (JObj [(str "total_chunks", JInt (-1))]))))
                ∅ Example.api_url 0 Pandas.read_csv Pandas.concat
                Pandas.DataFrame_empty (str "ds1") Example.world0
                Example.base_headers
                (mkResponse 200 []
                   (Some (JObj [(str "total_chunks", JInt (-1))])))
                eq_refl eq_refl eq_refl) as (_ & _ & Hempty).
    by rewrite (Hempty [(str "total_chunks", JInt (-1))] (-1) eq_refl eq_refl
                  ltac:(lia)).
Defined.

Lemma upload_dataset_without_header_witness :
  Csv.reader (file_lines []) = ([], None)
  ∧ upload_dataset Example.unreachable (λ _, Some []) id Example.api_url
      (str "/tmp/empty.csv") (str "ds1") (str "empty.csv") 100 Example.world0
    = (inl StopIteration,
       mkWorld [] [] (mkTqdm (-1) 0 false) [] [Example.base_headers]).
Proof.
  split; [reflexivity|].
  apply (upload_dataset_without_header Example.unreachable (λ _, Some []) id
           Example.api_url (str "ds1") 100 (str "/tmp/empty.csv")
           (str "empty.csv") [] eq_refl Example.world0 eq_refl).
Defined.

Lemma upload_dataset_header_only_witness :
  Csv.reader (file_lines Example.header_only) = ([[str "a"]], None)
  ∧ upload_dataset Example.unreachable (λ _, Some Example.header_only) id
      Example.api_url (str "/tmp/data.csv") (str "ds1") (str "data.csv") 100
      Example.world0
    = (inr tt,
       mkWorld [] [] (mkTqdm 0 0 true) [UploadCompleted]
         [Example.base_headers]).
Proof.
  split; [reflexivity|].
  apply (upload_dataset_header_only Example.unreachable
           (λ _, Some Example.header_only) id Example.api_url (str "ds1") 100
           (str "/tmp/data.csv") (str "data.csv") Example.header_only eq_refl
           [str "a"] Example.world0 eq_refl).
Defined.


Lemma upload_all_accepted_witness :
  ∃ w',
    upload_dataset (answering Example.all_ok) (λ _, Some Example.three_rows) id
      Example.api_url (str "/tmp/data.csv") (str "ds1") (str "data.csv") 2
      Example.world0 = (inr tt, w')
    ∧ pbar w' = mkTqdm 3 3 true
    ∧ printed w' = [UploadCompleted].
Proof.
  apply (upload_all_accepted Example.all_ok (λ _, Some Example.three_rows) id
           Example.api_url [str "a"] (str "ds1") 2 (str "/tmp/data.csv")
           (str "data.csv") Example.three_rows
           [[str "x"]; [str "y"]; [str "z"]] eq_refl eq_refl Example.world0).
  - reflexivity.
  - repeat constructor.
  - repeat constructor.
  - repeat constructor; discriminate.
Defined.

Lemma upload_all_rejected_witness :
  ∃ w',
    upload_dataset (answering (λ _ _, Example.status 500))
      (λ _, Some Example.three_rows) id Example.api_url (str "/tmp/data.csv")
      (str "ds1") (str "data.csv") 2 Example.world0 = (inr tt, w')
    ∧ pbar w' = mkTqdm 3 0 true
    ∧ printed w' = [ChunkFailed 1 500; ChunkFailed 2 500; UploadCompleted].
Proof.
  apply (upload_all_rejected (λ _ _, Example.status 500)
           (λ _, Some Example.three_rows) id Example.api_url [str "a"]
           (str "ds1") 2 (str "/tmp/data.csv") (str "data.csv")
           Example.three_rows [[str "x"]; [str "y"]; [str "z"]] eq_refl eq_refl
           500 Example.world0).
  - reflexivity.
  - discriminate.
Defined.


Lemma upload_then_load_witness :
  let up :=
    upload_dataset (answering Example.all_ok) (λ _, Some Example.three_rows) id
      Example.api_url (str "/tmp/data.csv") (str "ds1") (str "data.csv") 2
      Example.world0 in
  up.1 = inr tt
  ∧ (load_dataset Example.after_upload ∅ Example.api_url 0 Pandas.read_csv
       Pandas.concat Pandas.DataFrame_empty (str "ds1") up.2).1
    = inr (Pandas.table [str "a"] [[str "x"]; [str "y"]; [str "z"]]).
Proof.
  apply (upload_then_load Example.all_ok Example.after_upload ∅
           (λ _, Some Example.three_rows) id Example.api_url 0 [str "a"]
           [[str "x"]; [str "y"]; [str "z"]] (str "ds1") (str "/tmp/data.csv")
           (str "data.csv") Example.three_rows 2 Example.world0
           Example.base_headers Example.info_two
           [(str "total_chunks", JInt 2)] Example.stored).
  - lia.
  - discriminate.
  - discriminate.
  - repeat constructor; set_solver.
  - repeat (first [discriminate | reflexivity | split | constructor]).
  - repeat constructor.
  - repeat (first [reflexivity | constructor]).
  - reflexivity.
  - reflexivity.
  - reflexivity.
  - reflexivity.
  - reflexivity.
  - reflexivity.
  - reflexivity.
  - intros [|[|j]] req Hreq; vm_compute in Hreq; [| |discriminate];
      injection Hreq as <-;
      (split; [reflexivity|]; split; [reflexivity|]);
      eexists; reflexivity.
Defined.

Lemma raise_bagel_error_translates_witness :
  let error_types : gmap pystr error_class :=
    {[ str "NotFound" := ErrorClass (str "NotFoundError") ]} in
  let not_found :=
    mkResponse 404 []
      (Some (JObj [(str "error", JStr (str "NotFound"));
                   (str "message", JStr (str "no such cluster"))])) in
  ok (Example.status 200) = true
  ∧ (raise_bagel_error error_types (Example.status 200) Example.world0).1
    = inr tt
  ∧ ok not_found = false
  ∧ (raise_bagel_error error_types not_found Example.world0).1
    = inl (BagelError (ErrorClass (str "NotFoundError"))
             (JStr (str "no such cluster")))
  ∧ (raise_bagel_error error_types (Example.status 404) Example.world0).1
    = inl (Exception []).
Proof.
  cbv zeta.
  destruct (raise_bagel_error_translates
              {[ str "NotFound" := ErrorClass (str "NotFoundError") ]}
              (Example.status 200) Example.world0) as (_ & Hok & _).
  destruct (raise_bagel_error_translates
              {[ str "NotFound" := ErrorClass (str "NotFoundError") ]}
              (mkResponse 404 []
                 (Some (JObj [(str "error", JStr (str "NotFound"));
                              (str "message", JStr (str "no such cluster"))])))
              Example.world0) as (_ & _ & Htyped & _).
  destruct (raise_bagel_error_translates
              {[ str "NotFound" := ErrorClass (str "NotFoundError") ]}
              (Example.status 404) Example.world0)
    as (_ & _ & _ & Hgeneric & _).
  split; [reflexivity|]. split; [exact (Hok eq_refl)|].
  split; [reflexivity|]. split.
  - exact (Htyped eq_refl _ _ _ _ eq_refl eq_refl eq_refl eq_refl).
  - apply (Hgeneric eq_refl). by left.
Defined.
